(** * Client-metrics store (ClientMetricsStoreV2): a shallow embedding

    The store keeps three PostgreSQL tables, [client_metrics_env],
    [client_metrics_env_variants] and [client_metrics_total], and talks to
    them through a query builder.  This development embeds the store's
    functions as Rocq functions over an explicit model of the three tables
    and proves (or refutes) the properties stated for the pipeline.

    Conventions of the model:
    - a [Date] is its number of milliseconds since the epoch, a [Z];
    - a JavaScript [number] holding a counter is a [Z] (no rounding, no
      overflow in the numeric columns);
    - an object literal used as a dictionary is the list of its own
      properties, read through the properties it inherits from
      [Object.prototype];
    - a table is the list of its rows; the primary key is a projection;
    - an awaited database call is a step of a state-and-error monad that
      records every statement it sends. *)

From Stdlib Require Import ZArith Lia List Ascii String Sorted Permutation.
From Stdlib Require OrdersEx.
From stdpp Require Import base decidable option list sorting strings pretty.

Local Open Scope Z_scope.

(** ** Dates *)

Definition msPerHour : Z := 3600000.
Definition msPerSecond : Z := 1000.

(** [startOfHour] of date-fns: the date with minutes, seconds and
    milliseconds set to zero.  The zone offset of the process is taken to be
    a whole number of hours, so the start of the local hour is the start of
    the hour of the epoch clock. *)
Definition startOfHour (t : Z) : Z := t - t mod msPerHour.

(** ** JavaScript values used by the store *)

(** [Array.prototype.sort(compareFn)]: the sort is stable, and for a
  consistent comparator its result is the stable sorted arrangement, which
  this insertion sort computes.  [compareFn a b <= 0] keeps [a] first. *)
Section js_sort.
Context {A : Type} (compareFn : A -> A -> Z).

Fixpoint sort_insert (x : A) (l : list A) : list A :=
  match l with
  | [] => [x]
  | y :: l' =>
      if decide (compareFn x y <= 0) then x :: y :: l' else y :: sort_insert x l'
  end.

Definition sort (l : list A) : list A := foldr sort_insert [] l.
End js_sort.

(** [a || b] on numbers: [a] unless it is zero. *)
Definition or_else (a b : Z) : Z := if decide (a = 0) then b else a.
Infix "`or`" := or_else (at level 55, right associativity).

(** [String.prototype.split] with a one-character separator. *)
Fixpoint split (sep : ascii) (s : string) : list string :=
match s with
| EmptyString => [EmptyString]
| String c s' =>
    if decide (c = sep) then EmptyString :: split sep s'
    else match split sep s' with
         | [] => [String c EmptyString]
         | p :: ps => String c p :: ps
         end
end.

(** A plain object used as a dictionary with string keys, as the list of its
  own properties in creation order.  That is the order of [Object.keys] and
  [Object.values] for names that are not array indices, as every name with
  an underscore is; names that are array indices would be listed first, in
  numeric order, which changes the list and not the mapping it stands
  for. *)
Section js_object.
Context {V : Type}.

Fixpoint obj_get (key : string) (o : list (string * V)) : option V :=
  match o with
  | [] => None
  | (k, v) :: o' => if decide (k = key) then Some v else obj_get key o'
  end.

Fixpoint obj_set (key : string) (v : V) (o : list (string * V)) : list (string * V) :=
  match o with
  | [] => [(key, v)]
  | (k, w) :: o' =>
      if decide (k = key) then (k, v) :: o' else (k, w) :: obj_set key v o'
  end.

Definition Object_keys (o : list (string * V)) : list string := fst <$> o.
Definition Object_values (o : list (string * V)) : list V := snd <$> o.

(** [o[key] = v] on an object literal.  Under the name [__proto__] the
  assignment goes to the setter inherited from [Object.prototype], which
  creates no property (and ignores a value that is not an object); under
  any other name, inherited or not, the object gets an own property. *)
Definition obj_assign (key : string) (v : V) (o : list (string * V)) : list (string * V) :=
  if decide (key = "__proto__") then o else obj_set key v o.
End js_object.

(** The functions an object literal inherits from [Object.prototype];
  together with the accessor [__proto__] they are all it inherits. *)
Definition Object_prototype_functions : list string :=
  ["constructor"; "__defineGetter__"; "__defineSetter__"; "hasOwnProperty";
   "__lookupGetter__"; "__lookupSetter__"; "isPrototypeOf"; "propertyIsEnumerable";
   "toString"; "valueOf"; "toLocaleString"].

(** What a property of the dictionary of [batchInsertTotalMetrics] can
  hold: a number, or the string that [+=] builds when the value it starts
  from is not a number. *)
Inductive total_value :=
| Number (n : Z)
| NotNumber.

(** What reading [o[key]] finds: the own property if there is one, otherwise
  what [Object.prototype] has under that name, otherwise undefined. *)
Inductive property :=
| Own (v : total_value)
| InheritedFunction
| InheritedObject
| Undefined.

Definition obj_read (key : string) (o : list (string * total_value)) : property :=
  match obj_get key o with
  | Some v => Own v
  | None =>
      if decide (key ∈ Object_prototype_functions) then InheritedFunction
      else if decide (key = "__proto__") then InheritedObject
      else Undefined
  end.

(** [value + n] for a number [n]: two numbers add; a string, a function
  or an object is joined with the digits of [n] into a string.  (For an
  undefined value the sum is NaN.) *)
Definition plus (value : property) (n : Z) : total_value :=
  match value with
  | Own (Number v) => Number (v + n)
  | _ => NotNumber
  end.

(** ** Tables with a primary key *)

Section table.
Context {R K : Type} `{EqDecision K} (pk : R -> K).

(** [where pk = k, first()] *)
Fixpoint lookup_pk (k : K) (t : list R) : option R :=
  match t with
  | [] => None
  | r :: t' => if decide (pk r = k) then Some r else lookup_pk k t'
  end.

(** [where pk = k, del()] *)
Definition delete_pk (k : K) (t : list R) : list R :=
  filter (fun r => pk r <> k) t.

(** [on_conflict r x] is the row left by [DO UPDATE SET ...] when the
    proposed row [x] meets the stored row [r]. *)
Variable on_conflict : R -> R -> R.

(** One proposed row of [INSERT ... ON CONFLICT (pk) DO UPDATE]. *)
Fixpoint upsert_row (x : R) (t : list R) : list R :=
  match t with
  | [] => [x]
  | r :: t' =>
      if decide (pk r = pk x) then on_conflict r x :: t'
      else r :: upsert_row x t'
  end.

(** The whole statement.  PostgreSQL refuses a statement whose proposed
    rows repeat a key ("ON CONFLICT DO UPDATE command cannot affect row a
    second time").  An insert of no rows is rendered by the query builder
    as the empty string, so that the ON CONFLICT clause is sent alone, which
    is a syntax error.  A refused statement changes nothing: [None]. *)
Definition insert_on_conflict (rows : list R) (t : list R) : option (list R) :=
  match rows with
  | [] => None
  | _ :: _ =>
      if decide (NoDup (pk <$> rows))
      then Some (foldl (fun t x => upsert_row x t) t rows)
      else None
  end.

(** The table invariant: at most one row per primary key. *)
Definition unique_pk (t : list R) : Prop := NoDup (pk <$> t).
End table.

(** ** Data of the store *)

(** [IClientMetricsEnv], one reported event.  [variants] is the optional
    mapping from variant name to count, as the list of its entries. *)
Module Metric.
Record t := mk {
  featureName : string;
  appName : string;
  environment : string;
  timestamp : Z;
  yes : Z;
  no : Z;
  variants : option (list (string * Z)) }.
End Metric.

(** [IClientMetricsEnvKey] *)
Module MetricKey.
Record t := mk {
  featureName : string;
  appName : string;
  environment : string;
  timestamp : Z }.
End MetricKey.

(** [IClientMetricsEnvVariant] *)
Module VariantMetric.
Record t := mk {
  featureName : string;
  appName : string;
  environment : string;
  timestamp : Z;
  variant : string;
  count : Z }.
End VariantMetric.

(** [ClientMetricsEnvTable], a row of [client_metrics_env]. *)
Module EnvRow.
Record t := mk {
  feature_name : string;
  app_name : string;
  environment : string;
  timestamp : Z;
  yes : Z;
  no : Z }.
End EnvRow.

(** [ClientMetricsEnvVariantTable], a row of [client_metrics_env_variants]. *)
Module VariantRow.
Record t := mk {
  feature_name : string;
  app_name : string;
  environment : string;
  timestamp : Z;
  variant : string;
  count : Z }.
End VariantRow.

(** A row of [client_metrics_total], where [total] is a number ([t]), and
    the object [batchInsertTotalMetrics] submits for one, where [total] is
    whatever the dictionary holds. *)
Module TotalRow.
Record row (V : Type) := mk {
  feature_name : string;
  environment : string;
  total : V }.
Arguments mk {V} feature_name environment total.
Arguments feature_name {V} r.
Arguments environment {V} r.
Arguments total {V} r.
Abbreviation t := (row Z).
End TotalRow.

(** A row of the left join read by [getMetricsForFeatureToggle]: the columns
    of [client_metrics_env] and, when a variant row matched, its [variant]
    and [count] (both NULL otherwise). *)
Module TokenRow.
Record t := mk {
  row : EnvRow.t;
  variant_count : option (string * Z) }.
End TokenRow.

#[global] Instance Metric_eq_dec : EqDecision Metric.t.
Proof. solve_decision. Defined.
#[global] Instance EnvRow_eq_dec : EqDecision EnvRow.t.
Proof. solve_decision. Defined.
#[global] Instance VariantRow_eq_dec : EqDecision VariantRow.t.
Proof. solve_decision. Defined.
#[global] Instance total_value_eq_dec : EqDecision total_value.
Proof. solve_decision. Defined.
#[global] Instance TotalRow_eq_dec {V} `{EqDecision V} : EqDecision (TotalRow.row V).
Proof. solve_decision. Defined.

(** The events the ingestion boundary lets through: counts are not
    negative. *)
Definition valid_metric (m : Metric.t) : Prop :=
  0 <= Metric.yes m /\ 0 <= Metric.no m /\
  match Metric.variants m with
  | None => True
  | Some vs => Forall (fun vc => 0 <= vc.2) vs
  end.

(** Primary keys, as the ON CONFLICT clauses list them. *)
Definition env_pk (r : EnvRow.t) : string * string * string * Z :=
  (EnvRow.feature_name r, EnvRow.app_name r, EnvRow.environment r, EnvRow.timestamp r).

Definition variant_pk (r : VariantRow.t) : string * string * string * Z * string :=
  (VariantRow.feature_name r, VariantRow.app_name r, VariantRow.environment r,
   VariantRow.timestamp r, VariantRow.variant r).

Definition total_pk {V} (r : TotalRow.row V) : string * string :=
  (TotalRow.feature_name r, TotalRow.environment r).

(** The DO UPDATE SET clauses: [stored + EXCLUDED]. *)
Definition env_on_conflict (r x : EnvRow.t) : EnvRow.t :=
  EnvRow.mk (EnvRow.feature_name r) (EnvRow.app_name r) (EnvRow.environment r)
    (EnvRow.timestamp r) (EnvRow.yes r + EnvRow.yes x) (EnvRow.no r + EnvRow.no x).

Definition variant_on_conflict (r x : VariantRow.t) : VariantRow.t :=
  VariantRow.mk (VariantRow.feature_name r) (VariantRow.app_name r)
    (VariantRow.environment r) (VariantRow.timestamp r) (VariantRow.variant r)
    (VariantRow.count r + VariantRow.count x).

Definition total_on_conflict (r x : TotalRow.t) : TotalRow.t :=
  TotalRow.mk (TotalRow.feature_name r) (TotalRow.environment r)
    (TotalRow.total r + TotalRow.total x).

Definition fromRow (row : EnvRow.t) : Metric.t :=
  Metric.mk (EnvRow.feature_name row) (EnvRow.app_name row) (EnvRow.environment row)
    (EnvRow.timestamp row) (EnvRow.yes row) (EnvRow.no row) None.

Definition toRow (metric : Metric.t) : EnvRow.t :=
  EnvRow.mk (Metric.featureName metric) (Metric.appName metric)
    (Metric.environment metric) (startOfHour (Metric.timestamp metric))
    (Metric.yes metric) (Metric.no metric).

Definition toVariantRow (metric : VariantMetric.t) : VariantRow.t :=
  VariantRow.mk (VariantMetric.featureName metric) (VariantMetric.appName metric)
    (VariantMetric.environment metric) (startOfHour (VariantMetric.timestamp metric))
    (VariantMetric.variant metric) (VariantMetric.count metric).

(** ** Compaction and variant spreading *)

(** The bucket of an event: its key after the timestamp is floored to
    its hour. *)
Definition metric_bucket (m : Metric.t) : string * string * string * Z :=
  (Metric.featureName m, Metric.appName m, Metric.environment m,
   startOfHour (Metric.timestamp m)).

Definition variant_bucket (v : VariantMetric.t) : string * string * string * Z * string :=
  (VariantMetric.featureName v, VariantMetric.appName v, VariantMetric.environment v,
   startOfHour (VariantMetric.timestamp v), VariantMetric.variant v).

Definition hourly (m : Metric.t) : Metric.t :=
  Metric.mk (Metric.featureName m) (Metric.appName m) (Metric.environment m)
    (startOfHour (Metric.timestamp m)) (Metric.yes m) (Metric.no m) (Metric.variants m).

Definition add_yes_no (acc m : Metric.t) : Metric.t :=
  Metric.mk (Metric.featureName acc) (Metric.appName acc) (Metric.environment acc)
    (Metric.timestamp acc) (Metric.yes acc + Metric.yes m) (Metric.no acc + Metric.no m)
    (Metric.variants acc).

(** Modelled from the spec: [collapseHourlyMetrics] lives in
    util/collapseHourlyMetrics, which is not among the sources.  The spec
    (4.1): the output holds every (featureName, appName, environment,
    hourTimestamp) tuple at most once, with yes and no summed over all events
    that share the tuple once their timestamps are floored to the hour; the
    input is not changed and the output order is free.  Here buckets come out
    in the order of their first event, and a bucket keeps the variants of
    that first event (the spec fixes only yes and no, and [toRow] reads
    nothing else). *)
Definition collapseHourlyMetrics (metrics : list Metric.t) : list Metric.t :=
  foldl (fun acc m => upsert_row metric_bucket add_yes_no (hourly m) acc) [] metrics.

Definition variant_entries (m : Metric.t) : list VariantMetric.t :=
  match Metric.variants m with
  | None => []
  | Some vs =>
      (fun vc => VariantMetric.mk (Metric.featureName m) (Metric.appName m)
                   (Metric.environment m) (startOfHour (Metric.timestamp m)) vc.1 vc.2) <$> vs
  end.

Definition add_count (acc v : VariantMetric.t) : VariantMetric.t :=
  VariantMetric.mk (VariantMetric.featureName acc) (VariantMetric.appName acc)
    (VariantMetric.environment acc) (VariantMetric.timestamp acc)
    (VariantMetric.variant acc) (VariantMetric.count acc + VariantMetric.count v).

(** Modelled from the spec: [spreadVariants] lives in
    util/collapseHourlyMetrics, which is not among the sources.  The spec
    (4.2): one output row per (featureName, appName, environment,
    hourTimestamp, variantName), its count the sum of that variant's
    occurrences over all the raw input events that share the tuple; events
    with an empty or absent variants mapping contribute no rows.  Rows come
    out in the order of their first occurrence. *)
Definition spreadVariants (metrics : list Metric.t) : list VariantMetric.t :=
  foldl (fun acc v => upsert_row variant_bucket add_count v acc) []
    (metrics ≫= variant_entries).

(** ** The database session *)

Record Db := mkDb {
  client_metrics_env : list EnvRow.t;
  client_metrics_env_variants : list VariantRow.t;
  client_metrics_total : list TotalRow.t }.

(** The statements the store sends. *)
Inductive query :=
| InsertMetrics (rows : list EnvRow.t)
| InsertVariants (rows : list VariantRow.t)
| InsertTotals (rows : list (TotalRow.row total_value))
| DeleteMetric (k : string * string * string * Z)
| DeleteAllMetrics
| DeleteMetricsUpTo (hoursAgo : Z).

(** [timestamp <= NOW() - INTERVAL 'h hours'] and
    [timestamp >= NOW() - INTERVAL 'h hours'] *)
Definition at_or_before (now hours ts : Z) : Prop := ts <= now - hours * msPerHour.
Definition at_or_after (now hours ts : Z) : Prop := ts >= now - hours * msPerHour.

#[global] Instance at_or_before_dec now hours ts : Decision (at_or_before now hours ts).
Proof. unfold at_or_before. apply _. Defined.
#[global] Instance at_or_after_dec now hours ts : Decision (at_or_after now hours ts).
Proof. unfold at_or_after. apply _. Defined.

(** The row the database reads from a submitted object of totals: the
    column takes numbers only. *)
Definition numericTotal (x : TotalRow.row total_value) : option TotalRow.t :=
  match TotalRow.total x with
  | Number n => Some (TotalRow.mk (TotalRow.feature_name x) (TotalRow.environment x) n)
  | NotNumber => None
  end.

(** What the database does with a statement at time [now]; [None] when it
    rejects the statement. *)
Definition run_query (now : Z) (q : query) (d : Db) : option Db :=
  match q with
  | InsertMetrics rows =>
      t ← insert_on_conflict env_pk env_on_conflict rows (client_metrics_env d);
      Some (mkDb t (client_metrics_env_variants d) (client_metrics_total d))
  | InsertVariants rows =>
      t ← insert_on_conflict variant_pk variant_on_conflict rows (client_metrics_env_variants d);
      Some (mkDb (client_metrics_env d) t (client_metrics_total d))
  | InsertTotals rows =>
      rows ← mapM numericTotal rows;
      t ← insert_on_conflict total_pk total_on_conflict rows (client_metrics_total d);
      Some (mkDb (client_metrics_env d) (client_metrics_env_variants d) t)
  | DeleteMetric k =>
      Some (mkDb (delete_pk env_pk k (client_metrics_env d))
              (client_metrics_env_variants d) (client_metrics_total d))
  | DeleteAllMetrics =>
      Some (mkDb [] (client_metrics_env_variants d) (client_metrics_total d))
  | DeleteMetricsUpTo hoursAgo =>
      Some (mkDb (filter (fun r => ~ at_or_before now hoursAgo (EnvRow.timestamp r))
                    (client_metrics_env d))
              (client_metrics_env_variants d) (client_metrics_total d))
  end.

Inductive error := NotFoundError | StoreError.

Inductive result (A : Type) :=
| Ok (a : A)
| Err (e : error).
Arguments Ok {A} a.
Arguments Err {A} e.

(** A session: the tables, the database clock read by [NOW()], and the
    statements sent so far, oldest first. *)
Record Session := mkSession {
  tables : Db;
  clock : Z;
  sent : list query }.

(** An async method of the store. *)
Definition Store (A : Type) : Type := Session -> result A * Session.

Definition ret {A} (a : A) : Store A := fun s => (Ok a, s).

Definition bind {A B} (c : Store A) (k : A -> Store B) : Store B :=
  fun s =>
    match c s with
    | (Ok a, s') => k a s'
    | (Err e, s') => (Err e, s')
    end.

#[global] Instance Store_ret : MRet Store := @ret.
#[global] Instance Store_bind : MBind Store := fun A B k c => bind c k.

(** [await this.db.raw(query)] and the awaited query-builder calls. *)
Definition raw (q : query) : Store unit :=
  fun s =>
    match run_query (clock s) q (tables s) with
    | Some d => (Ok tt, mkSession d (clock s) (sent s ++ [q]))
    | None => (Err StoreError, mkSession (tables s) (clock s) (sent s ++ [q]))
    end.

(** [!metrics || metrics.length == 0]; [None] stands for null and
    undefined. *)
Definition blank {A} (metrics : option (list A)) : bool :=
  match metrics with
  | None => true
  | Some l => bool_decide (length l = 0%nat)
  end.

(** ** The store *)

Section store.
(** [String.prototype.localeCompare], the rendering of a [Date] inside a
    template literal, and the collation of the database's ORDER BY depend on
    the host; the store is embedded over them. *)
Variable localeCompare : string -> string -> Z.
Variable showDate : Z -> string.
Variable collate : string -> string -> Z.

(** A counter inside a template literal. *)
Definition showNumber (n : Z) : string := pretty n.

(** [acc] is read as the list of its own properties: every [key] holds at
    least five underscores, which no inherited property name does. *)
Definition variantRowReducer (acc : list (string * Metric.t)) (tokenRow : TokenRow.t)
  : list (string * Metric.t) :=
  let featureName := EnvRow.feature_name (TokenRow.row tokenRow) in
  let appName := EnvRow.app_name (TokenRow.row tokenRow) in
  let environment := EnvRow.environment (TokenRow.row tokenRow) in
  let timestamp := EnvRow.timestamp (TokenRow.row tokenRow) in
  let yes := EnvRow.yes (TokenRow.row tokenRow) in
  let no := EnvRow.no (TokenRow.row tokenRow) in
  let key := featureName +:+ "_" +:+ appName +:+ "_" +:+ environment +:+ "_"
             +:+ showDate timestamp +:+ "_" +:+ showNumber yes +:+ "_" +:+ showNumber no in
  let acc1 :=
    match obj_get key acc with
    | None => obj_set key (Metric.mk featureName appName environment timestamp yes no (Some [])) acc
    | Some _ => acc
    end in
  match TokenRow.variant_count tokenRow, obj_get key acc1 with
  | Some (variant, count), Some token =>
      if decide (variant = "") then acc1
      else obj_set key
             (Metric.mk (Metric.featureName token) (Metric.appName token)
                (Metric.environment token) (Metric.timestamp token) (Metric.yes token)
                (Metric.no token)
                (Some (obj_assign variant count (default [] (Metric.variants token))))) acc1
  | _, _ => acc1
  end.

Definition get (key : MetricKey.t) (d : Db) : result Metric.t :=
  match lookup_pk env_pk
          (MetricKey.featureName key, MetricKey.appName key, MetricKey.environment key,
           startOfHour (MetricKey.timestamp key)) (client_metrics_env d) with
  | Some row => Ok (fromRow row)
  | None => Err NotFoundError
  end.

Definition exists_ (key : MetricKey.t) (d : Db) : bool :=
  match get key d with
  | Ok _ => true
  | Err _ => false
  end.

Definition delete (key : MetricKey.t) : Store unit :=
  raw (DeleteMetric (MetricKey.featureName key, MetricKey.appName key,
                     MetricKey.environment key, startOfHour (MetricKey.timestamp key))).

Definition deleteAll : Store unit := raw DeleteAllMetrics.

Definition compareRows (a b : EnvRow.t) : Z :=
  localeCompare (EnvRow.feature_name a) (EnvRow.feature_name b) `or`
  localeCompare (EnvRow.app_name a) (EnvRow.app_name b) `or`
  localeCompare (EnvRow.environment a) (EnvRow.environment b).

Definition compareVariantRows (a b : VariantRow.t) : Z :=
  localeCompare (VariantRow.feature_name a) (VariantRow.feature_name b) `or`
  localeCompare (VariantRow.app_name a) (VariantRow.app_name b) `or`
  localeCompare (VariantRow.environment a) (VariantRow.environment b) `or`
  localeCompare (VariantRow.variant a) (VariantRow.variant b).

Definition compareTotalRows {V} (a b : TotalRow.row V) : Z :=
  localeCompare (TotalRow.feature_name a) (TotalRow.feature_name b) `or`
  localeCompare (TotalRow.environment a) (TotalRow.environment b).

Definition sortedRows (metrics : list Metric.t) : list EnvRow.t :=
  sort compareRows (toRow <$> collapseHourlyMetrics metrics).

Definition sortedVariantRows (metrics : list Metric.t) : list VariantRow.t :=
  sort compareVariantRows (toVariantRow <$> spreadVariants metrics).

Definition batchInsertMetrics (metrics : option (list Metric.t)) : Store unit :=
  if blank metrics then ret tt
  else
    let metrics := default [] metrics in
    raw (InsertMetrics (sortedRows metrics)) ;;
    if decide (0 < length (sortedVariantRows metrics))%nat
    then raw (InsertVariants (sortedVariantRows metrics))
    else ret tt.

(** The loop body of [batchInsertTotalMetrics].  [aggregatedMetrics] starts
    as [{}]: under the name of an inherited property the test
    [=== undefined] fails although the object has no such property of its
    own, and [+=] starts from the inherited value. *)
Definition aggregate (aggregatedMetrics : list (string * total_value)) (metric : Metric.t)
  : list (string * total_value) :=
  let key := Metric.featureName metric +:+ "_" +:+ Metric.environment metric in
  let aggregatedMetrics :=
    match obj_read key aggregatedMetrics with
    | Undefined => obj_assign key (Number 0) aggregatedMetrics
    | _ => aggregatedMetrics
    end in
  obj_assign key (plus (obj_read key aggregatedMetrics) (Metric.yes metric + Metric.no metric))
    aggregatedMetrics.

(** [const [featureName, environment] = key.split('_')]; a missing second
    part would be undefined, which no key built by [aggregate] produces.
    [key] comes from [Object.keys], so [aggregatedMetrics[key]] is an own
    property. *)
Definition totalRow (aggregatedMetrics : list (string * total_value)) (key : string)
  : TotalRow.row total_value :=
  let parts := split "_" key in
  TotalRow.mk (nth 0 parts "") (nth 1 parts "")
    (default NotNumber (obj_get key aggregatedMetrics)).

Definition sortedTotalRows (metrics : list Metric.t) : list (TotalRow.row total_value) :=
  let aggregatedMetrics := foldl aggregate [] metrics in
  sort compareTotalRows (totalRow aggregatedMetrics <$> Object_keys aggregatedMetrics).

Definition batchInsertTotalMetrics (metrics : option (list Metric.t)) : Store unit :=
  if blank metrics then ret tt
  else raw (InsertTotals (sortedTotalRows (default [] metrics))).

(** The LEFT JOIN of [client_metrics_env] with [client_metrics_env_variants]
    on feature, app, environment and timestamp. *)
Definition joins (r : EnvRow.t) (v : VariantRow.t) : Prop :=
  VariantRow.feature_name v = EnvRow.feature_name r /\
  VariantRow.app_name v = EnvRow.app_name r /\
  VariantRow.environment v = EnvRow.environment r /\
  VariantRow.timestamp v = EnvRow.timestamp r.

#[global] Instance joins_dec r v : Decision (joins r v).
Proof. unfold joins. apply _. Defined.

Definition leftJoin (rows : list EnvRow.t) (variantRows : list VariantRow.t) : list TokenRow.t :=
  rows ≫= fun r =>
    match filter (joins r) variantRows with
    | [] => [TokenRow.mk r None]
    | vs => (fun v => TokenRow.mk r (Some (VariantRow.variant v, VariantRow.count v))) <$> vs
    end.

Definition metricsTokens (now : Z) (featureName : string) (hoursBack : Z) (d : Db)
  : list (string * Metric.t) :=
  let rows :=
    leftJoin
      (filter (fun r => EnvRow.feature_name r = featureName /\
                        at_or_after now hoursBack (EnvRow.timestamp r))
         (client_metrics_env d))
      (client_metrics_env_variants d) in
  foldl variantRowReducer [] rows.

Definition getMetricsForFeatureToggle (now : Z) (featureName : string) (hoursBack : Z) (d : Db)
  : list Metric.t :=
  Object_values (metricsTokens now featureName hoursBack d).

Definition getTotalCountForToggle (featureName : string) (d : Db) : list (string * Z) :=
  (fun row => (TotalRow.environment row, TotalRow.total row)) <$>
  filter (fun row => TotalRow.feature_name row = featureName) (client_metrics_total d).

(** [distinct().where(...).andWhereRaw(...).pluck(column).orderBy(column)] *)
Definition getSeenAppsForFeatureToggle (now : Z) (featureName : string) (hoursBack : Z) (d : Db)
  : list string :=
  sort collate
    (remove_dups
       (EnvRow.app_name <$>
        filter (fun r => EnvRow.feature_name r = featureName /\
                         at_or_after now hoursBack (EnvRow.timestamp r))
          (client_metrics_env d))).

Definition getSeenTogglesForApp (now : Z) (appName : string) (hoursBack : Z) (d : Db)
  : list string :=
  sort collate
    (remove_dups
       (EnvRow.feature_name <$>
        filter (fun r => EnvRow.app_name r = appName /\
                         at_or_after now hoursBack (EnvRow.timestamp r))
          (client_metrics_env d))).

Definition clearMetrics (hoursAgo : Z) : Store unit := raw (DeleteMetricsUpTo hoursAgo).

End store.

(** ** Vocabulary of the properties *)

Section table_properties.
Context {R K : Type} `{EqDecision K} (pk : R -> K) (on_conflict : R -> R -> R).

(** The value of counter [c] at key [k]; a missing row counts for zero. *)
Definition counter_at (c : R -> Z) (k : K) (t : list R) : Z :=
  from_option c 0 (lookup_pk pk k t).

(** What the rows of a batch add to counter [c] at key [k]. *)
Definition batch_sum (c : R -> Z) (k : K) (rows : list R) : Z :=
  foldr Z.add 0 (c <$> filter (fun x => pk x = k) rows).

(** Insert-or-accumulate: [t'] is [t] where every row of the batch was
    inserted if its key was free, and otherwise merged into the stored row
    by the conflict clause; all other keys are as they were. *)
Definition accumulated (rows t t' : list R) : Prop :=
  (forall x, x ∈ rows ->
     lookup_pk pk (pk x) t' =
     Some (match lookup_pk pk (pk x) t with
           | None => x
           | Some r => on_conflict r x
           end)) /\
  (forall k, k ∉ pk <$> rows -> lookup_pk pk k t' = lookup_pk pk k t).

(** [t1] is [t] after one insertion of a batch and [t2] after two: the
    second insertion creates no row, and counter [c] moved twice as far. *)
Definition doubled (c : R -> Z) (t t1 t2 : list R) : Prop :=
  pk <$> t2 = pk <$> t1 /\
  forall k, counter_at c k t2 - counter_at c k t = 2 * (counter_at c k t1 - counter_at c k t).

(** Every row of [t] is still in [t'], with counter [c] no smaller. *)
Definition grows (c : R -> Z) (t t' : list R) : Prop :=
  forall k r, lookup_pk pk k t = Some r ->
    exists r', lookup_pk pk k t' = Some r' /\ c r <= c r'.
End table_properties.

(** A consistent comparator, as [Array.prototype.sort] requires. *)
Definition consistent {A : Type} (compareFn : A -> A -> Z) : Prop :=
  (forall a b, compareFn a b < 0 <-> 0 < compareFn b a) /\
  (forall a b c, compareFn a b <= 0 -> compareFn b c <= 0 -> compareFn a c <= 0).

Definition sorted_by {A : Type} (compareFn : A -> A -> Z) (l : list A) : Prop :=
  StronglySorted (fun a b => compareFn a b <= 0) l.

(** The order of the full primary-key tuples: the comparators of the store
    with the timestamp column in its place. *)
Definition compareEnvPk (localeCompare : string -> string -> Z) (a b : EnvRow.t) : Z :=
  localeCompare (EnvRow.feature_name a) (EnvRow.feature_name b) `or`
  localeCompare (EnvRow.app_name a) (EnvRow.app_name b) `or`
  localeCompare (EnvRow.environment a) (EnvRow.environment b) `or`
  (EnvRow.timestamp a - EnvRow.timestamp b).

Definition compareVariantPk (localeCompare : string -> string -> Z) (a b : VariantRow.t) : Z :=
  localeCompare (VariantRow.feature_name a) (VariantRow.feature_name b) `or`
  localeCompare (VariantRow.app_name a) (VariantRow.app_name b) `or`
  localeCompare (VariantRow.environment a) (VariantRow.environment b) `or`
  (VariantRow.timestamp a - VariantRow.timestamp b) `or`
  localeCompare (VariantRow.variant a) (VariantRow.variant b).

(** Comparison of strings by character code, a consistent comparator that
    agrees with [localeCompare] on equal strings and on lower-case ASCII
    letters. *)
Definition codeCompare (a b : string) : Z :=
  match OrdersEx.String_as_OT.compare a b with
  | Lt => -1
  | Eq => 0
  | Gt => 1
  end.

(** A rendering of dates for the examples. *)
Definition epochString (t : Z) : string := pretty t.

(** The property name under which [batchInsertTotalMetrics] aggregates an
    event, and what the event adds there. *)
Definition totalKey (metric : Metric.t) : string :=
  Metric.featureName metric +:+ "_" +:+ Metric.environment metric.

Definition totalEntry (metric : Metric.t) : string * Z :=
  (totalKey metric, Metric.yes metric + Metric.no metric).

Definition add_entry (stored entry : string * Z) : string * Z :=
  (stored.1, stored.2 + entry.2).

(** A name under which an object literal inherits nothing. *)
Definition ordinary_key (key : string) : Prop :=
  (key ∉ Object_prototype_functions) /\ key <> "__proto__".

#[global] Instance ordinary_key_dec key : Decision (ordinary_key key).
Proof. unfold ordinary_key. apply _. Defined.

(** A dictionary of numbers, as the dictionary of the loop. *)
Definition numbers (o : list (string * Z)) : list (string * total_value) :=
  (fun kv => (kv.1, Number kv.2)) <$> o.

(** The number in a submitted total, and the row stored for a submitted
    object whose total is a number. *)
Definition number_of (v : total_value) : Z :=
  match v with
  | Number n => n
  | NotNumber => 0
  end.

Definition numericRow (x : TotalRow.row total_value) : TotalRow.t :=
  TotalRow.mk (TotalRow.feature_name x) (TotalRow.environment x) (number_of (TotalRow.total x)).

(** Occurrences of a character in a string. *)
Fixpoint count_char (c : ascii) (s : string) : nat :=
  match s with
  | EmptyString => 0%nat
  | String c' s' => ((if decide (c' = c) then 1 else 0) + count_char c s')%nat
  end.

(** Names without the separator of the string keys. *)
Fixpoint has_char (c : ascii) (s : string) : bool :=
  match s with
  | EmptyString => false
  | String c' s' => bool_decide (c' = c) || has_char c s'
  end.

Definition plain_name (s : string) : Prop := has_char "_" s = false.

Definition plain_metric (m : Metric.t) : Prop :=
  plain_name (Metric.featureName m) /\ plain_name (Metric.environment m).

Definition feature_environment (m : Metric.t) : string * string :=
  (Metric.featureName m, Metric.environment m).

(** The property name under which [variantRowReducer] files a row. *)
Definition tokenKey (showDate : Z -> string) (r : EnvRow.t) : string :=
  EnvRow.feature_name r +:+ "_" +:+ EnvRow.app_name r +:+ "_" +:+ EnvRow.environment r +:+ "_"
  +:+ showDate (EnvRow.timestamp r) +:+ "_" +:+ showNumber (EnvRow.yes r) +:+ "_"
  +:+ showNumber (EnvRow.no r).

(** The state-changing methods of the store. *)
Inductive batch_write :=
| BatchInsertMetrics (metrics : option (list Metric.t))
| BatchInsertTotalMetrics (metrics : option (list Metric.t)).

Inductive operation :=
| Write (w : batch_write)
| Delete (key : MetricKey.t)
| DeleteAll
| ClearMetrics (hoursAgo : Z).

Definition run_write (localeCompare : string -> string -> Z) (w : batch_write) : Store unit :=
  match w with
  | BatchInsertMetrics metrics => batchInsertMetrics localeCompare metrics
  | BatchInsertTotalMetrics metrics => batchInsertTotalMetrics localeCompare metrics
  end.

Definition run_operation (localeCompare : string -> string -> Z) (op : operation) : Store unit :=
  match op with
  | Write w => run_write localeCompare w
  | Delete key => delete key
  | DeleteAll => deleteAll
  | ClearMetrics hoursAgo => clearMetrics hoursAgo
  end.

(** The session after a method has settled, whether it resolved or
    rejected. *)
Definition after {A} (c : Store A) (s : Session) : Session := (c s).2.

Definition valid_write (w : batch_write) : Prop :=
  match w with
  | BatchInsertMetrics metrics | BatchInsertTotalMetrics metrics =>
      Forall valid_metric (default [] metrics)
  end.

Definition db_unique (d : Db) : Prop :=
  unique_pk env_pk (client_metrics_env d) /\
  unique_pk variant_pk (client_metrics_env_variants d) /\
  unique_pk total_pk (client_metrics_total d).

Definition db_grows (d d' : Db) : Prop :=
  grows env_pk EnvRow.yes (client_metrics_env d) (client_metrics_env d') /\
  grows env_pk EnvRow.no (client_metrics_env d) (client_metrics_env d') /\
  grows variant_pk VariantRow.count (client_metrics_env_variants d) (client_metrics_env_variants d') /\
  grows total_pk TotalRow.total (client_metrics_total d) (client_metrics_total d').

(** The statements [batchInsertMetrics] sends for a batch that is not
    blank. *)
Definition metricsQueries (localeCompare : string -> string -> Z) (metrics : list Metric.t)
  : list query :=
  InsertMetrics (sortedRows localeCompare metrics) ::
  if decide (0 < length (sortedVariantRows localeCompare metrics))%nat
  then [InsertVariants (sortedVariantRows localeCompare metrics)]
  else [].

Definition fresh (now : Z) : Session := mkSession (mkDb [] [] []) now [].

(** ** The rest of the store *)

(** The [query] object of [getAll]: for each column of
    [client_metrics_env], the value the column must equal, if the object has
    that property.  [where(query)] is the conjunction of these equalities;
    the default [{}] constrains nothing. *)
Module MetricQuery.
Record t := mk {
  feature_name : option string;
  app_name : option string;
  environment : option string;
  timestamp : option Z;
  yes : option Z;
  no : option Z }.
End MetricQuery.

Definition column_is {A} (constraint : option A) (value : A) : Prop :=
  match constraint with
  | None => True
  | Some v => value = v
  end.

#[global] Instance column_is_dec {A} `{EqDecision A} (constraint : option A) (value : A) :
  Decision (column_is constraint value).
Proof. destruct constraint; simpl; apply _. Defined.

Definition where_ (query : MetricQuery.t) (row : EnvRow.t) : Prop :=
  column_is (MetricQuery.feature_name query) (EnvRow.feature_name row) /\
  column_is (MetricQuery.app_name query) (EnvRow.app_name row) /\
  column_is (MetricQuery.environment query) (EnvRow.environment row) /\
  column_is (MetricQuery.timestamp query) (EnvRow.timestamp row) /\
  column_is (MetricQuery.yes query) (EnvRow.yes row) /\
  column_is (MetricQuery.no query) (EnvRow.no row).

#[global] Instance where_dec query row : Decision (where_ query row).
Proof. unfold where_. apply _. Defined.

Definition getAll (query : MetricQuery.t) (d : Db) : list Metric.t :=
  fromRow <$> filter (where_ query) (client_metrics_env d).

(** [{}] *)
Definition emptyQuery : MetricQuery.t := MetricQuery.mk None None None None None None.

(** ** More vocabulary *)

(** The key of a stored row and of an event, as a caller passes it to
    [get], [exists] and [delete]. *)
Definition keyOfRow (r : EnvRow.t) : MetricKey.t :=
  MetricKey.mk (EnvRow.feature_name r) (EnvRow.app_name r) (EnvRow.environment r)
    (EnvRow.timestamp r).

Definition keyOfMetric (m : Metric.t) : MetricKey.t :=
  MetricKey.mk (Metric.featureName m) (Metric.appName m) (Metric.environment m)
    (Metric.timestamp m).

(** The primary key a [MetricKey] is looked up under. *)
Definition lookupKey (key : MetricKey.t) : string * string * string * Z :=
  (MetricKey.featureName key, MetricKey.appName key, MetricKey.environment key,
   startOfHour (MetricKey.timestamp key)).

(** The [where] object of [get] and [delete], as a [getAll] query. *)
Definition whereOfKey (key : MetricKey.t) : MetricQuery.t :=
  MetricQuery.mk (Some (MetricKey.featureName key)) (Some (MetricKey.appName key))
    (Some (MetricKey.environment key)) (Some (startOfHour (MetricKey.timestamp key)))
    None None.

(** Timestamps on an hour boundary. *)
Definition on_the_hour (t : Z) : Prop := t mod msPerHour = 0.

Definition db_on_the_hour (d : Db) : Prop :=
  Forall (fun r => on_the_hour (EnvRow.timestamp r)) (client_metrics_env d) /\
  Forall (fun r => on_the_hour (VariantRow.timestamp r)) (client_metrics_env_variants d).

(** The hourly rows a windowed read of a feature selects. *)
Definition windowRows (now : Z) (featureName : string) (hoursBack : Z) (d : Db) : list EnvRow.t :=
  filter (fun r => EnvRow.feature_name r = featureName /\
                   at_or_after now hoursBack (EnvRow.timestamp r))
    (client_metrics_env d).

(** A variant name that gets an entry in a variants mapping: not the empty
    string, which [if (variant)] skips, and not [__proto__], under which an
    assignment creates no property. *)
Definition kept_name (variant : string) : Prop := variant <> "" /\ variant <> "__proto__".

#[global] Instance kept_name_dec variant : Decision (kept_name variant).
Proof. unfold kept_name. apply _. Defined.

(** The variants of a record: name and count of its variant rows, for the
    names that get an entry. *)
Definition recordVariants (variantRows : list VariantRow.t) (r : EnvRow.t) : list (string * Z) :=
  (fun v => (VariantRow.variant v, VariantRow.count v)) <$>
  filter (fun v => kept_name (VariantRow.variant v)) (filter (joins r) variantRows).

(** The logical object of a record. *)
Definition recordToken (variantRows : list VariantRow.t) (r : EnvRow.t) : Metric.t :=
  Metric.mk (EnvRow.feature_name r) (EnvRow.app_name r) (EnvRow.environment r)
    (EnvRow.timestamp r) (EnvRow.yes r) (EnvRow.no r) (Some (recordVariants variantRows r)).

(** Sum of a list of numbers. *)
Definition sumZ (l : list Z) : Z := foldr Z.add 0 l.

(** [Number.MAX_SAFE_INTEGER]: up to it, whole numbers are added exactly. *)
Definition MAX_SAFE_INTEGER : Z := 9007199254740991.

(** The part of a string before its first underscore. *)
Fixpoint before_underscore (s : string) : string :=
  match s with
  | EmptyString => EmptyString
  | String c s' => if decide (c = "_"%char) then EmptyString else String c (before_underscore s')
  end.

(** * Properties *)

(** ** Dates *)

Lemma startOfHour_idemp t : startOfHour (startOfHour t) = startOfHour t.
Proof.
  unfold startOfHour, msPerHour.
  assert (Hfloor : t - t mod 3600000 = t / 3600000 * 3600000)
    by (pose proof (Z.div_mod t 3600000); lia).
  rewrite Hfloor, Z.mod_mul by lia. lia.
Qed.

Lemma startOfHour_contains t : startOfHour t <= t < startOfHour t + msPerHour.
Proof.
  unfold startOfHour, msPerHour.
  pose proof (Z.mod_pos_bound t 3600000). lia.
Qed.

Lemma startOfHour_aligned t : startOfHour t mod msPerHour = 0.
Proof.
  pose proof (startOfHour_idemp t) as Hidem. unfold startOfHour in *.
  set (h := t - t mod msPerHour) in *. lia.
Qed.

(** ** Tables *)

Section table_lemmas.
Context {R K : Type} `{EqDecision K} (pk : R -> K) (on_conflict : R -> R -> R).
Hypothesis on_conflict_pk : forall r x, pk (on_conflict r x) = pk r.

Local Abbreviation upsert := (upsert_row pk on_conflict).
Local Abbreviation upsert_all := (foldl (fun t x => upsert_row pk on_conflict x t)).

Lemma lookup_pk_Some k t r : lookup_pk pk k t = Some r -> r ∈ t /\ pk r = k.
Proof.
  induction t as [|y t IH]; simpl; [done|].
  case_decide.
  - intros [= ->]. split; [left | done].
  - intros Hr. destruct (IH Hr). split; [by right | done].
Qed.

Lemma lookup_pk_None k t : lookup_pk pk k t = None <-> k ∉ pk <$> t.
Proof.
  induction t as [|y t IH]; simpl.
  - split; [intros _; apply not_elem_of_nil | done].
  - case_decide; rewrite not_elem_of_cons.
    + split; [done | intros [Hne _]; destruct Hne; by symmetry].
    + rewrite IH. split; [intros ?; split; [by intros -> | done] | tauto].
Qed.

Lemma lookup_pk_unique k t r :
  unique_pk pk t -> r ∈ t -> pk r = k -> lookup_pk pk k t = Some r.
Proof.
  unfold unique_pk. induction t as [|y t IH]; simpl.
  - intros _ Hr. by apply elem_of_nil in Hr.
  - rewrite NoDup_cons. intros [Hy Ht] Hr Hk. apply elem_of_cons in Hr as [->|Hr].
    + by rewrite decide_True.
    + rewrite decide_False; [by apply IH|].
      intros Hyk. apply Hy. rewrite Hyk, <- Hk. by apply list_elem_of_fmap_2.
Qed.

Lemma lookup_upsert x k t :
  lookup_pk pk k (upsert x t) =
  if decide (pk x = k)
  then Some (match lookup_pk pk k t with None => x | Some r => on_conflict r x end)
  else lookup_pk pk k t.
Proof.
  induction t as [|y t IH]; simpl.
  - by repeat case_decide.
  - destruct (decide (pk y = pk x)) as [Hyx|Hyx]; simpl.
    + rewrite on_conflict_pk. repeat case_decide; congruence.
    + rewrite IH. repeat case_decide; congruence.
Qed.

Lemma keys_upsert x t :
  pk <$> upsert x t = if decide (pk x ∈ pk <$> t) then pk <$> t else (pk <$> t) ++ [pk x].
Proof.
  induction t as [|y t IH].
  - destruct (decide (pk x ∈ pk <$> [])) as [Hin|Hin]; [|done].
    by apply elem_of_nil in Hin.
  - cbn [upsert_row]. destruct (decide (pk y = pk x)) as [Hyx|Hyx].
    + rewrite !fmap_cons, on_conflict_pk, decide_True; [done | rewrite Hyx; left].
    + rewrite !fmap_cons, IH. destruct (decide (pk x ∈ pk <$> t)) as [Hin|Hin].
      * rewrite decide_True; [done | by right].
      * rewrite decide_False; [done|]. rewrite not_elem_of_cons. split; [by intros Heq; apply Hyx|done].
Qed.

Lemma unique_upsert x t : unique_pk pk t -> unique_pk pk (upsert x t).
Proof.
  unfold unique_pk. rewrite keys_upsert. case_decide; [done|].
  intros Ht. apply NoDup_app. split_and!; [done | | apply NoDup_singleton].
  intros k Hk Hx. apply list_elem_of_singleton in Hx. congruence.
Qed.

Lemma unique_upsert_all rows t : unique_pk pk t -> unique_pk pk (upsert_all t rows).
Proof.
  revert t. induction rows as [|x rows IH]; simpl; [done|].
  intros t Ht. apply IH. by apply unique_upsert.
Qed.

Lemma in_keys_upsert x t : pk x ∈ pk <$> upsert x t.
Proof.
  rewrite keys_upsert. case_decide; [done|]. apply elem_of_app. right. left.
Qed.

Lemma keys_upsert_mono x k t : k ∈ pk <$> t -> k ∈ pk <$> upsert x t.
Proof.
  rewrite keys_upsert. case_decide; [done|]. intros. apply elem_of_app. by left.
Qed.

Lemma keys_upsert_all_mono rows k t : k ∈ pk <$> t -> k ∈ pk <$> upsert_all t rows.
Proof.
  revert t. induction rows as [|x rows IH]; simpl; [done|].
  intros t Hk. apply IH. by apply keys_upsert_mono.
Qed.

Lemma in_keys_upsert_all rows x t : x ∈ rows -> pk x ∈ pk <$> upsert_all t rows.
Proof.
  revert t. induction rows as [|y rows IH]; simpl; intros t Hx.
  - by apply elem_of_nil in Hx.
  - apply elem_of_cons in Hx as [->|Hx]; [|by apply IH].
    apply keys_upsert_all_mono, in_keys_upsert.
Qed.

Lemma keys_upsert_all_inv rows k t :
  k ∈ pk <$> upsert_all t rows -> k ∈ pk <$> t \/ k ∈ pk <$> rows.
Proof.
  revert t. induction rows as [|x rows IH]; simpl; intros t Hk; [by left|].
  apply IH in Hk as [Hk|Hk]; [|right; by right].
  rewrite keys_upsert in Hk. case_decide; [by left|].
  apply elem_of_app in Hk as [Hk|Hk]; [by left|].
  apply list_elem_of_singleton in Hk as ->. right; left.
Qed.

Lemma keys_upsert_all_present rows t :
  (forall x, x ∈ rows -> pk x ∈ pk <$> t) -> pk <$> upsert_all t rows = pk <$> t.
Proof.
  revert t. induction rows as [|x rows IH]; simpl; intros t Hin; [done|].
  rewrite IH.
  - rewrite keys_upsert, decide_True; [done | apply Hin; left].
  - intros y Hy. apply keys_upsert_mono, Hin. by right.
Qed.

Lemma lookup_upsert_all_other rows k t :
  k ∉ pk <$> rows -> lookup_pk pk k (upsert_all t rows) = lookup_pk pk k t.
Proof.
  revert t. induction rows as [|x rows IH]; simpl; intros t Hk; [done|].
  apply not_elem_of_cons in Hk as [Hkx Hk].
  rewrite IH, lookup_upsert by done. by rewrite decide_False.
Qed.

Lemma lookup_upsert_all_batch rows x t :
  NoDup (pk <$> rows) -> x ∈ rows ->
  lookup_pk pk (pk x) (upsert_all t rows) =
  Some (match lookup_pk pk (pk x) t with None => x | Some r => on_conflict r x end).
Proof.
  revert t. induction rows as [|y rows IH]; simpl; intros t Hnd Hx.
  - by apply elem_of_nil in Hx.
  - apply NoDup_cons in Hnd as [Hy Hnd]. apply elem_of_cons in Hx as [->|Hx].
    + rewrite lookup_upsert_all_other, lookup_upsert by done. by rewrite decide_True.
    + rewrite IH, lookup_upsert by done. rewrite decide_False; [done|].
      intros Hyx. apply Hy. rewrite Hyx. by apply list_elem_of_fmap_2.
Qed.

Lemma accumulated_upsert_all rows t :
  NoDup (pk <$> rows) -> accumulated pk on_conflict rows t (upsert_all t rows).
Proof.
  intros Hnd. split.
  - intros x Hx. by apply lookup_upsert_all_batch.
  - intros k Hk. by apply lookup_upsert_all_other.
Qed.

Section counters.
Variable c : R -> Z.
Hypothesis on_conflict_adds : forall r x, c (on_conflict r x) = c r + c x.

Lemma counter_at_upsert x k t :
  counter_at pk c k (upsert x t) =
  counter_at pk c k t + (if decide (pk x = k) then c x else 0).
Proof.
  unfold counter_at. rewrite lookup_upsert. case_decide; [|lia].
  destruct (lookup_pk pk k t); simpl; [apply on_conflict_adds | lia].
Qed.

Lemma counter_at_upsert_all rows k t :
  counter_at pk c k (upsert_all t rows) = counter_at pk c k t + batch_sum pk c k rows.
Proof.
  revert t. induction rows as [|x rows IH]; simpl; intros t.
  - unfold batch_sum. rewrite filter_nil. simpl. lia.
  - rewrite IH, counter_at_upsert. unfold batch_sum. rewrite filter_cons.
    case_decide; rewrite ?fmap_cons; cbn [foldr]; lia.
Qed.

Lemma doubled_upsert_all rows t :
  doubled pk c t (upsert_all t rows) (upsert_all (upsert_all t rows) rows).
Proof.
  split.
  - apply keys_upsert_all_present. intros x Hx. by apply in_keys_upsert_all.
  - intros k. rewrite !counter_at_upsert_all. lia.
Qed.
End counters.

Section growth.
Variable c : R -> Z.

Lemma grows_refl t : grows pk c t t.
Proof. intros k r Hr. exists r. split; [done | lia]. Qed.

Lemma grows_trans t1 t2 t3 : grows pk c t1 t2 -> grows pk c t2 t3 -> grows pk c t1 t3.
Proof.
  intros H12 H23 k r Hr. destruct (H12 k r Hr) as (r2 & Hr2 & Hle2).
  destruct (H23 k r2 Hr2) as (r3 & Hr3 & Hle3). exists r3. split; [done | lia].
Qed.

Lemma grows_upsert x t : (forall r, c r <= c (on_conflict r x)) -> grows pk c t (upsert x t).
Proof.
  intros Hx k r Hr. rewrite lookup_upsert. case_decide.
  - rewrite Hr. eexists. split; [done | apply Hx].
  - exists r. split; [done | lia].
Qed.

Lemma grows_upsert_all rows t :
  Forall (fun x => forall r, c r <= c (on_conflict r x)) rows ->
  grows pk c t (upsert_all t rows).
Proof.
  revert t. induction rows as [|x rows IH]; simpl; intros t Hrows.
  - apply grows_refl.
  - apply Forall_cons in Hrows as [Hx Hrows].
    eapply grows_trans; [by apply grows_upsert | by apply IH].
Qed.
End growth.

Lemma upsert_all_nil_unique rows : unique_pk pk (upsert_all [] rows).
Proof. apply unique_upsert_all. unfold unique_pk. simpl. apply NoDup_nil_2. Qed.

Lemma unique_delete_pk k t : unique_pk pk t -> unique_pk pk (delete_pk pk k t).
Proof.
  unfold unique_pk, delete_pk. intros Ht.
  eapply sublist_NoDup; [exact Ht|]. apply fmap_sublist, sublist_filter.
Qed.
End table_lemmas.

(** ** Sorting *)

Section sort_lemmas.
Context {A : Type} (compareFn : A -> A -> Z).

Lemma sort_insert_perm x l : sort_insert compareFn x l ≡ₚ x :: l.
Proof.
  induction l as [|y l IH]; simpl; [done|].
  case_decide; [done|]. rewrite IH. apply Permutation_swap.
Qed.

Lemma sort_perm l : sort compareFn l ≡ₚ l.
Proof.
  induction l as [|x l IH]; simpl; [done|].
  rewrite sort_insert_perm. by f_equiv.
Qed.

Lemma elem_of_sort x l : x ∈ sort compareFn l <-> x ∈ l.
Proof. by rewrite sort_perm. Qed.

Lemma sort_fmap_perm {B} (f : A -> B) l : f <$> sort compareFn l ≡ₚ f <$> l.
Proof. by rewrite sort_perm. Qed.

Lemma sort_length l : length (sort compareFn l) = length l.
Proof. by rewrite sort_perm. Qed.

Lemma sort_singleton x : sort compareFn [x] = [x].
Proof. reflexivity. Qed.

Lemma sort_insert_sorted x l :
  consistent compareFn -> sorted_by compareFn l -> sorted_by compareFn (sort_insert compareFn x l).
Proof.
  intros [Hanti Htrans]. unfold sorted_by.
  induction l as [|y l IH]; simpl; intros Hl.
  - apply StronglySorted_cons. split; [apply Forall_nil_2 | apply SSorted_nil].
  - apply StronglySorted_cons in Hl as [Hy Hl]. case_decide as Hxy.
    + apply StronglySorted_cons. split; [|by apply StronglySorted_cons].
      apply Forall_cons. split; [done|].
      eapply Forall_impl; [exact Hy|]. intros z Hyz. by eapply Htrans.
    + apply StronglySorted_cons. split; [|by apply IH].
      rewrite sort_insert_perm. apply Forall_cons. split; [|done].
      assert (0 < compareFn x y) as Hgt by lia. apply Hanti in Hgt. lia.
Qed.

Lemma sort_sorted l : consistent compareFn -> sorted_by compareFn (sort compareFn l).
Proof.
  intros Hc. induction l as [|x l IH]; simpl.
  - apply SSorted_nil.
  - by apply sort_insert_sorted.
Qed.
End sort_lemmas.

(** ** Comparators *)

Lemma consistent_refl {A} (compareFn : A -> A -> Z) a :
  consistent compareFn -> compareFn a a = 0.
Proof. intros [Hanti _]. pose proof (Hanti a a). lia. Qed.

Lemma consistent_on {A B} (p : A -> B) (compareFn : B -> B -> Z) :
  consistent compareFn -> consistent (fun a b => compareFn (p a) (p b)).
Proof. intros [Hanti Htrans]. split; [intros; apply Hanti | intros a b c; apply Htrans]. Qed.

Lemma consistent_or {A} (c1 c2 : A -> A -> Z) :
  consistent c1 -> consistent c2 -> consistent (fun a b => c1 a b `or` c2 a b).
Proof.
  intros [Hanti1 Htrans1] [Hanti2 Htrans2]. unfold or_else. split.
  - intros a b. pose proof (Hanti1 a b). pose proof (Hanti1 b a). pose proof (Hanti2 a b).
    repeat case_decide; lia.
  - intros a b c Hab Hbc.
    pose proof (Hanti1 a b). pose proof (Hanti1 b a).
    pose proof (Hanti1 b c). pose proof (Hanti1 c b).
    pose proof (Hanti1 a c). pose proof (Hanti1 c a).
    pose proof (Htrans1 a b c). pose proof (Htrans1 c a b). pose proof (Htrans1 b c a).
    pose proof (Htrans2 a b c).
    repeat case_decide; lia.
Qed.

Lemma consistent_compareRows localeCompare :
  consistent localeCompare -> consistent (compareRows localeCompare).
Proof.
  intros Hc. unfold compareRows.
  repeat apply (consistent_or (A := EnvRow.t)); by apply (consistent_on (A := EnvRow.t)).
Qed.

Lemma consistent_compareVariantRows localeCompare :
  consistent localeCompare -> consistent (compareVariantRows localeCompare).
Proof.
  intros Hc. unfold compareVariantRows.
  repeat apply (consistent_or (A := VariantRow.t)); by apply (consistent_on (A := VariantRow.t)).
Qed.

Lemma consistent_compareTotalRows {V} localeCompare :
  consistent localeCompare -> consistent (compareTotalRows (V := V) localeCompare).
Proof.
  intros Hc. unfold compareTotalRows.
  repeat apply (consistent_or (A := TotalRow.row V)); by apply (consistent_on (A := TotalRow.row V)).
Qed.

Lemma codeCompare_spec a b :
  (codeCompare a b < 0 <-> OrdersEx.String_as_OT.lt a b) /\
  (codeCompare a b = 0 <-> a = b) /\
  (0 < codeCompare a b <-> OrdersEx.String_as_OT.lt b a).
Proof.
  assert (Hirr : forall x, ~ OrdersEx.String_as_OT.lt x x)
    by exact (@StrictOrder_Irreflexive _ _ OrdersEx.String_as_OT.lt_strorder).
  pose proof (@transitivity _ _ (@StrictOrder_Transitive _ _ OrdersEx.String_as_OT.lt_strorder)) as Htr.
  unfold codeCompare.
  destruct (OrdersEx.String_as_OT.compare_spec a b) as [Heq|Hlt|Hgt].
  - change (a = b) in Heq. subst.
    split_and!; split; try lia; try done; intros Hbb; by apply Hirr in Hbb.
  - split_and!; split; try lia; try done.
    + intros ->. by apply Hirr in Hlt.
    + intros Hba. destruct (Hirr a). by eapply Htr.
  - split_and!; split; try lia; try done.
    + intros Hab. destruct (Hirr a). by eapply Htr.
    + intros ->. by apply Hirr in Hgt.
Qed.

Lemma codeCompare_consistent : consistent codeCompare.
Proof.
  pose proof (@transitivity _ _ (@StrictOrder_Transitive _ _ OrdersEx.String_as_OT.lt_strorder)) as Htr.
  split.
  - intros a b. destruct (codeCompare_spec a b) as (Hlt & _ & _).
    destruct (codeCompare_spec b a) as (_ & _ & Hgt). by rewrite Hlt, Hgt.
  - intros a b c Hab Hbc.
    destruct (codeCompare_spec a b) as (Hab1 & Hab2 & _).
    destruct (codeCompare_spec b c) as (Hbc1 & Hbc2 & _).
    destruct (codeCompare_spec a c) as (Hac1 & Hac2 & _).
    destruct (decide (codeCompare a b = 0)) as [Hab0|Hab0];
      destruct (decide (codeCompare b c = 0)) as [Hbc0|Hbc0].
    + apply Hab2 in Hab0. apply Hbc2 in Hbc0. subst. lia.
    + apply Hab2 in Hab0. subst. lia.
    + apply Hbc2 in Hbc0. subst. lia.
    + assert (codeCompare a c < 0); [|lia]. apply Hac1.
      apply (Htr a b c); [apply Hab1 | apply Hbc1]; lia.
Qed.

(** ** Objects *)

Section object_lemmas.
Context {V : Type}.
Implicit Types (o : list (string * V)) (v w : V).

Lemma obj_get_lookup key o : obj_get key o = snd <$> lookup_pk fst key o.
Proof.
  induction o as [|[k v] o IH]; simpl; [done|]. by case_decide.
Qed.

Lemma obj_set_twice key v w o : obj_set key v (obj_set key w o) = obj_set key v o.
Proof.
  induction o as [|[k u] o IH]; simpl.
  - by rewrite decide_True.
  - case_decide; simpl; [by rewrite decide_True | rewrite decide_False by done; by rewrite IH].
Qed.

Lemma obj_get_set key v o : obj_get key (obj_set key v o) = Some v.
Proof.
  induction o as [|[k u] o IH]; simpl.
  - by rewrite decide_True.
  - case_decide; simpl; [by rewrite decide_True | by rewrite decide_False].
Qed.

Lemma obj_get_elem key o v : obj_get key o = Some v -> (key, v) ∈ o.
Proof.
  induction o as [|[k w] o IH]; simpl; [done|].
  case_decide; [intros [= ->]; subst; left | intros; right; by apply IH].
Qed.

Lemma obj_set_Forall (P : string * V -> Prop) key v o :
  P (key, v) -> Forall P o -> Forall P (obj_set key v o).
Proof.
  intros Hv. induction 1 as [|[k w] o Hk Ho IH]; simpl.
  - by apply Forall_singleton.
  - case_decide; subst; apply Forall_cons; by split.
Qed.

Lemma obj_assign_Forall (P : string * V -> Prop) key v o :
  P (key, v) -> Forall P o -> Forall P (obj_assign key v o).
Proof. intros Hv Ho. unfold obj_assign. case_decide; [done | by apply obj_set_Forall]. Qed.

Lemma obj_get_head key v o : obj_get key ((key, v) :: o) = Some v.
Proof. simpl. by rewrite decide_True. Qed.

Lemma obj_set_head key v w o : obj_set key v ((key, w) :: o) = (key, v) :: o.
Proof. simpl. by rewrite decide_True. Qed.

Lemma obj_set_keys key v o :
  Object_keys (obj_set key v o) =
  if decide (key ∈ Object_keys o) then Object_keys o else Object_keys o ++ [key].
Proof.
  unfold Object_keys. induction o as [|[k w] o IH].
  - destruct (decide (key ∈ fst <$> [])) as [Hin|Hin]; [by apply elem_of_nil in Hin | done].
  - cbn [obj_set]. destruct (decide (k = key)) as [->|Hk].
    + rewrite !fmap_cons. cbn [fst]. rewrite decide_True; [done | left].
    + rewrite !fmap_cons, IH. cbn [fst]. destruct (decide (key ∈ fst <$> o)) as [Hin|Hin].
      * rewrite decide_True; [done | by right].
      * rewrite decide_False; [done|]. rewrite not_elem_of_cons. split; [by intros ->|done].
Qed.

Lemma obj_set_keys_mono key v k o : k ∈ Object_keys o -> k ∈ Object_keys (obj_set key v o).
Proof. rewrite obj_set_keys. case_decide; [done|]. intros. apply elem_of_app. by left. Qed.

Lemma obj_set_key_in key v o : key ∈ Object_keys (obj_set key v o).
Proof. rewrite obj_set_keys. case_decide; [done|]. apply elem_of_app. right. left. Qed.

Lemma obj_set_keys_inv key v k o :
  k ∈ Object_keys (obj_set key v o) -> k ∈ Object_keys o \/ k = key.
Proof.
  rewrite obj_set_keys. case_decide; [by left|]. intros Hk.
  apply elem_of_app in Hk as [Hk|Hk]; [by left|]. right. by apply list_elem_of_singleton in Hk.
Qed.

Lemma obj_assign_keys_inv key v k o :
  k ∈ Object_keys (obj_assign key v o) -> k ∈ Object_keys o \/ k = key.
Proof. unfold obj_assign. case_decide; [by left | apply obj_set_keys_inv]. Qed.

Lemma obj_assign_ordinary key v o : key <> "__proto__" -> obj_assign key v o = obj_set key v o.
Proof. intros Hkey. unfold obj_assign. by rewrite decide_False. Qed.

Lemma obj_assign_proto v o : obj_assign "__proto__" v o = o.
Proof. reflexivity. Qed.

Lemma obj_get_None_keys key o : obj_get key o = None <-> key ∉ Object_keys o.
Proof.
  rewrite obj_get_lookup. unfold Object_keys. rewrite <- (lookup_pk_None fst).
  by destruct (lookup_pk fst key o).
Qed.

Lemma obj_set_absent key v o : obj_get key o = None -> obj_set key v o = o ++ [(key, v)].
Proof.
  induction o as [|[k w] o IH]; simpl; [done|].
  case_decide; [done|]. intros Hget. by rewrite IH.
Qed.

Lemma obj_set_same key v o : obj_get key o = Some v -> obj_set key v o = o.
Proof.
  induction o as [|[k w] o IH]; simpl; [done|].
  case_decide; [by intros [= ->] | intros Hget; by rewrite IH].
Qed.
End object_lemmas.

Lemma obj_set_upsert key n o :
  obj_set key (default 0 (obj_get key o) + n) o = upsert_row fst add_entry (key, n) o.
Proof.
  induction o as [|[k v] o IH]; simpl; [done|].
  case_decide; [by subst | by rewrite IH].
Qed.

Lemma obj_get_numbers key o : obj_get key (numbers o) = Number <$> obj_get key o.
Proof.
  unfold numbers. induction o as [|[k v] o IH]; simpl; [done|]. by case_decide.
Qed.

Lemma obj_set_numbers key n o : obj_set key (Number n) (numbers o) = numbers (obj_set key n o).
Proof.
  unfold numbers. induction o as [|[k v] o IH]; [done|].
  rewrite fmap_cons. cbn [obj_set fst snd]. case_decide; rewrite fmap_cons; [done | by rewrite IH].
Qed.

Lemma Object_keys_numbers o : Object_keys (numbers o) = Object_keys o.
Proof. unfold Object_keys, numbers. by rewrite <- list_fmap_compose. Qed.

Lemma obj_read_Own key o v : obj_read key o = Own v <-> obj_get key o = Some v.
Proof.
  unfold obj_read. destruct (obj_get key o) as [w|].
  - split; by intros [= ->].
  - split; [repeat case_decide; done | done].
Qed.

Lemma obj_read_ordinary key o :
  ordinary_key key ->
  obj_read key o = match obj_get key o with Some v => Own v | None => Undefined end.
Proof.
  intros [Hf Hp]. unfold obj_read. destruct (obj_get key o); [done|]. by rewrite !decide_False.
Qed.

(** An underscore count tells the keys of the reducer from every inherited
    name. *)
Lemma count_char_app c s1 s2 : count_char c (s1 +:+ s2) = (count_char c s1 + count_char c s2)%nat.
Proof. induction s1 as [|c1 s1 IH]; simpl; [done|]. rewrite IH. lia. Qed.

Lemma inherited_names_underscores key :
  key ∈ "__proto__" :: Object_prototype_functions -> (count_char "_" key <= 4)%nat.
Proof.
  intros Hkey. unfold Object_prototype_functions in Hkey.
  repeat (apply elem_of_cons in Hkey as [->|Hkey]; [vm_compute; lia|]).
  by apply elem_of_nil in Hkey.
Qed.

(** ** Sums over a batch *)

Section batch_sums.
Context {R K : Type} `{EqDecision K} (pk : R -> K) (on_conflict : R -> R -> R).
Hypothesis on_conflict_pk : forall r x, pk (on_conflict r x) = pk r.
Variable c : R -> Z.
Hypothesis on_conflict_adds : forall r x, c (on_conflict r x) = c r + c x.

Lemma batch_sum_nonneg k rows : Forall (fun x => 0 <= c x) rows -> 0 <= batch_sum pk c k rows.
Proof.
  unfold batch_sum. induction 1 as [|x rows Hx _ IH].
  - rewrite filter_nil. simpl. lia.
  - rewrite filter_cons. case_decide; rewrite ?fmap_cons; cbn [foldr]; lia.
Qed.

Lemma batch_sum_fmap {R'} (g : R' -> R) k rows :
  batch_sum pk c k (g <$> rows) = batch_sum (pk ∘ g) (c ∘ g) k rows.
Proof.
  unfold batch_sum. induction rows as [|x rows IH]; [done|].
  rewrite fmap_cons, !filter_cons. simpl.
  case_decide; rewrite ?fmap_cons; cbn [foldr]; by rewrite IH.
Qed.

(** A row of a table built from nothing carries the sum of its key. *)
Lemma upsert_all_nil_sum rows x :
  x ∈ foldl (fun t x => upsert_row pk on_conflict x t) [] rows ->
  c x = batch_sum pk c (pk x) rows.
Proof.
  intros Hx.
  pose proof (counter_at_upsert_all pk on_conflict on_conflict_pk c on_conflict_adds
                rows (pk x) []) as Hsum.
  unfold counter_at in Hsum at 1.
  rewrite (lookup_pk_unique pk (pk x) _ x) in Hsum; [done | | done | done].
  by apply upsert_all_nil_unique.
Qed.
End batch_sums.

(** ** Compaction and variant spreading *)

Lemma metric_bucket_hourly m : metric_bucket (hourly m) = metric_bucket m.
Proof. unfold metric_bucket, hourly. simpl. by rewrite startOfHour_idemp. Qed.

Lemma metric_bucket_add acc m : metric_bucket (add_yes_no acc m) = metric_bucket acc.
Proof. reflexivity. Qed.

Lemma variant_bucket_add acc v : variant_bucket (add_count acc v) = variant_bucket acc.
Proof. reflexivity. Qed.

Lemma env_pk_toRow m : env_pk (toRow m) = metric_bucket m.
Proof. reflexivity. Qed.

Lemma variant_pk_toVariantRow v : variant_pk (toVariantRow v) = variant_bucket v.
Proof. reflexivity. Qed.

Lemma collapseHourlyMetrics_fold metrics :
  collapseHourlyMetrics metrics =
  foldl (fun t x => upsert_row metric_bucket add_yes_no x t) [] (hourly <$> metrics).
Proof. unfold collapseHourlyMetrics. by rewrite foldl_fmap. Qed.

Lemma collapseHourlyMetrics_unique metrics :
  NoDup (metric_bucket <$> collapseHourlyMetrics metrics).
Proof.
  rewrite collapseHourlyMetrics_fold.
  apply (upsert_all_nil_unique metric_bucket add_yes_no metric_bucket_add).
Qed.

Lemma spreadVariants_unique metrics :
  NoDup (variant_bucket <$> spreadVariants metrics).
Proof. apply (upsert_all_nil_unique variant_bucket add_count variant_bucket_add). Qed.

Lemma collapseHourlyMetrics_keys metrics k :
  k ∈ metric_bucket <$> collapseHourlyMetrics metrics <-> k ∈ metric_bucket <$> metrics.
Proof.
  rewrite collapseHourlyMetrics_fold. split.
  - intros Hk.
    apply (keys_upsert_all_inv metric_bucket add_yes_no metric_bucket_add) in Hk as [Hk|Hk].
    + by apply elem_of_nil in Hk.
    + rewrite <- list_fmap_compose in Hk.
      apply list_elem_of_fmap in Hk as (m & -> & Hm). simpl.
      rewrite metric_bucket_hourly. by apply list_elem_of_fmap_2.
  - intros Hk. apply list_elem_of_fmap in Hk as (m & -> & Hm).
    rewrite <- metric_bucket_hourly.
    apply (in_keys_upsert_all metric_bucket add_yes_no metric_bucket_add).
    by apply list_elem_of_fmap_2.
Qed.

Lemma collapseHourlyMetrics_yes metrics m :
  m ∈ collapseHourlyMetrics metrics ->
  Metric.yes m = batch_sum metric_bucket Metric.yes (metric_bucket m) metrics.
Proof.
  rewrite collapseHourlyMetrics_fold. intros Hm.
  rewrite (upsert_all_nil_sum metric_bucket add_yes_no metric_bucket_add Metric.yes
             (fun _ _ => eq_refl) _ _ Hm).
  rewrite batch_sum_fmap. unfold batch_sum. f_equal. f_equal.
  apply list_filter_iff. intros x. simpl. by rewrite metric_bucket_hourly.
Qed.

Lemma collapseHourlyMetrics_no metrics m :
  m ∈ collapseHourlyMetrics metrics ->
  Metric.no m = batch_sum metric_bucket Metric.no (metric_bucket m) metrics.
Proof.
  rewrite collapseHourlyMetrics_fold. intros Hm.
  rewrite (upsert_all_nil_sum metric_bucket add_yes_no metric_bucket_add Metric.no
             (fun _ _ => eq_refl) _ _ Hm).
  rewrite batch_sum_fmap. unfold batch_sum. f_equal. f_equal.
  apply list_filter_iff. intros x. simpl. by rewrite metric_bucket_hourly.
Qed.

Lemma spreadVariants_count metrics v :
  v ∈ spreadVariants metrics ->
  VariantMetric.count v =
  batch_sum variant_bucket VariantMetric.count (variant_bucket v) (metrics ≫= variant_entries).
Proof.
  apply (upsert_all_nil_sum variant_bucket add_count variant_bucket_add VariantMetric.count
           (fun _ _ => eq_refl)).
Qed.

Lemma spreadVariants_keys metrics k :
  k ∈ variant_bucket <$> spreadVariants metrics <->
  k ∈ variant_bucket <$> (metrics ≫= variant_entries).
Proof.
  split.
  - intros Hk.
    apply (keys_upsert_all_inv variant_bucket add_count variant_bucket_add) in Hk as [Hk|Hk];
      [by apply elem_of_nil in Hk | done].
  - intros Hk. apply list_elem_of_fmap in Hk as (v & -> & Hv).
    by apply (in_keys_upsert_all variant_bucket add_count variant_bucket_add).
Qed.

(** ** The statements of the batch writers *)

Lemma insert_on_conflict_distinct {R K} `{EqDecision K} (pk : R -> K) on_conflict rows t :
  rows <> [] -> NoDup (pk <$> rows) ->
  insert_on_conflict pk on_conflict rows t =
  Some (foldl (fun t x => upsert_row pk on_conflict x t) t rows).
Proof.
  intros Hrows Hnd. unfold insert_on_conflict. destruct rows; [done|]. by rewrite decide_True.
Qed.

Lemma insert_on_conflict_Some {R K} `{EqDecision K} (pk : R -> K) on_conflict rows t t' :
  insert_on_conflict pk on_conflict rows t = Some t' ->
  rows <> [] /\ NoDup (pk <$> rows) /\
  t' = foldl (fun t x => upsert_row pk on_conflict x t) t rows.
Proof.
  unfold insert_on_conflict. destruct rows as [|x rows]; [done|].
  case_decide; [|done]. by intros [= <-].
Qed.

Lemma env_on_conflict_pk r x : env_pk (env_on_conflict r x) = env_pk r.
Proof. reflexivity. Qed.

Lemma variant_on_conflict_pk r x : variant_pk (variant_on_conflict r x) = variant_pk r.
Proof. reflexivity. Qed.

Lemma total_on_conflict_pk r x : total_pk (total_on_conflict r x) = total_pk r.
Proof. reflexivity. Qed.

Section batches.
Variable localeCompare : string -> string -> Z.

Lemma elem_of_sortedRows r metrics :
  r ∈ sortedRows localeCompare metrics <->
  exists m, m ∈ collapseHourlyMetrics metrics /\ r = toRow m.
Proof.
  unfold sortedRows. rewrite elem_of_sort, list_elem_of_fmap.
  split; intros (x & ? & ?); by exists x.
Qed.

Lemma elem_of_sortedVariantRows r metrics :
  r ∈ sortedVariantRows localeCompare metrics <->
  exists v, v ∈ spreadVariants metrics /\ r = toVariantRow v.
Proof.
  unfold sortedVariantRows. rewrite elem_of_sort, list_elem_of_fmap.
  split; intros (x & ? & ?); by exists x.
Qed.

Lemma sortedRows_distinct metrics : NoDup (env_pk <$> sortedRows localeCompare metrics).
Proof.
  unfold sortedRows. rewrite sort_fmap_perm, <- list_fmap_compose.
  apply collapseHourlyMetrics_unique.
Qed.

Lemma sortedRows_cover metrics e :
  e ∈ metrics -> metric_bucket e ∈ env_pk <$> sortedRows localeCompare metrics.
Proof.
  intros He. unfold sortedRows. rewrite sort_fmap_perm, <- list_fmap_compose.
  apply collapseHourlyMetrics_keys. by apply list_elem_of_fmap_2.
Qed.

Lemma sortedRows_nonempty m metrics : sortedRows localeCompare (m :: metrics) <> [].
Proof.
  intros Hnil. pose proof (sortedRows_cover (m :: metrics) m) as Hk.
  rewrite Hnil in Hk. eapply elem_of_nil, Hk. left.
Qed.

Lemma sortedVariantRows_distinct metrics :
  NoDup (variant_pk <$> sortedVariantRows localeCompare metrics).
Proof.
  unfold sortedVariantRows. rewrite sort_fmap_perm, <- list_fmap_compose.
  apply spreadVariants_unique.
Qed.

Lemma sortedTotalRows_sorted metrics :
  consistent localeCompare ->
  sorted_by (compareTotalRows localeCompare) (sortedTotalRows localeCompare metrics).
Proof. intros Hc. by apply sort_sorted, consistent_compareTotalRows. Qed.

Lemma batchInsertMetrics_run m metrics s :
  batchInsertMetrics localeCompare (Some (m :: metrics)) s =
  (Ok tt,
   mkSession
     (mkDb
        (foldl (fun t x => upsert_row env_pk env_on_conflict x t)
           (client_metrics_env (tables s)) (sortedRows localeCompare (m :: metrics)))
        (foldl (fun t x => upsert_row variant_pk variant_on_conflict x t)
           (client_metrics_env_variants (tables s))
           (sortedVariantRows localeCompare (m :: metrics)))
        (client_metrics_total (tables s)))
     (clock s)
     (sent s ++ metricsQueries localeCompare (m :: metrics))).
Proof.
  unfold batchInsertMetrics, metricsQueries, blank.
  rewrite bool_decide_false by done.
  change (default [] (Some (m :: metrics))) with (m :: metrics).
  unfold mbind, Store_bind, bind, raw at 1. cbn [run_query tables clock sent].
  rewrite insert_on_conflict_distinct
    by first [apply sortedRows_nonempty | apply sortedRows_distinct].
  cbn [mbind option_bind].
  destruct (decide (0 < length (sortedVariantRows localeCompare (m :: metrics)))%nat) as [Hv|Hv].
  - unfold raw. cbn [run_query tables clock sent client_metrics_env
                     client_metrics_env_variants client_metrics_total].
    rewrite insert_on_conflict_distinct;
      [| intros Hnil; rewrite Hnil in Hv; simpl in Hv; lia | apply sortedVariantRows_distinct].
    cbn [mbind option_bind]. by rewrite <- app_assoc.
  - unfold ret. destruct (sortedVariantRows localeCompare (m :: metrics)); [done|].
    simpl in Hv. lia.
Qed.
End batches.

(** ** The dictionary of totals *)

Lemma split_join f e : plain_name f -> split "_" (f +:+ "_" +:+ e) = f :: split "_" e.
Proof.
  unfold plain_name. induction f as [|c f IH]; intros Hf.
  - reflexivity.
  - cbn [has_char] in Hf. apply orb_false_iff in Hf as [Hc Hf].
    apply bool_decide_eq_false in Hc.
    change (String c f +:+ "_" +:+ e) with (String c (f +:+ "_" +:+ e)).
    cbn [split]. rewrite decide_False by done. by rewrite IH.
Qed.

Lemma split_plain s : plain_name s -> split "_" s = [s].
Proof.
  unfold plain_name. induction s as [|c s IH]; intros Hs; [done|].
  cbn [has_char] in Hs. apply orb_false_iff in Hs as [Hc Hs].
  apply bool_decide_eq_false in Hc.
  cbn [split]. rewrite decide_False by done. by rewrite IH.
Qed.

Lemma split_totalKey m :
  plain_metric m -> split "_" (totalKey m) = [Metric.featureName m; Metric.environment m].
Proof. intros [Hf He]. unfold totalKey. by rewrite split_join, split_plain. Qed.

Lemma totalKey_inj m m' :
  plain_metric m -> plain_metric m' ->
  totalKey m = totalKey m' <-> feature_environment m = feature_environment m'.
Proof.
  intros Hm Hm'. unfold feature_environment. split.
  - intros Hkey. apply (f_equal (split "_")) in Hkey.
    rewrite !split_totalKey in Hkey by done. by injection Hkey as -> ->.
  - intros [= Hf He]. unfold totalKey. by rewrite Hf, He.
Qed.

(** A key of two names without underscores holds one underscore, and every
    inherited name with an underscore holds four. *)
Lemma plain_totalKey_ordinary m : plain_metric m -> ordinary_key (totalKey m).
Proof.
  intros Hm.
  assert (Hparts : length (split "_" (totalKey m)) = 2%nat) by by rewrite split_totalKey.
  assert (Hown : totalKey m ∉ "__proto__" :: Object_prototype_functions).
  { intros Hin. unfold Object_prototype_functions in Hin.
    repeat (apply elem_of_cons in Hin as [Hin|Hin]; [by rewrite Hin in Hparts|]).
    by apply elem_of_nil in Hin. }
  apply not_elem_of_cons in Hown as [Hproto Hfun]. by split.
Qed.

(** Under an ordinary name the loop of [batchInsertTotalMetrics] adds each
    event's yes + no to the entry of its key, creating the entry on first
    use. *)
Lemma aggregate_ordinary o metric :
  ordinary_key (totalKey metric) ->
  aggregate (numbers o) metric = numbers (upsert_row fst add_entry (totalEntry metric) o).
Proof.
  intros Hkey. pose proof Hkey as [_ Hproto]. unfold aggregate, totalEntry.
  fold (totalKey metric). rewrite <- obj_set_upsert.
  rewrite (obj_read_ordinary _ (numbers o)), obj_get_numbers by done.
  destruct (obj_get (totalKey metric) o) as [v|] eqn:Hget; cbn [fmap option_fmap option_map default].
  - rewrite obj_read_ordinary, obj_get_numbers, Hget by done.
    cbn [fmap option_fmap option_map plus].
    by rewrite obj_assign_ordinary, obj_set_numbers.
  - rewrite !obj_assign_ordinary by done.
    rewrite obj_read_ordinary, obj_get_set by done. cbn [plus].
    by rewrite obj_set_twice, obj_set_numbers.
Qed.

Lemma foldl_aggregate_ordinary metrics o :
  Forall (fun m => ordinary_key (totalKey m)) metrics ->
  foldl aggregate (numbers o) metrics =
  numbers (foldl (fun t x => upsert_row fst add_entry x t) o (totalEntry <$> metrics)).
Proof.
  intros Hkeys. revert o. induction Hkeys as [|m metrics Hm _ IH]; intros o; [done|].
  cbn [foldl]. rewrite aggregate_ordinary by done. rewrite IH. by rewrite fmap_cons.
Qed.

Lemma aggregated_ordinary metrics :
  Forall (fun m => ordinary_key (totalKey m)) metrics ->
  foldl aggregate [] metrics =
  numbers (foldl (fun t x => upsert_row fst add_entry x t) [] (totalEntry <$> metrics)).
Proof. apply (foldl_aggregate_ordinary metrics []). Qed.

(** Whatever the names, the loop creates properties only under the keys of
    the events, and reads nothing of an event but its key and yes + no. *)
Lemma aggregate_keys_inv acc metric k :
  k ∈ Object_keys (aggregate acc metric) -> k ∈ Object_keys acc \/ k = totalKey metric.
Proof.
  unfold aggregate. fold (totalKey metric). intros Hk.
  apply obj_assign_keys_inv in Hk as [Hk|Hk]; [|by right].
  destruct (obj_read (totalKey metric) acc); try by left.
  by apply obj_assign_keys_inv in Hk.
Qed.

Lemma foldl_aggregate_keys_inv metrics acc k :
  k ∈ Object_keys (foldl aggregate acc metrics) ->
  k ∈ Object_keys acc \/ k ∈ totalKey <$> metrics.
Proof.
  revert acc. induction metrics as [|m metrics IH]; intros acc Hk; [by left|].
  cbn [foldl] in Hk. apply IH in Hk as [Hk|Hk]; [|right; by right].
  apply aggregate_keys_inv in Hk as [Hk|Hk]; [by left|]. right. rewrite Hk. left.
Qed.

Lemma aggregate_entry acc m m' : totalEntry m = totalEntry m' -> aggregate acc m = aggregate acc m'.
Proof.
  unfold totalEntry, totalKey, aggregate. intros [= Hkey Hsum]. by rewrite Hkey, Hsum.
Qed.

Lemma foldl_aggregate_entries metrics metrics' acc :
  totalEntry <$> metrics = totalEntry <$> metrics' ->
  foldl aggregate acc metrics = foldl aggregate acc metrics'.
Proof.
  revert metrics' acc. induction metrics as [|m metrics IH]; intros [|m' metrics'] acc Heq;
    try done.
  rewrite !fmap_cons in Heq. injection Heq as Hkey Hsum Heq.
  cbn [foldl]. rewrite (aggregate_entry acc m m') by (unfold totalEntry; by rewrite Hkey, Hsum).
  by apply IH.
Qed.

Lemma aggregate_nonneg acc metric :
  valid_metric metric ->
  Forall (fun kv => 0 <= number_of kv.2) acc ->
  Forall (fun kv => 0 <= number_of kv.2) (aggregate acc metric).
Proof.
  intros (Hyes & Hno & _) Hacc. unfold aggregate.
  set (key := Metric.featureName metric +:+ "_" +:+ Metric.environment metric).
  set (acc1 := match obj_read key acc with Undefined => _ | _ => acc end).
  assert (Hacc1 : Forall (fun kv => 0 <= number_of kv.2) acc1).
  { unfold acc1. destruct (obj_read key acc); try done. by apply obj_assign_Forall. }
  clearbody acc1. apply obj_assign_Forall; [|done]. cbn [snd].
  destruct (obj_read key acc1) as [[v|]| | |] eqn:Hread; cbn [plus number_of]; try lia.
  apply obj_read_Own, obj_get_elem in Hread. rewrite Forall_forall in Hacc1.
  specialize (Hacc1 _ Hread). simpl in Hacc1. lia.
Qed.

Lemma foldl_aggregate_nonneg metrics acc :
  Forall valid_metric metrics ->
  Forall (fun kv => 0 <= number_of kv.2) acc ->
  Forall (fun kv => 0 <= number_of kv.2) (foldl aggregate acc metrics).
Proof.
  intros Hvalid. revert acc.
  induction Hvalid as [|m metrics Hm _ IH]; intros acc Hacc; simpl; [exact Hacc|].
  apply IH. by apply aggregate_nonneg.
Qed.

Lemma sortedTotalRows_nonneg localeCompare metrics :
  Forall valid_metric metrics ->
  Forall (fun x => 0 <= number_of (TotalRow.total x)) (sortedTotalRows localeCompare metrics).
Proof.
  intros Hvalid. unfold sortedTotalRows.
  assert (Hagg : Forall (fun kv => 0 <= number_of kv.2) (foldl aggregate [] metrics))
    by (apply foldl_aggregate_nonneg; [done | apply Forall_nil_2]).
  rewrite sort_perm. apply Forall_fmap, Forall_forall. intros key _. simpl.
  destruct (obj_get key _) as [v|] eqn:Hget; simpl; [|lia].
  apply obj_get_elem in Hget. rewrite Forall_forall in Hagg. by apply (Hagg _ Hget).
Qed.

(** ** What the database reads from the submitted totals *)

Lemma numericTotal_Some x y :
  numericTotal x = Some y <-> TotalRow.total x = Number (TotalRow.total y) /\ y = numericRow x.
Proof.
  unfold numericTotal, numericRow. destruct x as [f e [n|]]; simpl.
  - split; [by intros [= <-] | by intros [[= ->] ->]].
  - split; [done | by intros [? _]].
Qed.

Lemma mapM_numericTotal_Some rows rows' :
  mapM numericTotal rows = Some rows' ->
  rows' = numericRow <$> rows /\
  Forall (fun x => exists n, TotalRow.total x = Number n) rows.
Proof.
  rewrite mapM_Some. induction 1 as [|x y rows rows' Hxy _ [IH1 IH2]]; [done|].
  apply numericTotal_Some in Hxy as [Hx ->]. split.
  - by rewrite fmap_cons, IH1.
  - apply Forall_cons. split; [by eexists | done].
Qed.

Lemma mapM_numericTotal rows :
  Forall (fun x => exists n, TotalRow.total x = Number n) rows ->
  mapM numericTotal rows = Some (numericRow <$> rows).
Proof.
  intros Hrows. apply mapM_Some. induction Hrows as [|x rows [n Hx] _ IH]; [constructor|].
  rewrite fmap_cons. constructor; [|done]. apply numericTotal_Some. split; [|done].
  rewrite Hx. unfold numericRow. by rewrite Hx.
Qed.

Lemma total_pk_numericRow x : total_pk (numericRow x) = total_pk x.
Proof. reflexivity. Qed.

Lemma batch_sum_ext {R K K'} `{EqDecision K, EqDecision K'}
    (pk : R -> K) (pk' : R -> K') (c : R -> Z) k k' rows :
  Forall (fun x => pk x = k <-> pk' x = k') rows ->
  batch_sum pk c k rows = batch_sum pk' c k' rows.
Proof.
  unfold batch_sum. induction 1 as [|x rows Hx _ IH]; [done|].
  rewrite !filter_cons.
  destruct (decide (pk x = k)) as [Hk|Hk], (decide (pk' x = k')) as [Hk'|Hk'];
    rewrite ?fmap_cons; cbn [foldr]; try tauto; by rewrite IH.
Qed.

(** ** Totals of names without an underscore *)

Section plain_totals.
Variable localeCompare : string -> string -> Z.
Variable metrics : list Metric.t.
Hypothesis plain : Forall plain_metric metrics.

Let aggregatedMetrics := foldl (fun t x => upsert_row fst add_entry x t) [] (totalEntry <$> metrics).

Lemma foldl_aggregate_plain : foldl aggregate [] metrics = numbers aggregatedMetrics.
Proof.
  apply (foldl_aggregate_ordinary metrics []).
  eapply Forall_impl; [exact plain|]. apply plain_totalKey_ordinary.
Qed.

Lemma aggregatedMetrics_entry key v :
  (key, v) ∈ aggregatedMetrics ->
  obj_get key aggregatedMetrics = Some v /\
  exists m, m ∈ metrics /\ key = totalKey m /\
    v = batch_sum feature_environment (fun m => Metric.yes m + Metric.no m)
          (feature_environment m) metrics.
Proof.
  unfold aggregatedMetrics. intros Hin.
  assert (Hpk : forall r x : string * Z, (add_entry r x).1 = r.1) by done.
  assert (Hadd : forall r x : string * Z, (add_entry r x).2 = r.2 + x.2) by done.
  split.
  - rewrite obj_get_lookup.
    rewrite (lookup_pk_unique fst key _ (key, v)); [done | | done | done].
    by apply upsert_all_nil_unique.
  - assert (Hkey : key ∈ fst <$> (totalEntry <$> metrics)).
    { apply (list_elem_of_fmap_2 fst) in Hin.
      apply (keys_upsert_all_inv fst add_entry Hpk) in Hin as [Hin|Hin]; [|done].
      by apply elem_of_nil in Hin. }
    rewrite <- list_fmap_compose in Hkey.
    apply list_elem_of_fmap in Hkey as (m & Hkey & Hm). simpl in Hkey.
    exists m. split_and!; [done | done |].
    pose proof (upsert_all_nil_sum fst add_entry Hpk snd Hadd _ _ Hin) as Hsum.
    cbn [fst snd] in Hsum. rewrite Hsum, batch_sum_fmap.
    apply batch_sum_ext. simpl. rewrite Hkey.
    rewrite Forall_forall in plain. apply Forall_forall. intros m' Hm'. simpl.
    rewrite totalKey_inj by auto. done.
Qed.

Lemma sortedTotalRows_plain r :
  r ∈ sortedTotalRows localeCompare metrics ->
  exists m, m ∈ metrics /\ total_pk r = feature_environment m /\
    TotalRow.total r =
    Number (batch_sum feature_environment (fun m => Metric.yes m + Metric.no m)
              (feature_environment m) metrics).
Proof.
  unfold sortedTotalRows. rewrite foldl_aggregate_plain, Object_keys_numbers.
  rewrite elem_of_sort. unfold Object_keys. rewrite <- list_fmap_compose.
  intros Hr. apply list_elem_of_fmap in Hr as ([key v] & -> & Hin). simpl.
  destruct (aggregatedMetrics_entry key v Hin) as (Hget & m & Hm & -> & Hsum).
  exists m. unfold totalRow. rewrite obj_get_numbers, Hget, split_totalKey.
  - split_and!; [done | done |]. simpl. by rewrite Hsum.
  - rewrite Forall_forall in plain. by apply plain.
Qed.

(** Without underscores in the names no two submitted total rows share a
    key, each row is the row of the (featureName, environment) pair of an
    event and carries as a number the sum of yes + no over the events of
    that pair, and every pair has its row. *)
Lemma totals_of_plain_names :
  NoDup (total_pk <$> sortedTotalRows localeCompare metrics) /\
  (forall r, r ∈ sortedTotalRows localeCompare metrics ->
     exists m, m ∈ metrics /\ total_pk r = feature_environment m /\
       TotalRow.total r =
       Number (batch_sum feature_environment (fun m => Metric.yes m + Metric.no m)
                 (feature_environment m) metrics)) /\
  (forall m, m ∈ metrics ->
     feature_environment m ∈ total_pk <$> sortedTotalRows localeCompare metrics).
Proof.
  assert (Hpk : forall r x : string * Z, (add_entry r x).1 = r.1) by done.
  assert (Hkeys : NoDup (Object_keys aggregatedMetrics)).
  { unfold aggregatedMetrics. by apply (upsert_all_nil_unique fst add_entry). }
  assert (Hrow : forall key, key ∈ Object_keys aggregatedMetrics ->
            exists m, m ∈ metrics /\ key = totalKey m /\
              total_pk (totalRow (numbers aggregatedMetrics) key) = feature_environment m).
  { intros key Hkey. apply list_elem_of_fmap in Hkey as ([k v] & -> & Hin). simpl.
    destruct (aggregatedMetrics_entry k v Hin) as (_ & m & Hm & -> & _).
    exists m. split_and!; [done..|]. unfold totalRow, total_pk. simpl.
    rewrite split_totalKey; [done|]. rewrite Forall_forall in plain. by apply plain. }
  split_and!.
  - unfold sortedTotalRows. rewrite foldl_aggregate_plain, Object_keys_numbers.
    rewrite sort_fmap_perm, <- list_fmap_compose.
    apply NoDup_fmap_2_strong; [|done]. intros k1 k2 Hk1 Hk2. simpl. intros Heq.
    destruct (Hrow k1 Hk1) as (m1 & Hm1 & -> & Hpk1).
    destruct (Hrow k2 Hk2) as (m2 & Hm2 & -> & Hpk2).
    rewrite Forall_forall in plain. apply totalKey_inj; [by apply plain..|]. congruence.
  - apply sortedTotalRows_plain.
  - intros m Hm. unfold sortedTotalRows. rewrite foldl_aggregate_plain, Object_keys_numbers.
    rewrite sort_fmap_perm, <- list_fmap_compose.
    assert (Hkey : totalKey m ∈ Object_keys aggregatedMetrics).
    { unfold aggregatedMetrics.
      apply (in_keys_upsert_all fst add_entry Hpk _ (totalEntry m)).
      by apply list_elem_of_fmap_2. }
    destruct (Hrow _ Hkey) as (m' & Hm' & Hmm' & Hpk').
    rewrite Forall_forall in plain.
    apply totalKey_inj in Hmm'; [|by apply plain..]. rewrite Hmm', <- Hpk'.
    by apply (list_elem_of_fmap_2 (total_pk ∘ totalRow (numbers aggregatedMetrics))).
Qed.
End plain_totals.

(** ** The statement of [batchInsertTotalMetrics] *)

Section total_batches.
Variable localeCompare : string -> string -> Z.

(** A batch that is not blank sends one statement.  Either the database
    takes it, and the rows it read are merged into the total table, or it
    refuses it, and the tables are as before. *)
Lemma batchInsertTotalMetrics_settles m metrics s :
  let q := InsertTotals (sortedTotalRows localeCompare (m :: metrics)) in
  (exists rows,
     mapM numericTotal (sortedTotalRows localeCompare (m :: metrics)) = Some rows /\
     rows <> [] /\ NoDup (total_pk <$> rows) /\
     batchInsertTotalMetrics localeCompare (Some (m :: metrics)) s =
     (Ok tt,
      mkSession
        (mkDb (client_metrics_env (tables s)) (client_metrics_env_variants (tables s))
           (foldl (fun t x => upsert_row total_pk total_on_conflict x t)
              (client_metrics_total (tables s)) rows))
        (clock s) (sent s ++ [q]))) \/
  batchInsertTotalMetrics localeCompare (Some (m :: metrics)) s =
  (Err StoreError, mkSession (tables s) (clock s) (sent s ++ [q])).
Proof.
  intros q. subst q. unfold batchInsertTotalMetrics, blank.
  rewrite bool_decide_false by done.
  change (default [] (Some (m :: metrics))) with (m :: metrics).
  unfold raw. cbn [run_query].
  destruct (mapM numericTotal (sortedTotalRows localeCompare (m :: metrics))) as [rows|];
    cbn [mbind option_bind]; [|by right].
  destruct (insert_on_conflict total_pk total_on_conflict rows (client_metrics_total (tables s)))
    as [t|] eqn:Hinsert; cbn [mbind option_bind]; [|by right].
  apply insert_on_conflict_Some in Hinsert as (Hrows & Hnd & ->). left. by exists rows.
Qed.

Lemma batchInsertTotalMetrics_plain m metrics s :
  Forall plain_metric (m :: metrics) ->
  batchInsertTotalMetrics localeCompare (Some (m :: metrics)) s =
  (Ok tt,
   mkSession
     (mkDb (client_metrics_env (tables s)) (client_metrics_env_variants (tables s))
        (foldl (fun t x => upsert_row total_pk total_on_conflict x t)
           (client_metrics_total (tables s))
           (numericRow <$> sortedTotalRows localeCompare (m :: metrics))))
     (clock s)
     (sent s ++ [InsertTotals (sortedTotalRows localeCompare (m :: metrics))])).
Proof.
  intros Hplain.
  destruct (totals_of_plain_names localeCompare (m :: metrics) Hplain) as (Hnd & Hrows & Hcover).
  unfold batchInsertTotalMetrics, blank.
  rewrite bool_decide_false by done.
  change (default [] (Some (m :: metrics))) with (m :: metrics).
  unfold raw. cbn [run_query]. rewrite mapM_numericTotal.
  - cbn [mbind option_bind]. rewrite insert_on_conflict_distinct; [done | |].
    + intros Hnil. apply fmap_nil_inv in Hnil.
      specialize (Hcover m (list_elem_of_here _ _)). rewrite Hnil in Hcover.
      by apply elem_of_nil in Hcover.
    + by rewrite <- list_fmap_compose.
  - apply Forall_forall. intros r Hr. destruct (Hrows r Hr) as (m' & _ & _ & Htotal). by eexists.
Qed.
End total_batches.

(** * The batch writers *)

(** C1 (evaluation at the failing input).  Two valid events, one of
    feature a_b in environment x and one of feature a in environment b.
    Their keys a_b_x and a_b both split into the parts a and b, so
    [batchInsertTotalMetrics] submits two rows with the one primary key
    (a, b).  The database refuses the statement and nothing is inserted:
    the total table stays empty, and the batch has not been accumulated. *)
Theorem batch_insert_totals_rejected :
  let batch := [Metric.mk "a_b" "app" "x" 0 1 0 None; Metric.mk "a" "app" "b" 0 2 0 None] in
  let rows := sortedTotalRows codeCompare batch in
  let s1 := after (batchInsertTotalMetrics codeCompare (Some batch)) (fresh 0) in
  Forall valid_metric batch /\
  rows = [TotalRow.mk "a" "b" (Number 1); TotalRow.mk "a" "b" (Number 2)] /\
  batchInsertTotalMetrics codeCompare (Some batch) (fresh 0) =
    (Err StoreError, mkSession (mkDb [] [] []) 0 [InsertTotals rows]) /\
  client_metrics_total (tables s1) = [] /\
  ~ accumulated total_pk total_on_conflict (numericRow <$> rows)
      (client_metrics_total (tables (fresh 0))) (client_metrics_total (tables s1)).
Proof.
  intros batch rows s1. split_and!.
  - repeat constructor; simpl; lia.
  - reflexivity.
  - reflexivity.
  - reflexivity.
  - intros [Hins _]. specialize (Hins (TotalRow.mk "a" "b" 1)).
    discriminate Hins. left.
Qed.

(** C2 (evaluation at the failing input).  One event for feature a_b in
    environment prod: the key a_b_prod is split at every underscore, so the
    row submitted, and stored, is for feature a in environment b, and the
    total record of (a_b, prod) does not exist. *)
Theorem total_key_split_misfiles localeCompare :
  let event := Metric.mk "a_b" "app" "prod" 0 1 0 None in
  let s1 := after (batchInsertTotalMetrics localeCompare (Some [event])) (fresh 0) in
  sent s1 = [InsertTotals [TotalRow.mk "a" "b" (Number 1)]] /\
  client_metrics_total (tables s1) = [TotalRow.mk "a" "b" 1] /\
  lookup_pk total_pk ("a_b", "prod") (client_metrics_total (tables s1)) = None.
Proof. intros event s1. split_and!; reflexivity. Qed.

(** ** Invariants *)

Lemma run_query_unique now q d d' :
  db_unique d -> run_query now q d = Some d' -> db_unique d'.
Proof.
  intros (He & Hv & Ht). unfold db_unique.
  destruct q as [rows|rows|rows|k| |h]; cbn [run_query].
  - destruct (insert_on_conflict _ _ _ _) as [t|] eqn:Hinsert; [|done].
    apply insert_on_conflict_Some in Hinsert as (_ & _ & ->).
    intros [= <-]. cbn. split_and!; [|done..]. by apply unique_upsert_all.
  - destruct (insert_on_conflict _ _ _ _) as [t|] eqn:Hinsert; [|done].
    apply insert_on_conflict_Some in Hinsert as (_ & _ & ->).
    intros [= <-]. cbn. split_and!; [done| |done]. by apply unique_upsert_all.
  - destruct (mapM numericTotal rows) as [rows'|]; [|done]. cbn [mbind option_bind].
    destruct (insert_on_conflict _ _ _ _) as [t|] eqn:Hinsert; [|done].
    apply insert_on_conflict_Some in Hinsert as (_ & _ & ->).
    intros [= <-]. cbn. split_and!; [done..|]. by apply unique_upsert_all.
  - intros [= <-]. cbn. split_and!; [|done..]. by apply unique_delete_pk.
  - intros [= <-]. cbn. split_and!; [|done..]. apply NoDup_nil_2.
  - intros [= <-]. cbn. split_and!; [|done..].
    unfold unique_pk. eapply sublist_NoDup; [exact He|]. apply fmap_sublist, sublist_filter.
Qed.

Lemma raw_unique q s : db_unique (tables s) -> db_unique (tables (after (raw q) s)).
Proof.
  intros Hs. unfold after, raw.
  destruct (run_query (clock s) q (tables s)) as [d'|] eqn:Hq; [|done].
  by eapply run_query_unique.
Qed.

Lemma bind_unique {A B} (c : Store A) (k : A -> Store B) s :
  (forall s, db_unique (tables s) -> db_unique (tables (after c s))) ->
  (forall a s, db_unique (tables s) -> db_unique (tables (after (k a) s))) ->
  db_unique (tables s) -> db_unique (tables (after (bind c k) s)).
Proof.
  intros Hc Hk Hs. unfold after, bind. specialize (Hc s Hs). unfold after in Hc.
  destruct (c s) as [[a|e] s']; [by apply Hk | done].
Qed.

Lemma run_operation_unique localeCompare op s :
  db_unique (tables s) -> db_unique (tables (after (run_operation localeCompare op) s)).
Proof.
  destruct op as [[metrics|metrics]|key| |h]; cbn [run_operation run_write];
    try apply raw_unique.
  - unfold batchInsertMetrics. destruct (blank metrics); [done|].
    apply bind_unique; [apply raw_unique|]. intros _ s'.
    case_decide; [apply raw_unique | done].
  - unfold batchInsertTotalMetrics. destruct (blank metrics); [done | apply raw_unique].
Qed.

Lemma db_grows_refl d : db_grows d d.
Proof. unfold db_grows. split_and!; apply grows_refl. Qed.

Lemma db_grows_trans d1 d2 d3 : db_grows d1 d2 -> db_grows d2 d3 -> db_grows d1 d3.
Proof.
  intros (?&?&?&?) (?&?&?&?). unfold db_grows. split_and!; by eapply grows_trans.
Qed.

Lemma sortedRows_nonneg localeCompare metrics :
  Forall valid_metric metrics ->
  Forall (fun x => 0 <= EnvRow.yes x /\ 0 <= EnvRow.no x) (sortedRows localeCompare metrics).
Proof.
  intros Hvalid. apply Forall_forall. intros r Hr.
  apply elem_of_sortedRows in Hr as (m & Hm & ->). simpl.
  rewrite (collapseHourlyMetrics_yes _ _ Hm), (collapseHourlyMetrics_no _ _ Hm).
  split; apply batch_sum_nonneg; eapply Forall_impl; try exact Hvalid;
    intros x (? & ? & _); done.
Qed.

Lemma variant_entries_nonneg metrics :
  Forall valid_metric metrics ->
  Forall (fun v => 0 <= VariantMetric.count v) (metrics ≫= variant_entries).
Proof.
  intros Hvalid. apply Forall_forall. intros v Hv.
  apply list_elem_of_bind in Hv as (m & Hv & Hm).
  rewrite Forall_forall in Hvalid. destruct (Hvalid m Hm) as (_ & _ & Hvs).
  unfold variant_entries in Hv. destruct (Metric.variants m) as [vs|].
  - apply list_elem_of_fmap in Hv as (vc & -> & Hvc). simpl.
    rewrite Forall_forall in Hvs. by apply Hvs.
  - by apply elem_of_nil in Hv.
Qed.

Lemma sortedVariantRows_nonneg localeCompare metrics :
  Forall valid_metric metrics ->
  Forall (fun x => 0 <= VariantRow.count x) (sortedVariantRows localeCompare metrics).
Proof.
  intros Hvalid. apply Forall_forall. intros r Hr.
  apply elem_of_sortedVariantRows in Hr as (v & Hv & ->). simpl.
  rewrite (spreadVariants_count _ _ Hv).
  by apply batch_sum_nonneg, variant_entries_nonneg.
Qed.

Lemma run_write_grows localeCompare w s :
  valid_write w -> db_grows (tables s) (tables (after (run_write localeCompare w) s)).
Proof.
  destruct w as [[[|m metrics]|]|[[|m metrics]|]]; cbn [run_write valid_write];
    try (intros _; apply db_grows_refl).
  - change (default [] (Some (m :: metrics))) with (m :: metrics). intros Hvalid.
    unfold after. rewrite batchInsertMetrics_run. cbn [snd tables]. unfold db_grows.
    cbn [client_metrics_env client_metrics_env_variants client_metrics_total].
    pose proof (sortedRows_nonneg localeCompare _ Hvalid) as Hrows.
    pose proof (sortedVariantRows_nonneg localeCompare _ Hvalid) as Hvrows.
    split_and!.
    + apply grows_upsert_all; [apply env_on_conflict_pk|].
      eapply Forall_impl; [exact Hrows|]. intros x [Hx _] r. simpl. lia.
    + apply grows_upsert_all; [apply env_on_conflict_pk|].
      eapply Forall_impl; [exact Hrows|]. intros x [_ Hx] r. simpl. lia.
    + apply grows_upsert_all; [apply variant_on_conflict_pk|].
      eapply Forall_impl; [exact Hvrows|]. intros x Hx r. simpl in *. lia.
    + apply grows_refl.
  - change (default [] (Some (m :: metrics))) with (m :: metrics). intros Hvalid.
    unfold after.
    destruct (batchInsertTotalMetrics_settles localeCompare m metrics s)
      as [(rows & Hrows & _ & _ & ->)| ->]; [|apply db_grows_refl].
    cbn [snd tables]. unfold db_grows.
    cbn [client_metrics_env client_metrics_env_variants client_metrics_total].
    split_and!; try apply grows_refl.
    apply grows_upsert_all; [apply total_on_conflict_pk|].
    apply mapM_numericTotal_Some in Hrows as [-> _]. apply Forall_fmap.
    eapply Forall_impl; [by apply sortedTotalRows_nonneg|]. intros x Hx r. simpl in *. lia.
Qed.

(** C3.  Every state-changing method of the store keeps at most one row
    per primary key in each of the three tables, along any sequence of
    calls; and along any sequence of batch writes of valid events every
    stored row stays, with yes, no, count and total no smaller than
    before. *)
Theorem invariants_preserved localeCompare :
  (forall ops s,
     db_unique (tables s) ->
     db_unique (tables (foldl (fun s op => after (run_operation localeCompare op) s) s ops))) /\
  (forall ws s,
     Forall valid_write ws ->
     db_grows (tables s)
       (tables (foldl (fun s w => after (run_write localeCompare w) s) s ws))).
Proof.
  split.
  - intros ops. induction ops as [|op ops IH]; intros s Hs; simpl; [done|].
    apply IH. by apply run_operation_unique.
  - intros ws. induction ws as [|w ws IH]; intros s Hws; simpl.
    + apply db_grows_refl.
    + apply Forall_cons in Hws as [Hw Hws].
      eapply db_grows_trans; [by apply run_write_grows | by apply IH].
Qed.

Lemma invariants_preserved_witness :
  let m := Metric.mk "f1" "a1" "prod" 3600005 3 1 (Some [("A", 2)]) in
  let m' := Metric.mk "f1" "a1" "prod" 3600009 5 0 (Some [("A", 1); ("B", 4)]) in
  let s := mkSession (mkDb [EnvRow.mk "f1" "a1" "prod" 3600000 1 1] [] [TotalRow.mk "f1" "prod" 2])
             7200000 [] in
  let ws := [BatchInsertMetrics (Some [m; m']); BatchInsertTotalMetrics (Some [m; m'])] in
  (db_unique (tables s) /\
   db_unique (tables (foldl (fun s op => after (run_operation codeCompare op) s) s
                        ((Write <$> ws) ++ [ClearMetrics 1])))) /\
  (Forall valid_write ws /\
   db_grows (tables s) (tables (foldl (fun s w => after (run_write codeCompare w) s) s ws))).
Proof.
  intros m m' s ws.
  assert (Hs : db_unique (tables s)).
  { unfold db_unique, unique_pk. simpl. split_and!;
      [apply NoDup_singleton | apply NoDup_nil_2 | apply NoDup_singleton]. }
  assert (Hws : Forall valid_write ws).
  { repeat constructor; simpl; lia. }
  split; split; [exact Hs | | exact Hws | ].
  - apply (proj1 (invariants_preserved codeCompare)). exact Hs.
  - apply (proj2 (invariants_preserved codeCompare)). exact Hws.
Defined.

(** ** Order of the submitted rows *)

(** C4 (amended).  For a consistent [localeCompare], every row sequence
    [batchInsertMetrics] submits is sorted by the comparator of the code:
    lexicographic on feature, app and environment for the hourly rows, and
    on feature, app, environment and variant for the variant rows.  The
    timestamp is not part of either order. *)
Theorem submitted_rows_sorted localeCompare m metrics s :
  consistent localeCompare ->
  sent (after (batchInsertMetrics localeCompare (Some (m :: metrics))) s) =
    sent s ++ metricsQueries localeCompare (m :: metrics) /\
  (forall rows, InsertMetrics rows ∈ metricsQueries localeCompare (m :: metrics) ->
     sorted_by (compareRows localeCompare) rows) /\
  (forall rows, InsertVariants rows ∈ metricsQueries localeCompare (m :: metrics) ->
     sorted_by (compareVariantRows localeCompare) rows).
Proof.
  intros Hc. unfold after. rewrite batchInsertMetrics_run. cbn [snd sent].
  split_and!; [done | |]; intros rows Hrows; unfold metricsQueries in Hrows.
  - apply elem_of_cons in Hrows as [[= ->]|Hrows].
    + by apply sort_sorted, consistent_compareRows.
    + case_decide; [apply list_elem_of_singleton in Hrows; done | by apply elem_of_nil in Hrows].
  - apply elem_of_cons in Hrows as [Hrows|Hrows]; [done|].
    case_decide; [|by apply elem_of_nil in Hrows].
    apply list_elem_of_singleton in Hrows as [= ->].
    by apply sort_sorted, consistent_compareVariantRows.
Qed.

Lemma submitted_rows_sorted_witness :
  let m := Metric.mk "f1" "a1" "prod" 3600005 3 1 (Some [("B", 2)]) in
  let m' := Metric.mk "f1" "a0" "prod" 3600009 5 0 (Some [("A", 1)]) in
  consistent codeCompare /\
  sorted_by (compareRows codeCompare)
    [EnvRow.mk "f1" "a0" "prod" 3600000 5 0; EnvRow.mk "f1" "a1" "prod" 3600000 3 1].
Proof.
  intros m m'. split; [exact codeCompare_consistent|].
  apply (submitted_rows_sorted codeCompare m [m'] (fresh 0) codeCompare_consistent).
  left.
Defined.

(** C4 as stated fails: the comparators leave the timestamp out.  Two
    events of one feature, app and environment, the later hour first: the
    hourly rows are submitted later hour first, and the variant rows are
    submitted by variant name, later hour first; neither sequence is sorted
    by its primary-key tuple. *)
Lemma submitted_rows_not_sorted_by_primary_key :
  let batch := [Metric.mk "f" "a" "e" 7200000 1 0 (Some [("A", 1)]);
                Metric.mk "f" "a" "e" 3600000 1 0 (Some [("B", 1)])] in
  metricsQueries codeCompare batch =
    [InsertMetrics [EnvRow.mk "f" "a" "e" 7200000 1 0; EnvRow.mk "f" "a" "e" 3600000 1 0];
     InsertVariants [VariantRow.mk "f" "a" "e" 7200000 "A" 1;
                     VariantRow.mk "f" "a" "e" 3600000 "B" 1]] /\
  ~ sorted_by (compareEnvPk codeCompare) (sortedRows codeCompare batch) /\
  ~ sorted_by (compareVariantPk codeCompare) (sortedVariantRows codeCompare batch).
Proof.
  intros batch. split_and!.
  - reflexivity.
  - intros Hs. apply StronglySorted_cons in Hs as [Hs _].
    apply Forall_cons in Hs as [Hs _]. by vm_compute in Hs.
  - intros Hs. apply StronglySorted_cons in Hs as [Hs _].
    apply Forall_cons in Hs as [Hs _]. by vm_compute in Hs.
Qed.

(** ** Retention *)

(** C5 (amended).  [clearMetrics hoursAgo] resolves and leaves exactly the
    hourly rows whose timestamp is strictly newer than now minus
    [hoursAgo] hours, each as it was and in the same order; no row at or
    before that boundary remains.  Variant and total rows are not
    touched. *)
Theorem clearMetrics_retention hoursAgo s :
  let s1 := after (clearMetrics hoursAgo) s in
  let boundary := clock s - hoursAgo * msPerHour in
  (clearMetrics hoursAgo s).1 = Ok tt /\
  (forall r, r ∈ client_metrics_env (tables s1) <->
             r ∈ client_metrics_env (tables s) /\ boundary < EnvRow.timestamp r) /\
  client_metrics_env (tables s1) `sublist_of` client_metrics_env (tables s) /\
  client_metrics_env_variants (tables s1) = client_metrics_env_variants (tables s) /\
  client_metrics_total (tables s1) = client_metrics_total (tables s).
Proof.
  intros s1 boundary. subst s1 boundary. unfold after, clearMetrics, raw.
  cbn [run_query fst snd tables client_metrics_env client_metrics_env_variants
         client_metrics_total].
  split_and!; [done | | apply sublist_filter | done | done].
  intros r. rewrite list_elem_of_filter. unfold at_or_before. split.
  - intros [Hts Hr]. split; [done | lia].
  - intros [Hr Hts]. split; [lia | done].
Qed.

(** C5 as stated fails at the boundary: with the clock at 48 hours, the row
    of hour 0 is exactly 48 hours old, and [clearMetrics 48] deletes it. *)
Lemma clearMetrics_deletes_boundary_row :
  let r := EnvRow.mk "f" "a" "e" 0 1 0 in
  let s := mkSession (mkDb [r; EnvRow.mk "f" "a" "e" 3600000 2 0] [] []) 172800000 [] in
  EnvRow.timestamp r = clock s - 48 * msPerHour /\
  r ∈ client_metrics_env (tables s) /\
  client_metrics_env (tables (after (clearMetrics 48) s)) = [EnvRow.mk "f" "a" "e" 3600000 2 0] /\
  r ∉ client_metrics_env (tables (after (clearMetrics 48) s)).
Proof.
  intros r s. split_and!; [reflexivity | left | reflexivity |].
  intros Hr. apply list_elem_of_singleton in Hr. discriminate Hr.
Qed.

(** * The query surface *)

(** ** The token reducer *)

Section reducer.
Variable showDate : Z -> string.

(** A row whose key is new: a token with an empty variants mapping. *)
Lemma variantRowReducer_new acc r :
  obj_get (tokenKey showDate r) acc = None ->
  variantRowReducer showDate acc (TokenRow.mk r None) =
  obj_set (tokenKey showDate r)
    (Metric.mk (EnvRow.feature_name r) (EnvRow.app_name r) (EnvRow.environment r)
       (EnvRow.timestamp r) (EnvRow.yes r) (EnvRow.no r) (Some [])) acc.
Proof.
  intros Hget. unfold variantRowReducer. cbn [TokenRow.row TokenRow.variant_count].
  fold (tokenKey showDate r). by rewrite Hget.
Qed.

(** A row with a variant whose key is taken: the variant goes into the
    token that is already there. *)
Lemma variantRowReducer_merge acc r token variant count :
  obj_get (tokenKey showDate r) acc = Some token ->
  variant <> "" ->
  variantRowReducer showDate acc (TokenRow.mk r (Some (variant, count))) =
  obj_set (tokenKey showDate r)
    (Metric.mk (Metric.featureName token) (Metric.appName token) (Metric.environment token)
       (Metric.timestamp token) (Metric.yes token) (Metric.no token)
       (Some (obj_assign variant count (default [] (Metric.variants token))))) acc.
Proof.
  intros Hget Hv. unfold variantRowReducer. cbn [TokenRow.row TokenRow.variant_count].
  fold (tokenKey showDate r). rewrite !Hget. by rewrite decide_False.
Qed.

(** A row without a variant whose key is taken changes nothing. *)
Lemma variantRowReducer_seen acc r token :
  obj_get (tokenKey showDate r) acc = Some token ->
  variantRowReducer showDate acc (TokenRow.mk r None) = acc.
Proof.
  intros Hget. unfold variantRowReducer. cbn [TokenRow.row TokenRow.variant_count].
  fold (tokenKey showDate r). by rewrite Hget.
Qed.

(** The property names of the reducer are never inherited names, so that
    [acc[key]] is an own property of [acc] or undefined. *)
Lemma tokenKey_own r : tokenKey showDate r ∉ "__proto__" :: Object_prototype_functions.
Proof.
  intros Hin. apply inherited_names_underscores in Hin. unfold tokenKey in Hin.
  rewrite !count_char_app in Hin. change (count_char "_" "_") with 1%nat in Hin. lia.
Qed.

End reducer.

(** C6 (evaluation at the failing input).  Two hourly records of feature f
    in the same hour with the same yes and no, one of app a_b in
    environment c and one of app a in environment b_c, get the same property
    name f_a_b_c_..., so the read returns one object for two distinct
    (feature, app, environment, hour) tuples, and the variant of the second
    record is filed under the first. *)
Theorem token_key_merges_distinct_records showDate :
  let r1 := EnvRow.mk "f" "a_b" "c" 0 1 0 in
  let r2 := EnvRow.mk "f" "a" "b_c" 0 1 0 in
  let d := mkDb [r1; r2] [VariantRow.mk "f" "a" "b_c" 0 "A" 3] [] in
  env_pk r1 <> env_pk r2 /\
  db_unique d /\
  getMetricsForFeatureToggle showDate 0 "f" 24 d =
    [Metric.mk "f" "a_b" "c" 0 1 0 (Some [("A", 3)])].
Proof.
  intros r1 r2 d. split_and!.
  - discriminate.
  - unfold db_unique, unique_pk. simpl. split_and!;
      [|apply NoDup_singleton | apply NoDup_nil_2].
    apply NoDup_cons. split; [|apply NoDup_singleton].
    intros Hin. apply list_elem_of_singleton in Hin. discriminate Hin.
  - unfold getMetricsForFeatureToggle, metricsTokens.
    set (rows := leftJoin _ _).
    assert (rows = [TokenRow.mk r1 None; TokenRow.mk r2 (Some ("A", 3))]) as -> by reflexivity.
    cbn [foldl]. rewrite variantRowReducer_new by reflexivity. cbn [obj_set].
    change (tokenKey showDate r1) with (tokenKey showDate r2).
    erewrite variantRowReducer_merge; [|apply obj_get_head | discriminate].
    rewrite obj_set_head. reflexivity.
Qed.

(** * Compaction *)

Lemma sortedVariantRows_origin localeCompare metrics v :
  v ∈ sortedVariantRows localeCompare metrics ->
  exists e vs vc,
    e ∈ metrics /\ Metric.variants e = Some vs /\ vc ∈ vs /\
    variant_pk v =
    (Metric.featureName e, Metric.appName e, Metric.environment e,
     startOfHour (Metric.timestamp e), vc.1).
Proof.
  intros Hv. apply elem_of_sortedVariantRows in Hv as (x & Hx & ->).
  rewrite variant_pk_toVariantRow.
  assert (Hk : variant_bucket x ∈ variant_bucket <$> spreadVariants metrics)
    by by apply list_elem_of_fmap_2.
  apply (proj1 (spreadVariants_keys _ _)), list_elem_of_fmap in Hk as (y & -> & Hy).
  apply list_elem_of_bind in Hy as (e & Hy & He).
  unfold variant_entries in Hy. destruct (Metric.variants e) as [vs|] eqn:Hvs.
  - apply list_elem_of_fmap in Hy as (vc & -> & Hvc).
    exists e, vs, vc. split_and!; [done..|].
    unfold variant_bucket. simpl. by rewrite startOfHour_idemp.
  - by apply elem_of_nil in Hy.
Qed.

(** C7.  For a batch that is not blank, [batchInsertMetrics] sends the
    statements of [metricsQueries].  Every hourly row and every variant row
    in them carries the feature, app and environment of an event of the
    batch and, as timestamp, the start of the hour that contains that
    event's timestamp.  No two hourly rows share a key, every event's key
    has its row, and the yes and no of a row are the sums of the yes and no
    of the events whose floored key is the row's. *)
Theorem compaction_correct localeCompare m metrics s :
  let batch := m :: metrics in
  sent (after (batchInsertMetrics localeCompare (Some batch)) s) =
    sent s ++ metricsQueries localeCompare batch /\
  (forall r, r ∈ sortedRows localeCompare batch ->
     (exists e, e ∈ batch /\ env_pk r = metric_bucket e /\
                EnvRow.timestamp r mod msPerHour = 0 /\
                EnvRow.timestamp r <= Metric.timestamp e < EnvRow.timestamp r + msPerHour) /\
     EnvRow.yes r = batch_sum metric_bucket Metric.yes (env_pk r) batch /\
     EnvRow.no r = batch_sum metric_bucket Metric.no (env_pk r) batch) /\
  (forall v, v ∈ sortedVariantRows localeCompare batch ->
     exists e, e ∈ batch /\
       VariantRow.feature_name v = Metric.featureName e /\
       VariantRow.app_name v = Metric.appName e /\
       VariantRow.environment v = Metric.environment e /\
       VariantRow.timestamp v mod msPerHour = 0 /\
       VariantRow.timestamp v <= Metric.timestamp e < VariantRow.timestamp v + msPerHour) /\
  NoDup (env_pk <$> sortedRows localeCompare batch) /\
  (forall e, e ∈ batch -> metric_bucket e ∈ env_pk <$> sortedRows localeCompare batch).
Proof.
  intros batch. subst batch. split_and!.
  - unfold after. by rewrite batchInsertMetrics_run.
  - intros r Hr. apply elem_of_sortedRows in Hr as (x & Hx & ->).
    rewrite env_pk_toRow. split_and!.
    + assert (Hk : metric_bucket x ∈ metric_bucket <$> collapseHourlyMetrics (m :: metrics))
        by by apply list_elem_of_fmap_2.
      apply (proj1 (collapseHourlyMetrics_keys _ _)), list_elem_of_fmap in Hk as (e & Hk & He).
      exists e. split; [done|]. split; [done|].
      replace (EnvRow.timestamp (toRow x)) with (startOfHour (Metric.timestamp e))
        by (unfold metric_bucket in Hk; simpl; congruence).
      split; [apply startOfHour_aligned | apply startOfHour_contains].
    + by apply collapseHourlyMetrics_yes.
    + by apply collapseHourlyMetrics_no.
  - intros v Hv. apply sortedVariantRows_origin in Hv as (e & vs & vc & He & _ & _ & Hpk).
    exists e. unfold variant_pk in Hpk. injection Hpk as Hf Ha Henv Hts _.
    rewrite Hts. repeat (split; [done|]).
    split; [apply startOfHour_aligned | apply startOfHour_contains].
  - apply sortedRows_distinct.
  - intros e He. unfold sortedRows. rewrite sort_fmap_perm, <- list_fmap_compose.
    apply collapseHourlyMetrics_keys. by apply list_elem_of_fmap_2.
Qed.

(** * Windowed reads *)

Lemma at_or_after_boundary now hoursBack : at_or_after now hoursBack (now - hoursBack * msPerHour).
Proof. unfold at_or_after. lia. Qed.

Lemma at_or_after_one_second_older now hoursBack :
  ~ at_or_after now hoursBack (now - hoursBack * msPerHour - msPerSecond).
Proof. unfold at_or_after, msPerSecond. lia. Qed.

Lemma filter_drop_rejected {A} (P : A -> Prop) `{forall x, Decision (P x)} l1 x l2 :
  ~ P x -> filter P (l1 ++ x :: l2) = filter P (l1 ++ l2).
Proof. intros Hx. by rewrite !filter_app, filter_cons_False. Qed.

(** C8 (evaluation at the failing input).  Two hourly records of feature f
    with the same yes and no, both exactly 24 hours old: one of app a_b in
    environment c and one of app a in environment b_c.  The window selects
    both, and [getSeenAppsForFeatureToggle] lists both apps.  But
    [variantRowReducer] files both under the property name f_a_b_c_..., so
    [getMetricsForFeatureToggle] returns one object, that of the first
    record: the second record, exactly [hoursBack] hours old, is not in
    the result. *)
Theorem boundary_record_lost_in_merge showDate :
  let now := 24 * msPerHour in
  let r1 := EnvRow.mk "f" "a_b" "c" 0 1 0 in
  let r2 := EnvRow.mk "f" "a" "b_c" 0 1 0 in
  let d := mkDb [r1; r2] [] [] in
  db_unique d /\
  EnvRow.timestamp r2 = now - 24 * msPerHour /\
  windowRows now "f" 24 d = [r1; r2] /\
  getSeenAppsForFeatureToggle codeCompare now "f" 24 d = ["a"; "a_b"] /\
  getMetricsForFeatureToggle showDate now "f" 24 d =
    [Metric.mk "f" "a_b" "c" 0 1 0 (Some [])] /\
  (forall metric,
     metric ∈ getMetricsForFeatureToggle showDate now "f" 24 d ->
     Metric.appName metric <> EnvRow.app_name r2 /\
     Metric.environment metric <> EnvRow.environment r2).
Proof.
  intros now r1 r2 d.
  assert (Hread : getMetricsForFeatureToggle showDate now "f" 24 d =
                  [Metric.mk "f" "a_b" "c" 0 1 0 (Some [])]).
  { unfold getMetricsForFeatureToggle, metricsTokens.
    set (rows := leftJoin _ _).
    assert (rows = [TokenRow.mk r1 None; TokenRow.mk r2 None]) as -> by reflexivity.
    cbn [foldl]. rewrite (variantRowReducer_new showDate [] r1) by reflexivity. cbn [obj_set].
    change (tokenKey showDate r1) with (tokenKey showDate r2).
    by erewrite variantRowReducer_seen by apply obj_get_head. }
  split_and!; [| reflexivity | reflexivity | reflexivity | exact Hread |].
  - unfold db_unique, unique_pk. simpl. split_and!; [|apply NoDup_nil_2..].
    apply NoDup_cons. split; [|apply NoDup_singleton].
    intros Hin. apply list_elem_of_singleton in Hin. discriminate Hin.
  - intros metric Hin. rewrite Hread in Hin. apply list_elem_of_singleton in Hin as ->.
    split; discriminate.
Qed.

(** * Blank batches *)

(** C9.  On a null, undefined or empty metrics sequence both batch writers
    resolve at once: no statement is sent and the session, so each of the
    three tables, is as before.  When a batch yields no variant row,
    [batchInsertMetrics] sends the hourly insert alone and the variant table
    is as before. *)
Theorem blank_batch_is_noop localeCompare s :
  batchInsertMetrics localeCompare None s = (Ok tt, s) /\
  batchInsertMetrics localeCompare (Some []) s = (Ok tt, s) /\
  batchInsertTotalMetrics localeCompare None s = (Ok tt, s) /\
  batchInsertTotalMetrics localeCompare (Some []) s = (Ok tt, s) /\
  (forall m metrics,
     spreadVariants (m :: metrics) = [] ->
     let s1 := after (batchInsertMetrics localeCompare (Some (m :: metrics))) s in
     sent s1 = sent s ++ [InsertMetrics (sortedRows localeCompare (m :: metrics))] /\
     client_metrics_env_variants (tables s1) = client_metrics_env_variants (tables s)).
Proof.
  split_and!; try reflexivity.
  intros m metrics Hnone s1. subst s1. unfold after.
  rewrite batchInsertMetrics_run. cbn [snd sent tables client_metrics_env_variants].
  unfold metricsQueries, sortedVariantRows. rewrite Hnone. by split.
Qed.

Lemma blank_batch_is_noop_witness :
  let m := Metric.mk "f" "a" "e" 3600005 1 2 None in
  let s1 := after (batchInsertMetrics codeCompare (Some [m])) (fresh 0) in
  spreadVariants [m] = [] /\
  sent s1 = [InsertMetrics [EnvRow.mk "f" "a" "e" 3600000 1 2]] /\
  client_metrics_env_variants (tables s1) = [].
Proof.
  intros m s1. split; [reflexivity|].
  apply (proj2 (proj2 (proj2 (proj2 (blank_batch_is_noop codeCompare (fresh 0))))) m []).
  reflexivity.
Defined.

(** * Point lookup *)

Lemma get_lookup key d :
  get key d =
  match lookup_pk env_pk (lookupKey key) (client_metrics_env d) with
  | Some row => Ok (fromRow row)
  | None => Err NotFoundError
  end.
Proof. reflexivity. Qed.

Lemma on_the_hour_startOfHour t : on_the_hour t <-> startOfHour t = t.
Proof. unfold on_the_hour, startOfHour. lia. Qed.

(** C10 (amended).  On a table with at most one row per key, [get]
    resolves exactly when a row is stored under the feature, app and
    environment of the key at the start of the hour of the key's timestamp;
    it then resolves with the feature, app, environment, timestamp, yes and
    no of that row, and no variants.  It rejects, with NotFound, exactly
    when no row is stored there.  For a key whose timestamp is on the hour
    this is the row stored at exactly that key.  [exists_] is a boolean:
    true exactly when [get] resolves and false exactly when it rejects. *)
Theorem point_lookup key d :
  let hour := startOfHour (MetricKey.timestamp key) in
  let stored yes no :=
    EnvRow.mk (MetricKey.featureName key) (MetricKey.appName key) (MetricKey.environment key)
      hour yes no in
  unique_pk env_pk (client_metrics_env d) ->
  (forall metric,
     get key d = Ok metric <->
     exists yes no,
       stored yes no ∈ client_metrics_env d /\
       metric = Metric.mk (MetricKey.featureName key) (MetricKey.appName key)
                  (MetricKey.environment key) hour yes no None) /\
  (forall e,
     get key d = Err e <->
     e = NotFoundError /\ ~ exists yes no, stored yes no ∈ client_metrics_env d) /\
  (on_the_hour (MetricKey.timestamp key) ->
   forall metric,
     get key d = Ok metric <->
     exists r, r ∈ client_metrics_env d /\ keyOfRow r = key /\
       metric = Metric.mk (EnvRow.feature_name r) (EnvRow.app_name r) (EnvRow.environment r)
                  (EnvRow.timestamp r) (EnvRow.yes r) (EnvRow.no r) None) /\
  (exists_ key d = true <-> exists metric, get key d = Ok metric) /\
  (exists_ key d = false <-> get key d = Err NotFoundError).
Proof.
  intros hour stored Huniq.
  assert (Hkey : forall r, env_pk r = lookupKey key <-> r = stored (EnvRow.yes r) (EnvRow.no r)).
  { intros [f a e t y n]. unfold env_pk, lookupKey, stored, hour. simpl.
    split; [by intros [= -> -> -> ->] | by intros [= -> -> -> ->]]. }
  assert (Hget : forall metric,
            get key d = Ok metric <->
            exists yes no,
              stored yes no ∈ client_metrics_env d /\
              metric = Metric.mk (MetricKey.featureName key) (MetricKey.appName key)
                         (MetricKey.environment key) hour yes no None).
  { intros metric. rewrite get_lookup. split.
    - destruct (lookup_pk env_pk (lookupKey key) (client_metrics_env d)) as [row|] eqn:Hrow;
        [|done].
      intros [= <-]. apply lookup_pk_Some in Hrow as [Hin Hk]. apply Hkey in Hk.
      exists (EnvRow.yes row), (EnvRow.no row). rewrite <- Hk. split; [done|].
      rewrite Hk. reflexivity.
    - intros (yes & no & Hin & ->).
      by rewrite (lookup_pk_unique env_pk (lookupKey key) _ (stored yes no) Huniq Hin). }
  assert (Herr : get key d = Err NotFoundError <->
                 ~ exists yes no, stored yes no ∈ client_metrics_env d).
  { rewrite get_lookup.
    destruct (lookup_pk env_pk (lookupKey key) (client_metrics_env d)) as [row|] eqn:Hrow.
    - apply lookup_pk_Some in Hrow as [Hin Hk]. apply Hkey in Hk.
      split; [done|]. intros Hno. destruct Hno. exists (EnvRow.yes row), (EnvRow.no row).
      by rewrite <- Hk.
    - split; [|done]. intros _ (yes & no & Hin). apply lookup_pk_None in Hrow.
      apply Hrow. by apply (list_elem_of_fmap_2 env_pk) in Hin. }
  split_and!.
  - exact Hget.
  - intros e. split.
    + intros He. assert (e = NotFoundError) as ->.
      { rewrite get_lookup in He. destruct (lookup_pk _ _ _); [done | by injection He]. }
      split; [done | by apply Herr].
    + intros [-> Hno]. by apply Herr.
  - intros Hhour metric. rewrite Hget. apply on_the_hour_startOfHour in Hhour. split.
    + intros (yes & no & Hin & ->). exists (stored yes no). split; [done|].
      split; [|done]. unfold keyOfRow, stored, hour. simpl. rewrite Hhour. by destruct key.
    + intros (r & Hin & <- & ->). exists (EnvRow.yes r), (EnvRow.no r).
      unfold stored, hour, keyOfRow in *. simpl in *. rewrite Hhour.
      split; [by destruct r | done].
  - unfold exists_. destruct (get key d) as [metric|e]; split; try done.
    + by exists metric.
    + by intros [metric ?].
  - unfold exists_. destruct (get key d) as [metric|e] eqn:Hg; split; try done.
    intros _. f_equal. rewrite get_lookup in Hg.
    destruct (lookup_pk _ _ _); [done | by injection Hg].
Qed.

Lemma point_lookup_witness :
  let r := EnvRow.mk "f" "a" "e" 3600000 4 2 in
  let d := mkDb [EnvRow.mk "f" "a" "e" 0 1 1; r] [] [] in
  unique_pk env_pk (client_metrics_env d) /\
  get (MetricKey.mk "f" "a" "e" 3600123) d = Ok (Metric.mk "f" "a" "e" 3600000 4 2 None) /\
  get (MetricKey.mk "f" "a" "e" 7200000) d = Err NotFoundError /\
  exists_ (MetricKey.mk "f" "a" "e" 3600123) d = true.
Proof.
  intros r d.
  assert (Huniq : unique_pk env_pk (client_metrics_env d)).
  { unfold unique_pk. simpl. apply NoDup_cons. split; [|apply NoDup_singleton].
    intros Hin. apply list_elem_of_singleton in Hin. discriminate Hin. }
  split; [exact Huniq|]. split_and!.
  - apply (proj1 (point_lookup (MetricKey.mk "f" "a" "e" 3600123) d Huniq)).
    exists 4, 2. split; [right; left | reflexivity].
  - apply (proj1 (proj2 (point_lookup (MetricKey.mk "f" "a" "e" 7200000) d Huniq))).
    split; [reflexivity|]. intros (yes & no & Hin).
    apply elem_of_cons in Hin as [Hin|Hin]; [discriminate Hin|].
    apply list_elem_of_singleton in Hin. discriminate Hin.
  - apply (proj1 (proj2 (proj2 (proj2 (point_lookup (MetricKey.mk "f" "a" "e" 3600123) d Huniq))))).
    by eexists.
Defined.

(** C10 as stated fails for a key off the hour: [get] floors the timestamp
    of the key before it looks.  With one record stored at hour 3600000, no
    record exists at the key with timestamp 3600123, yet [get] resolves with
    the record of hour 3600000 instead of rejecting with NotFound, and
    [exists_] is true. *)
Lemma get_floors_the_key :
  let r := EnvRow.mk "f" "a" "e" 3600000 4 2 in
  let d := mkDb [r] [] [] in
  let key := MetricKey.mk "f" "a" "e" 3600123 in
  unique_pk env_pk (client_metrics_env d) /\
  (~ exists r', r' ∈ client_metrics_env d /\ keyOfRow r' = key) /\
  get key d = Ok (Metric.mk "f" "a" "e" 3600000 4 2 None) /\
  get key d <> Err NotFoundError /\
  exists_ key d = true.
Proof.
  intros r d key. split_and!; [apply NoDup_singleton | | reflexivity | discriminate | reflexivity].
  intros (r' & Hin & Hkey). apply list_elem_of_singleton in Hin as ->. discriminate Hkey.
Qed.

(** * Further properties of the store *)

(** ** Deleting *)

Section delete_lemmas.
Context {R K : Type} `{EqDecision K} (pk : R -> K).

Lemma lookup_delete_pk_eq k t : lookup_pk pk k (delete_pk pk k t) = None.
Proof.
  apply lookup_pk_None. unfold delete_pk. intros Hin.
  apply list_elem_of_fmap in Hin as (r & -> & Hr).
  apply list_elem_of_filter in Hr as [Hne _]. by apply Hne.
Qed.

Lemma lookup_delete_pk_ne k k' t :
  k' <> k -> lookup_pk pk k' (delete_pk pk k t) = lookup_pk pk k' t.
Proof.
  intros Hne. unfold delete_pk. induction t as [|r t IH]; [done|].
  rewrite filter_cons. destruct (decide (pk r <> k)) as [Hr|Hr]; simpl.
  - by rewrite IH.
  - rewrite IH. apply dec_stable in Hr. rewrite decide_False; [done|].
    rewrite Hr. by intros ->.
Qed.
End delete_lemmas.

(** X1.  [delete key] always resolves and sends one DELETE.  Afterwards
    [get key] rejects with NotFound and [exists key] is false, whatever was
    stored; a key of another feature, app, environment or hour is looked up
    as before; variant and total rows are not touched. *)
Theorem delete_then_lookup key s :
  let s1 := after (delete key) s in
  (delete key s).1 = Ok tt /\
  sent s1 = sent s ++ [DeleteMetric (lookupKey key)] /\
  get key (tables s1) = Err NotFoundError /\
  exists_ key (tables s1) = false /\
  (forall key', lookupKey key' <> lookupKey key ->
     get key' (tables s1) = get key' (tables s) /\
     exists_ key' (tables s1) = exists_ key' (tables s)) /\
  client_metrics_env_variants (tables s1) = client_metrics_env_variants (tables s) /\
  client_metrics_total (tables s1) = client_metrics_total (tables s).
Proof.
  intros s1. subst s1. unfold after, delete, raw. fold (lookupKey key).
  cbn [run_query fst snd tables sent client_metrics_env client_metrics_env_variants
         client_metrics_total].
  assert (Hget : get key
            (mkDb (delete_pk env_pk (lookupKey key) (client_metrics_env (tables s)))
               (client_metrics_env_variants (tables s)) (client_metrics_total (tables s))) =
          Err NotFoundError).
  { rewrite get_lookup. cbn [client_metrics_env]. by rewrite lookup_delete_pk_eq. }
  split_and!; [done | done | done | by unfold exists_; rewrite Hget | | done | done].
  intros key' Hne.
  assert (Hget' : get key'
            (mkDb (delete_pk env_pk (lookupKey key) (client_metrics_env (tables s)))
               (client_metrics_env_variants (tables s)) (client_metrics_total (tables s))) =
          get key' (tables s)).
  { rewrite !get_lookup. cbn [client_metrics_env]. by rewrite lookup_delete_pk_ne. }
  split; [done | by unfold exists_; rewrite Hget'].
Qed.

Lemma delete_then_lookup_witness :
  let r := EnvRow.mk "f" "a" "e" 3600000 4 2 in
  let r' := EnvRow.mk "f" "a" "e" 7200000 1 0 in
  let s := mkSession (mkDb [r; r'] [] []) 0 [] in
  let s1 := after (delete (MetricKey.mk "f" "a" "e" 3600999)) s in
  lookupKey (keyOfRow r') <> lookupKey (MetricKey.mk "f" "a" "e" 3600999) /\
  get (keyOfRow r') (tables s1) = get (keyOfRow r') (tables s).
Proof.
  intros r r' s s1. split; [discriminate|].
  by apply (delete_then_lookup (MetricKey.mk "f" "a" "e" 3600999) s).
Defined.

(** ** Listing *)

Section filter_lemmas.
Context {A : Type} (P : A -> Prop) `{!forall x, Decision (P x)}.

Lemma filter_none l : Forall (fun x => ~ P x) l -> filter P l = [].
Proof. induction 1; [done|]. by rewrite filter_cons_False. Qed.

Lemma filter_all l : Forall P l -> filter P l = l.
Proof. induction 1; [done|]. rewrite filter_cons_True by done. by f_equal. Qed.

Lemma filter_Forall (Q : A -> Prop) l : Forall Q l -> Forall Q (filter P l).
Proof.
  rewrite !Forall_forall. intros HQ x Hx. apply list_elem_of_filter in Hx as [_ Hx]. by apply HQ.
Qed.
End filter_lemmas.

Lemma where_whereOfKey key r : where_ (whereOfKey key) r <-> env_pk r = lookupKey key.
Proof.
  unfold where_, whereOfKey, env_pk, lookupKey. simpl. split.
  - intros (-> & -> & -> & -> & _). done.
  - intros [= -> -> -> ->]. done.
Qed.

Lemma filter_pk_unique {R K} `{EqDecision K} (pk : R -> K) k t :
  unique_pk pk t ->
  filter (fun r => pk r = k) t = option_list (lookup_pk pk k t).
Proof.
  unfold unique_pk. induction t as [|r t IH]; [done|].
  rewrite fmap_cons, NoDup_cons. intros [Hr Ht]. rewrite filter_cons. simpl.
  case_decide as Hk.
  - simpl. f_equal. apply filter_none, Forall_forall. intros x Hx Hxk.
    apply Hr. rewrite Hk, <- Hxk. by apply list_elem_of_fmap_2.
  - by apply IH.
Qed.

(** X3.  [getAll] with the default query lists every stored row, in
    table order; with any query it lists a sub-sequence of that.  On a table
    with at most one row per key it agrees with the point lookup: queried
    with the four key columns of [get] it returns the one record [get]
    resolves with, and nothing when [get] rejects. *)
Theorem getAll_lists_rows d :
  getAll emptyQuery d = fromRow <$> client_metrics_env d /\
  (forall query, getAll query d `sublist_of` getAll emptyQuery d) /\
  (unique_pk env_pk (client_metrics_env d) ->
   forall key,
     getAll (whereOfKey key) d =
     match get key d with
     | Ok metric => [metric]
     | Err _ => []
     end).
Proof.
  assert (Hall : getAll emptyQuery d = fromRow <$> client_metrics_env d).
  { unfold getAll. f_equal. apply filter_all, Forall_forall. intros r _.
    unfold where_, emptyQuery. by simpl. }
  split_and!; [done | |].
  - intros query. rewrite Hall. unfold getAll. apply fmap_sublist, sublist_filter.
  - intros Huniq key. unfold getAll.
    rewrite (list_filter_iff _ (fun r => env_pk r = lookupKey key))
      by (intros r; apply where_whereOfKey).
    rewrite filter_pk_unique by done. rewrite get_lookup.
    by destruct (lookup_pk env_pk (lookupKey key) (client_metrics_env d)).
Qed.

Lemma getAll_lists_rows_witness :
  let r := EnvRow.mk "f" "a" "e" 3600000 4 2 in
  let d := mkDb [EnvRow.mk "f" "a" "e" 0 1 1; r] [] [] in
  unique_pk env_pk (client_metrics_env d) /\
  getAll (whereOfKey (MetricKey.mk "f" "a" "e" 3600123)) d = [fromRow r].
Proof.
  intros r d.
  assert (Huniq : unique_pk env_pk (client_metrics_env d)).
  { unfold unique_pk. simpl. apply NoDup_cons. split; [|apply NoDup_singleton].
    intros Hin. apply list_elem_of_singleton in Hin. discriminate Hin. }
  split; [exact Huniq|].
  exact (proj2 (proj2 (getAll_lists_rows d)) Huniq (MetricKey.mk "f" "a" "e" 3600123)).
Defined.

(** ** Rows and records *)

(** X4.  Writing back what was read is the identity exactly on rows
    stored on the hour: [toRow (fromRow row)] is [row] if and only if the
    row's timestamp is on an hour boundary; otherwise the row moves to the
    start of its hour.  Reading back what was written keeps feature, app,
    environment, yes and no, floors the timestamp and forgets the
    variants. *)
Theorem row_round_trip :
  (forall row, toRow (fromRow row) = row <-> on_the_hour (EnvRow.timestamp row)) /\
  (forall row, env_pk (toRow (fromRow row)) =
               lookupKey (keyOfRow row) /\
               EnvRow.yes (toRow (fromRow row)) = EnvRow.yes row /\
               EnvRow.no (toRow (fromRow row)) = EnvRow.no row) /\
  (forall metric, fromRow (toRow metric) =
     Metric.mk (Metric.featureName metric) (Metric.appName metric) (Metric.environment metric)
       (startOfHour (Metric.timestamp metric)) (Metric.yes metric) (Metric.no metric) None) /\
  (forall metric, toRow (fromRow (toRow metric)) = toRow metric).
Proof.
  split_and!.
  - intros [f a e t y n]. unfold toRow, fromRow. simpl. rewrite on_the_hour_startOfHour.
    split; [by intros [= ->] | by intros ->].
  - done.
  - done.
  - intros metric. unfold toRow, fromRow. simpl. by rewrite startOfHour_idemp.
Qed.

(** ** Timestamps on the hour *)

Lemma Forall_upsert_row {R K} `{EqDecision K} (pk : R -> K) on_conflict (P : R -> Prop) x t :
  (forall r, P r -> P (on_conflict r x)) -> P x -> Forall P t ->
  Forall P (upsert_row pk on_conflict x t).
Proof.
  intros Hmerge Hx. induction 1 as [|r t Hr Ht IH]; simpl.
  - by apply Forall_singleton.
  - case_decide; apply Forall_cons; split; auto.
Qed.

Lemma Forall_upsert_all {R K} `{EqDecision K} (pk : R -> K) on_conflict (P : R -> Prop) rows t :
  (forall r x, P r -> P (on_conflict r x)) -> Forall P rows -> Forall P t ->
  Forall P (foldl (fun t x => upsert_row pk on_conflict x t) t rows).
Proof.
  intros Hmerge Hrows. revert t. induction Hrows as [|x rows Hx _ IH]; intros t Ht; simpl.
  - done.
  - apply IH. by apply Forall_upsert_row; [intros r; apply Hmerge | |].
Qed.

Lemma sortedRows_on_the_hour localeCompare metrics :
  Forall (fun r => on_the_hour (EnvRow.timestamp r)) (sortedRows localeCompare metrics).
Proof.
  apply Forall_forall. intros r Hr. apply elem_of_sortedRows in Hr as (m & _ & ->).
  apply startOfHour_aligned.
Qed.

Lemma sortedVariantRows_on_the_hour localeCompare metrics :
  Forall (fun r => on_the_hour (VariantRow.timestamp r)) (sortedVariantRows localeCompare metrics).
Proof.
  apply Forall_forall. intros r Hr. apply elem_of_sortedVariantRows in Hr as (m & _ & ->).
  apply startOfHour_aligned.
Qed.

Lemma run_operation_on_the_hour localeCompare op s :
  db_on_the_hour (tables s) ->
  db_on_the_hour (tables (after (run_operation localeCompare op) s)).
Proof.
  intros [Henv Hvar].
  destruct op as [[[[|m metrics]|]|[[|m metrics]|]]|key| |h]; cbn [run_operation run_write];
    try done.
  - unfold after. rewrite batchInsertMetrics_run. cbn [snd tables]. split; simpl.
    + apply Forall_upsert_all; [by intros r x | apply sortedRows_on_the_hour | done].
    + apply Forall_upsert_all; [by intros r x | apply sortedVariantRows_on_the_hour | done].
  - unfold after.
    by destruct (batchInsertTotalMetrics_settles localeCompare m metrics s)
      as [(rows & _ & _ & _ & ->)| ->].
  - split; [|done]. simpl. unfold delete_pk. by apply filter_Forall.
  - split; [|done]. simpl. by apply filter_Forall.
Qed.

(** X5.  The store keeps every timestamp on the hour: if all hourly and
    variant rows carry a timestamp on an hour boundary, they still do after
    any sequence of state-changing calls, whatever timestamps the events of
    the batches carry. *)
Theorem timestamps_stay_on_the_hour localeCompare ops s :
  db_on_the_hour (tables s) ->
  db_on_the_hour (tables (foldl (fun s op => after (run_operation localeCompare op) s) s ops)).
Proof.
  revert s. induction ops as [|op ops IH]; intros s Hs; simpl; [done|].
  by apply IH, run_operation_on_the_hour.
Qed.

Lemma timestamps_stay_on_the_hour_witness :
  let m := Metric.mk "f1" "a1" "prod" 3600005 3 1 (Some [("A", 2)]) in
  let s := mkSession (mkDb [EnvRow.mk "f1" "a1" "prod" 7200000 1 1] [] []) 9000000 [] in
  let ops := [Write (BatchInsertMetrics (Some [m])); Delete (keyOfMetric m)] in
  db_on_the_hour (tables s) /\
  db_on_the_hour (tables (foldl (fun s op => after (run_operation codeCompare op) s) s ops)).
Proof.
  intros m s ops.
  assert (Hs : db_on_the_hour (tables s)).
  { split; simpl; [|apply Forall_nil_2]. apply Forall_singleton. reflexivity. }
  split; [exact Hs|]. exact (timestamps_stay_on_the_hour codeCompare ops s Hs).
Defined.

(** X6.  [get] only ever resolves with a record on the hour, carrying the
    feature, app and environment asked for and the hour of the timestamp
    asked for; so a row stored off the hour is never returned.  On a table
    with at most one row per key, every row stored on the hour is returned
    by [get] under its own key, and [exists] is true for it. *)
Theorem get_finds_rows_on_the_hour d :
  (forall key metric,
     get key d = Ok metric ->
     on_the_hour (Metric.timestamp metric) /\
     Metric.featureName metric = MetricKey.featureName key /\
     Metric.appName metric = MetricKey.appName key /\
     Metric.environment metric = MetricKey.environment key /\
     Metric.timestamp metric = startOfHour (MetricKey.timestamp key) /\
     exists r, r ∈ client_metrics_env d /\ metric = fromRow r) /\
  (unique_pk env_pk (client_metrics_env d) ->
   forall r, r ∈ client_metrics_env d -> on_the_hour (EnvRow.timestamp r) ->
     get (keyOfRow r) d = Ok (fromRow r) /\ exists_ (keyOfRow r) d = true).
Proof.
  split.
  - intros key metric. rewrite get_lookup.
    destruct (lookup_pk env_pk (lookupKey key) (client_metrics_env d)) as [row|] eqn:Hrow;
      [|done].
    intros [= <-]. apply lookup_pk_Some in Hrow as [Hin Hk].
    unfold env_pk, lookupKey in Hk. injection Hk as Hf Ha He Ht.
    unfold fromRow. simpl. split_and!; [|done..|by exists row].
    rewrite Ht. apply startOfHour_aligned.
  - intros Huniq r Hr Hhour.
    assert (Hget : get (keyOfRow r) d = Ok (fromRow r)).
    { rewrite get_lookup. rewrite (lookup_pk_unique env_pk _ _ r Huniq Hr); [done|].
      unfold env_pk, lookupKey, keyOfRow. simpl.
      apply on_the_hour_startOfHour in Hhour. by rewrite Hhour. }
    split; [done|]. unfold exists_. by rewrite Hget.
Qed.

Lemma get_finds_rows_on_the_hour_witness :
  let r := EnvRow.mk "f" "a" "e" 3600000 4 2 in
  let d := mkDb [EnvRow.mk "f" "a" "e" 0 1 1; r] [] [] in
  (unique_pk env_pk (client_metrics_env d) /\ r ∈ client_metrics_env d /\
   on_the_hour (EnvRow.timestamp r)) /\
  get (keyOfRow r) d = Ok (fromRow r).
Proof.
  intros r d.
  assert (Huniq : unique_pk env_pk (client_metrics_env d)).
  { unfold unique_pk. simpl. apply NoDup_cons. split; [|apply NoDup_singleton].
    intros Hin. apply list_elem_of_singleton in Hin. discriminate Hin. }
  assert (Hr : r ∈ client_metrics_env d) by (right; left).
  assert (Hhour : on_the_hour (EnvRow.timestamp r)) by reflexivity.
  split; [by split_and!|].
  exact (proj1 (proj2 (get_finds_rows_on_the_hour d) Huniq r Hr Hhour)).
Defined.

(** ** What the batch writers leave alone *)

(** X7.  [batchInsertMetrics] never touches the total table and
    [batchInsertTotalMetrics] never touches the hourly or the variant
    table; neither changes the clock.  Whatever the batch (blank or not,
    valid or not), the first sends at most two statements and the second at
    most one, and no key present in a table before the call is missing
    after it: the writers never delete a record. *)
Theorem batch_writers_frame localeCompare metrics s :
  let s1 := after (batchInsertMetrics localeCompare metrics) s in
  let u1 := after (batchInsertTotalMetrics localeCompare metrics) s in
  (client_metrics_total (tables s1) = client_metrics_total (tables s) /\
   clock s1 = clock s /\
   (exists qs, sent s1 = sent s ++ qs /\ (length qs <= 2)%nat) /\
   (forall k, k ∈ env_pk <$> client_metrics_env (tables s) ->
              k ∈ env_pk <$> client_metrics_env (tables s1)) /\
   (forall k, k ∈ variant_pk <$> client_metrics_env_variants (tables s) ->
              k ∈ variant_pk <$> client_metrics_env_variants (tables s1))) /\
  (client_metrics_env (tables u1) = client_metrics_env (tables s) /\
   client_metrics_env_variants (tables u1) = client_metrics_env_variants (tables s) /\
   clock u1 = clock s /\
   (exists qs, sent u1 = sent s ++ qs /\ (length qs <= 1)%nat) /\
   (forall k, k ∈ total_pk <$> client_metrics_total (tables s) ->
              k ∈ total_pk <$> client_metrics_total (tables u1))).
Proof.
  intros s1 u1. subst s1 u1. unfold after.
  destruct metrics as [[|m metrics]|].
  - split; (split_and!; try done; try (intros k Hk; exact Hk);
            exists []; split; [by rewrite app_nil_r | simpl; lia]).
  - split.
    + rewrite batchInsertMetrics_run. cbn [snd tables clock sent client_metrics_env
        client_metrics_env_variants client_metrics_total].
      split_and!; [done | done | | |].
      * eexists. split; [done|]. unfold metricsQueries. case_decide; simpl; lia.
      * intros k. apply keys_upsert_all_mono, env_on_conflict_pk.
      * intros k. apply keys_upsert_all_mono, variant_on_conflict_pk.
    + destruct (batchInsertTotalMetrics_settles localeCompare m metrics s)
        as [(rows & _ & _ & _ & ->)| ->].
      * cbn [snd tables clock sent
          client_metrics_env client_metrics_env_variants client_metrics_total].
        split_and!; try done; [eexists; split; [done | simpl; lia]|].
        intros k. apply keys_upsert_all_mono, total_on_conflict_pk.
      * cbn [snd tables clock sent].
        split_and!; try done. eexists; split; [done | simpl; lia].
  - split; (split_and!; try done; try (intros k Hk; exact Hk);
            exists []; split; [by rewrite app_nil_r | simpl; lia]).
Qed.

(** ** Writing, then reading *)

Lemma stored_after_batchInsertMetrics localeCompare m metrics s e :
  e ∈ m :: metrics ->
  let k := metric_bucket e in
  lookup_pk env_pk k
    (client_metrics_env (tables (after (batchInsertMetrics localeCompare (Some (m :: metrics))) s))) =
  Some (EnvRow.mk (Metric.featureName e) (Metric.appName e) (Metric.environment e)
          (startOfHour (Metric.timestamp e))
          (counter_at env_pk EnvRow.yes k (client_metrics_env (tables s)) +
           batch_sum metric_bucket Metric.yes k (m :: metrics))
          (counter_at env_pk EnvRow.no k (client_metrics_env (tables s)) +
           batch_sum metric_bucket Metric.no k (m :: metrics))).
Proof.
  intros He k.
  assert (Hk : k ∈ env_pk <$> sortedRows localeCompare (m :: metrics)).
  { unfold sortedRows. rewrite sort_fmap_perm, <- list_fmap_compose.
    apply collapseHourlyMetrics_keys. by apply list_elem_of_fmap_2. }
  apply list_elem_of_fmap in Hk as (x & Hkx & Hx).
  pose proof Hx as Hsum. apply elem_of_sortedRows in Hsum as (m' & Hm' & ->).
  pose proof (collapseHourlyMetrics_yes _ _ Hm') as Hyes.
  pose proof (collapseHourlyMetrics_no _ _ Hm') as Hno.
  rewrite env_pk_toRow in Hkx. rewrite <- Hkx in Hyes, Hno.
  unfold after. rewrite batchInsertMetrics_run. cbn [snd tables client_metrics_env].
  rewrite Hkx, <- env_pk_toRow.
  rewrite (lookup_upsert_all_batch env_pk env_on_conflict env_on_conflict_pk _ _ _
             (sortedRows_distinct localeCompare _) Hx).
  rewrite env_pk_toRow, <- Hkx. unfold counter_at.
  destruct (lookup_pk env_pk k (client_metrics_env (tables s))) as [r|] eqn:Hr.
  - apply lookup_pk_Some in Hr as [_ Hrk]. unfold env_pk in Hrk. subst k.
    unfold metric_bucket in Hrk. injection Hrk as Hf Ha Henv Ht.
    unfold env_on_conflict. simpl. rewrite Hf, Ha, Henv, Ht. do 2 f_equal; simpl; lia.
  - subst k. unfold metric_bucket in Hkx. injection Hkx as Hf Ha Henv Ht.
    unfold toRow. simpl. rewrite <- Hf, <- Ha, <- Henv, <- Ht.
    do 2 f_equal; simpl in *; lia.
Qed.

(** X8.  After [batchInsertMetrics] of a batch, every event of the batch
    can be fetched under its own key: [exists] is true and [get] resolves
    with the record of the event's feature, app, environment and hour, whose
    yes and no are what was stored there before (zero if nothing was) plus
    the sums of yes and no over the events of the batch in that hour.
    (The compaction of the batch is [collapseHourlyMetrics] as modelled.) *)
Theorem insert_then_get localeCompare m metrics s e :
  e ∈ m :: metrics ->
  let s1 := after (batchInsertMetrics localeCompare (Some (m :: metrics))) s in
  let k := metric_bucket e in
  get (keyOfMetric e) (tables s1) =
    Ok (Metric.mk (Metric.featureName e) (Metric.appName e) (Metric.environment e)
          (startOfHour (Metric.timestamp e))
          (counter_at env_pk EnvRow.yes k (client_metrics_env (tables s)) +
           batch_sum metric_bucket Metric.yes k (m :: metrics))
          (counter_at env_pk EnvRow.no k (client_metrics_env (tables s)) +
           batch_sum metric_bucket Metric.no k (m :: metrics))
          None) /\
  exists_ (keyOfMetric e) (tables s1) = true.
Proof.
  intros He s1 k. subst s1.
  pose proof (stored_after_batchInsertMetrics localeCompare m metrics s e He) as Hstored.
  cbv zeta in Hstored. fold k in Hstored.
  unfold exists_. rewrite !get_lookup.
  change (lookupKey (keyOfMetric e)) with k. rewrite Hstored. by split.
Qed.

Lemma insert_then_get_witness :
  let m := Metric.mk "f1" "a1" "prod" 3600005 3 1 (Some [("A", 2)]) in
  let m' := Metric.mk "f1" "a1" "prod" 3600009 5 0 None in
  let s := mkSession (mkDb [EnvRow.mk "f1" "a1" "prod" 3600000 1 1] [] []) 7200000 [] in
  m' ∈ [m; m'] /\
  get (keyOfMetric m') (tables (after (batchInsertMetrics codeCompare (Some [m; m'])) s)) =
    Ok (Metric.mk "f1" "a1" "prod" 3600000 9 2 None).
Proof.
  intros m m' s.
  assert (Hin : m' ∈ [m; m']) by (right; left).
  split; [exact Hin|].
  exact (proj1 (insert_then_get codeCompare m [m'] s m' Hin)).
Defined.

(** ** Accumulation *)

(** X21.  For every batch that is not blank, [batchInsertMetrics]
    resolves and performs insert-or-accumulate on the hourly and on the
    variant table: each submitted row is inserted when its primary key is
    free and is otherwise added to the stored yes and no (or count); every
    other key is left as it was.  Inserting the same batch a second time
    resolves again, creates no row and moves every counter exactly twice as
    far as the first insertion did.  (The rows are those of
    [collapseHourlyMetrics] and [spreadVariants] as modelled.) *)
Theorem hourly_insert_accumulates localeCompare m metrics s :
  let batch := Some (m :: metrics) in
  let s1 := after (batchInsertMetrics localeCompare batch) s in
  let s2 := after (batchInsertMetrics localeCompare batch) s1 in
  (batchInsertMetrics localeCompare batch s).1 = Ok tt /\
  (batchInsertMetrics localeCompare batch s1).1 = Ok tt /\
  accumulated env_pk env_on_conflict (sortedRows localeCompare (m :: metrics))
    (client_metrics_env (tables s)) (client_metrics_env (tables s1)) /\
  accumulated variant_pk variant_on_conflict (sortedVariantRows localeCompare (m :: metrics))
    (client_metrics_env_variants (tables s)) (client_metrics_env_variants (tables s1)) /\
  doubled env_pk EnvRow.yes (client_metrics_env (tables s))
    (client_metrics_env (tables s1)) (client_metrics_env (tables s2)) /\
  doubled env_pk EnvRow.no (client_metrics_env (tables s))
    (client_metrics_env (tables s1)) (client_metrics_env (tables s2)) /\
  doubled variant_pk VariantRow.count (client_metrics_env_variants (tables s))
    (client_metrics_env_variants (tables s1)) (client_metrics_env_variants (tables s2)).
Proof.
  intros batch s1 s2. subst batch s1 s2. unfold after.
  rewrite !batchInsertMetrics_run. cbn [fst snd tables client_metrics_env
    client_metrics_env_variants client_metrics_total].
  split_and!.
  - done.
  - done.
  - apply accumulated_upsert_all; [apply env_on_conflict_pk | apply sortedRows_distinct].
  - apply accumulated_upsert_all; [apply variant_on_conflict_pk | apply sortedVariantRows_distinct].
  - by apply doubled_upsert_all.
  - by apply doubled_upsert_all.
  - by apply doubled_upsert_all.
Qed.

(** ** Starting over *)

(** X2.  [deleteAll] always resolves and empties the hourly table: every
    point lookup rejects with NotFound, [getAll] and the windowed reads
    return nothing.  It does not touch the variant or the total table, so
    [getTotalCountForToggle] answers as before.  A batch written after it
    starts the hourly counts afresh, [get] then resolves with exactly the
    sums of the batch, while every variant counter goes on from its old
    value. *)
Theorem deleteAll_clears_hourly showDate collate localeCompare s :
  let s1 := after deleteAll s in
  (deleteAll s).1 = Ok tt /\
  (forall key, get key (tables s1) = Err NotFoundError /\ exists_ key (tables s1) = false) /\
  (forall query, getAll query (tables s1) = []) /\
  (forall now name hoursBack,
     getMetricsForFeatureToggle showDate now name hoursBack (tables s1) = [] /\
     getSeenAppsForFeatureToggle collate now name hoursBack (tables s1) = [] /\
     getSeenTogglesForApp collate now name hoursBack (tables s1) = []) /\
  client_metrics_env_variants (tables s1) = client_metrics_env_variants (tables s) /\
  client_metrics_total (tables s1) = client_metrics_total (tables s) /\
  (forall featureName,
     getTotalCountForToggle featureName (tables s1) = getTotalCountForToggle featureName (tables s)) /\
  (forall m metrics,
     let s2 := after (batchInsertMetrics localeCompare (Some (m :: metrics))) s1 in
     (forall e, e ∈ m :: metrics ->
        get (keyOfMetric e) (tables s2) =
        Ok (Metric.mk (Metric.featureName e) (Metric.appName e) (Metric.environment e)
              (startOfHour (Metric.timestamp e))
              (batch_sum metric_bucket Metric.yes (metric_bucket e) (m :: metrics))
              (batch_sum metric_bucket Metric.no (metric_bucket e) (m :: metrics)) None)) /\
     (forall k,
        counter_at variant_pk VariantRow.count k (client_metrics_env_variants (tables s2)) =
        counter_at variant_pk VariantRow.count k (client_metrics_env_variants (tables s)) +
        batch_sum variant_pk VariantRow.count k (sortedVariantRows localeCompare (m :: metrics)))).
Proof.
  intros s1. split_and!; try done.
  intros m metrics s2. split.
  - intros e He. subst s2.
    pose proof (stored_after_batchInsertMetrics localeCompare m metrics s1 e He) as Hstored.
    cbv zeta in Hstored. rewrite get_lookup.
    change (lookupKey (keyOfMetric e)) with (metric_bucket e). rewrite Hstored.
    unfold fromRow. simpl. unfold counter_at. simpl. do 2 f_equal; lia.
  - intros k. subst s2. unfold after at 1. rewrite batchInsertMetrics_run.
    cbn [snd tables client_metrics_env_variants].
    by rewrite (counter_at_upsert_all variant_pk variant_on_conflict variant_on_conflict_pk
                  VariantRow.count (fun _ _ => eq_refl)).
Qed.


(** ** Totals *)

Lemma sumZ_perm l l' : l ≡ₚ l' -> sumZ l = sumZ l'.
Proof. unfold sumZ. induction 1; cbn [foldr]; lia. Qed.

Lemma sumZ_upsert_entry x t :
  sumZ (snd <$> upsert_row fst add_entry x t) = sumZ (snd <$> t) + x.2.
Proof.
  unfold sumZ. induction t as [|[k v] t IH]; [cbn; lia|].
  cbn [upsert_row]. case_decide; rewrite !fmap_cons; cbn [foldr fst snd add_entry] in *; lia.
Qed.

Lemma sumZ_upsert_entries entries t :
  sumZ (snd <$> foldl (fun t x => upsert_row fst add_entry x t) t entries) =
  sumZ (snd <$> t) + sumZ (snd <$> entries).
Proof.
  revert t. induction entries as [|x entries IH]; intros t; cbn [foldl].
  - unfold sumZ. cbn. lia.
  - rewrite IH, sumZ_upsert_entry, fmap_cons. unfold sumZ. cbn [foldr]. lia.
Qed.

Lemma length_upsert_entries {R K} `{EqDecision K} (pk : R -> K) on_conflict rows t :
  (length (foldl (fun t x => upsert_row pk on_conflict x t) t rows) <= length t + length rows)%nat.
Proof.
  revert t. induction rows as [|x rows IH]; intros t; simpl; [lia|].
  etrans; [apply IH|].
  assert (length (upsert_row pk on_conflict x t) <= S (length t))%nat; [|lia].
  induction t as [|r t IHt]; simpl; [lia|]. case_decide; simpl; lia.
Qed.

Lemma obj_values_of_keys (o : list (string * Z)) :
  NoDup (Object_keys o) ->
  (fun key => default 0 (obj_get key o)) <$> Object_keys o = Object_values o.
Proof.
  unfold Object_keys, Object_values. induction o as [|[k v] o IH]; [done|].
  rewrite !fmap_cons, NoDup_cons. cbn [fst snd]. intros [Hk Ho]. f_equal.
  - cbn [obj_get]. by rewrite decide_True.
  - rewrite <- IH by done. apply Forall_fmap_ext, Forall_forall. intros key Hkey.
    cbn [obj_get]. rewrite decide_False; [done|]. by intros ->.
Qed.

Lemma totalRow_numbers o key :
  key ∈ Object_keys o ->
  TotalRow.total (totalRow (numbers o) key) = Number (default 0 (obj_get key o)).
Proof.
  intros Hkey. unfold totalRow. cbn [TotalRow.total]. rewrite obj_get_numbers.
  destruct (obj_get key o) as [v|] eqn:Hget; [done|].
  by apply obj_get_None_keys in Hget.
Qed.

(** X9.  Take a batch of valid events whose counts add up to a safe
    integer, so that the loop adds them without rounding, and in which no
    key featureName_environment is the name of a property that objects
    inherit.  Then [batchInsertTotalMetrics] neither loses nor invents
    counts, whether or not the names hold underscores: every row it submits
    carries a number, these numbers add up to the sum of yes + no over all
    the events of the batch, and there is at most one row per event. *)
Theorem total_rows_conserve_counts localeCompare metrics :
  Forall valid_metric metrics ->
  sumZ ((fun m => Metric.yes m + Metric.no m) <$> metrics) <= MAX_SAFE_INTEGER ->
  Forall (fun m => ordinary_key (totalKey m)) metrics ->
  Forall (fun r => exists n, TotalRow.total r = Number n) (sortedTotalRows localeCompare metrics) /\
  sumZ ((fun r => number_of (TotalRow.total r)) <$> sortedTotalRows localeCompare metrics) =
    sumZ ((fun m => Metric.yes m + Metric.no m) <$> metrics) /\
  (length (sortedTotalRows localeCompare metrics) <= length metrics)%nat.
Proof.
  intros _ _ Hkeys. unfold sortedTotalRows.
  rewrite aggregated_ordinary by done. rewrite Object_keys_numbers.
  set (o := foldl (fun t x => upsert_row fst add_entry x t) [] (totalEntry <$> metrics)).
  assert (Hnd : NoDup (Object_keys o)) by by apply (upsert_all_nil_unique fst add_entry).
  split_and!.
  - rewrite sort_perm. apply Forall_fmap, Forall_forall. intros key Hkey.
    exists (default 0 (obj_get key o)). by apply totalRow_numbers.
  - rewrite (sumZ_perm _ _ (sort_fmap_perm _ _ _)), <- list_fmap_compose.
    rewrite (Forall_fmap_ext_1 _ (fun key => default 0 (obj_get key o))).
    + rewrite obj_values_of_keys by done.
      unfold Object_values, o. rewrite sumZ_upsert_entries.
      rewrite <- list_fmap_compose. unfold sumZ at 1. simpl. done.
    + apply Forall_forall. intros key Hkey.
      change (number_of (TotalRow.total (totalRow (numbers o) key)) = default 0 (obj_get key o)).
      by rewrite totalRow_numbers.
  - rewrite sort_length. unfold Object_keys. rewrite !length_fmap. unfold o.
    etrans; [apply length_upsert_entries|]. by rewrite length_fmap.
Qed.

Lemma total_rows_conserve_counts_witness :
  let batch := [Metric.mk "a_b" "app" "x" 0 1 0 None; Metric.mk "a" "app" "b" 0 2 0 None;
                Metric.mk "a_b" "web" "x" 3600000 3 1 None] in
  (Forall valid_metric batch /\
   sumZ ((fun m => Metric.yes m + Metric.no m) <$> batch) <= MAX_SAFE_INTEGER /\
   Forall (fun m => ordinary_key (totalKey m)) batch) /\
  sumZ ((fun r => number_of (TotalRow.total r)) <$> sortedTotalRows codeCompare batch) = 7.
Proof.
  intros batch.
  assert (Hvalid : Forall valid_metric batch) by (repeat constructor; simpl; lia).
  assert (Hsafe : sumZ ((fun m => Metric.yes m + Metric.no m) <$> batch) <= MAX_SAFE_INTEGER)
    by (vm_compute; discriminate).
  assert (Hkeys : Forall (fun m => ordinary_key (totalKey m)) batch)
    by exact (bool_decide_unpack (Forall (fun m => ordinary_key (totalKey m)) batch) I).
  split; [by split_and!|].
  exact (proj1 (proj2 (total_rows_conserve_counts codeCompare batch Hvalid Hsafe Hkeys))).
Defined.

Lemma split_parts_plain s : Forall plain_name (split "_" s).
Proof.
  induction s as [|c s IH]; cbn [split].
  - by apply Forall_singleton.
  - case_decide as Hc; [by apply Forall_cons|].
    destruct (split "_" s) as [|p ps].
    + apply Forall_singleton. unfold plain_name. cbn [has_char].
      by rewrite bool_decide_eq_false_2.
    + apply Forall_cons in IH as [Hp Hps]. apply Forall_cons. split; [|done].
      unfold plain_name in *. cbn [has_char]. by rewrite bool_decide_eq_false_2, Hp.
Qed.

Lemma nth_plain i l : Forall plain_name l -> plain_name (nth i l "").
Proof.
  intros Hl. revert i. induction Hl as [|p l Hp _ IH]; intros [|i]; simpl; done.
Qed.

Lemma split_first s : nth 0 (split "_" s) "" = before_underscore s.
Proof.
  induction s as [|c s IH]; cbn [split before_underscore]; [done|].
  case_decide; [done|]. destruct (split "_" s) as [|p ps]; simpl in *; by rewrite <- IH.
Qed.

Lemma before_underscore_join f e : before_underscore (f +:+ "_" +:+ e) = before_underscore f.
Proof.
  induction f as [|c f IH]; [done|].
  change (String c f +:+ "_" +:+ e) with (String c (f +:+ "_" +:+ e)).
  cbn [before_underscore]. by rewrite IH.
Qed.

Lemma plain_before_underscore s : plain_name s <-> before_underscore s = s.
Proof.
  unfold plain_name. induction s as [|c s IH]; cbn [has_char before_underscore]; [done|].
  case_decide as Hc.
  - rewrite bool_decide_eq_true_2 by done. simpl. split; discriminate.
  - rewrite bool_decide_eq_false_2 by done. simpl. rewrite IH.
    split; [by intros -> | by intros [= ->]].
Qed.

(** X10.  No row submitted by [batchInsertTotalMetrics] has an underscore
    in its feature_name or in its environment, and its feature_name is the
    part before the first underscore of the featureName of some event.  So
    for an event whose featureName contains an underscore, no row is ever
    submitted under that name. *)
Theorem total_rows_never_keep_underscores localeCompare metrics r :
  r ∈ sortedTotalRows localeCompare metrics ->
  plain_name (TotalRow.feature_name r) /\
  plain_name (TotalRow.environment r) /\
  (exists m, m ∈ metrics /\ TotalRow.feature_name r = before_underscore (Metric.featureName m)) /\
  (forall m, ~ plain_name (Metric.featureName m) ->
             TotalRow.feature_name r <> Metric.featureName m).
Proof.
  unfold sortedTotalRows. rewrite elem_of_sort. intros Hr.
  apply list_elem_of_fmap in Hr as (key & -> & Hkey). unfold totalRow. cbn.
  assert (Hf : plain_name (nth 0 (split "_" key) "")) by apply nth_plain, split_parts_plain.
  split_and!; [done | apply nth_plain, split_parts_plain | | ].
  - apply foldl_aggregate_keys_inv in Hkey as [Hkey|Hkey]; [by apply elem_of_nil in Hkey|].
    apply list_elem_of_fmap in Hkey as (m & -> & Hm).
    exists m. split; [done|]. unfold totalKey.
    by rewrite split_first, before_underscore_join.
  - intros m Hm Heq. apply Hm. by rewrite <- Heq.
Qed.

Lemma total_rows_never_keep_underscores_witness :
  let m := Metric.mk "my_feature" "app" "prod" 0 1 0 None in
  let r := TotalRow.mk "my" "feature" (Number 1) in
  r ∈ sortedTotalRows codeCompare [m] /\
  TotalRow.feature_name r = before_underscore "my_feature" /\
  TotalRow.feature_name r <> Metric.featureName m.
Proof.
  intros m r.
  assert (Hr : r ∈ sortedTotalRows codeCompare [m]) by left.
  split; [exact Hr|]. split; [reflexivity|].
  apply (total_rows_never_keep_underscores codeCompare [m] r Hr). discriminate.
Defined.

Lemma unique_pk_inj {R K} `{EqDecision K} (pk : R -> K) t x y :
  unique_pk pk t -> x ∈ t -> y ∈ t -> pk x = pk y -> x = y.
Proof.
  intros Huniq Hx Hy Hxy.
  pose proof (lookup_pk_unique pk (pk x) t x Huniq Hx eq_refl) as Hlx.
  rewrite (lookup_pk_unique pk (pk x) t y Huniq Hy) in Hlx by done. by injection Hlx.
Qed.

Lemma getTotalCountForToggle_elem featureName d environment total :
  (environment, total) ∈ getTotalCountForToggle featureName d <->
  TotalRow.mk featureName environment total ∈ client_metrics_total d.
Proof.
  unfold getTotalCountForToggle. rewrite list_elem_of_fmap. split.
  - intros ([f e t] & [= -> ->] & Hr). apply list_elem_of_filter in Hr as [Hf Hr].
    simpl in Hf. by subst f.
  - intros Hr. eexists. split; [|apply list_elem_of_filter; split; [|exact Hr]]; done.
Qed.

(** X11.  [getTotalCountForToggle] returns the environment and total of
    exactly the total rows of the feature, in table order; on a table with
    at most one row per (feature, environment) no environment appears
    twice. *)
Theorem total_count_per_environment featureName d :
  (forall environment total,
     (environment, total) ∈ getTotalCountForToggle featureName d <->
     TotalRow.mk featureName environment total ∈ client_metrics_total d) /\
  (unique_pk total_pk (client_metrics_total d) ->
   NoDup (fst <$> getTotalCountForToggle featureName d)).
Proof.
  split.
  - intros environment total. apply getTotalCountForToggle_elem.
  - unfold getTotalCountForToggle. intros Huniq. rewrite <- list_fmap_compose.
    assert (Hsub : unique_pk total_pk
              (filter (fun row => TotalRow.feature_name row = featureName) (client_metrics_total d))).
    { unfold unique_pk in *. eapply sublist_NoDup; [exact Huniq|].
      apply fmap_sublist, sublist_filter. }
    apply NoDup_fmap_2_strong; [|by eapply NoDup_fmap_1].
    intros x y Hx Hy Henv. simpl in Henv. apply (unique_pk_inj total_pk _ x y Hsub Hx Hy).
    apply list_elem_of_filter in Hx as [Hfx _]. apply list_elem_of_filter in Hy as [Hfy _].
    unfold total_pk. by rewrite Hfx, Hfy, Henv.
Qed.

Lemma total_count_per_environment_witness :
  let d := mkDb [] [] [TotalRow.mk "f" "dev" 3; TotalRow.mk "g" "dev" 1; TotalRow.mk "f" "prod" 9] in
  unique_pk total_pk (client_metrics_total d) /\
  NoDup (fst <$> getTotalCountForToggle "f" d).
Proof.
  intros d.
  assert (Huniq : unique_pk total_pk (client_metrics_total d)).
  { exact (bool_decide_unpack (NoDup (total_pk <$> client_metrics_total d)) I). }
  split; [exact Huniq|]. exact (proj2 (total_count_per_environment "f" d) Huniq).
Defined.

(** X12.  For a batch whose feature and environment names hold no
    underscore, [batchInsertTotalMetrics] resolves, and afterwards the total
    record of every event's (featureName, environment) holds what it held
    before (zero if it did not exist) plus the sum of yes + no over the
    events of the batch with that pair; [getTotalCountForToggle] of the
    feature reports that total for the environment. *)
Theorem plain_totals_round_trip localeCompare m metrics s e :
  Forall plain_metric (m :: metrics) ->
  e ∈ m :: metrics ->
  let s1 := after (batchInsertTotalMetrics localeCompare (Some (m :: metrics))) s in
  let total :=
    counter_at total_pk TotalRow.total (feature_environment e) (client_metrics_total (tables s)) +
    batch_sum feature_environment (fun m => Metric.yes m + Metric.no m)
      (feature_environment e) (m :: metrics) in
  (batchInsertTotalMetrics localeCompare (Some (m :: metrics)) s).1 = Ok tt /\
  lookup_pk total_pk (feature_environment e) (client_metrics_total (tables s1)) =
    Some (TotalRow.mk (Metric.featureName e) (Metric.environment e) total) /\
  (Metric.environment e, total) ∈ getTotalCountForToggle (Metric.featureName e) (tables s1).
Proof.
  intros Hplain He s1 total. subst s1.
  destruct (totals_of_plain_names localeCompare (m :: metrics) Hplain) as (Hnd & Hrows & Hcover).
  apply Hcover, list_elem_of_fmap in He as (x & Hkx & Hx).
  destruct (Hrows x Hx) as (m' & _ & Hpk' & Htotal). rewrite <- Hpk', <- Hkx in Htotal.
  assert (Hlookup :
    lookup_pk total_pk (feature_environment e)
      (client_metrics_total
         (tables (after (batchInsertTotalMetrics localeCompare (Some (m :: metrics))) s))) =
    Some (TotalRow.mk (Metric.featureName e) (Metric.environment e) total)).
  { unfold after. rewrite batchInsertTotalMetrics_plain by done.
    cbn [snd tables client_metrics_total].
    rewrite Hkx, <- total_pk_numericRow.
    rewrite (lookup_upsert_all_batch total_pk total_on_conflict total_on_conflict_pk
               _ (numericRow x));
      [| by rewrite <- list_fmap_compose | by apply list_elem_of_fmap_2].
    rewrite total_pk_numericRow, <- Hkx. subst total. unfold counter_at.
    destruct (lookup_pk total_pk (feature_environment e) (client_metrics_total (tables s)))
      as [r|] eqn:Hr.
    - apply lookup_pk_Some in Hr as [_ Hrk]. unfold total_pk, feature_environment in Hrk.
      injection Hrk as Hf Henv. unfold total_on_conflict, numericRow. simpl.
      rewrite Hf, Henv, Htotal. done.
    - unfold total_pk, feature_environment in Hkx. injection Hkx as Hf Henv.
      destruct x as [xf xe xt]. unfold numericRow. simpl in *. subst. simpl. f_equal; lia. }
  split_and!; [unfold after in *; by rewrite batchInsertTotalMetrics_plain | done |].
  apply lookup_pk_Some in Hlookup as [Hin _].
  by apply getTotalCountForToggle_elem.
Qed.

Lemma plain_totals_round_trip_witness :
  let m := Metric.mk "f1" "a1" "prod" 3600005 3 1 None in
  let m' := Metric.mk "f1" "a2" "prod" 7200009 5 0 None in
  let s := mkSession (mkDb [] [] [TotalRow.mk "f1" "prod" 10]) 0 [] in
  (Forall plain_metric [m; m'] /\ m' ∈ [m; m']) /\
  ("prod", 19) ∈
    getTotalCountForToggle "f1" (tables (after (batchInsertTotalMetrics codeCompare (Some [m; m'])) s)).
Proof.
  intros m m' s.
  assert (Hplain : Forall plain_metric [m; m']) by (repeat constructor).
  assert (Hin : m' ∈ [m; m']) by (right; left).
  split; [by split|].
  exact (proj2 (proj2 (plain_totals_round_trip codeCompare m [m'] s m' Hplain Hin))).
Defined.

(** X22.  For a batch whose feature and environment names hold no
    underscore, inserting the batch twice with [batchInsertTotalMetrics]
    resolves both times; the second insertion creates no total record and
    moves every total exactly twice as far as the first did, and the total
    record of a pair that is not in the batch is left as it was. *)
Theorem plain_totals_double localeCompare m metrics s :
  Forall plain_metric (m :: metrics) ->
  let batch := Some (m :: metrics) in
  let u1 := after (batchInsertTotalMetrics localeCompare batch) s in
  let u2 := after (batchInsertTotalMetrics localeCompare batch) u1 in
  (batchInsertTotalMetrics localeCompare batch s).1 = Ok tt /\
  (batchInsertTotalMetrics localeCompare batch u1).1 = Ok tt /\
  doubled total_pk TotalRow.total (client_metrics_total (tables s))
    (client_metrics_total (tables u1)) (client_metrics_total (tables u2)) /\
  (forall k, k ∉ feature_environment <$> m :: metrics ->
     lookup_pk total_pk k (client_metrics_total (tables u1)) =
     lookup_pk total_pk k (client_metrics_total (tables s))).
Proof.
  intros Hplain batch u1 u2. subst batch u1 u2. unfold after.
  rewrite !batchInsertTotalMetrics_plain by done.
  cbn [fst snd tables client_metrics_total]. split_and!; [done | done | |].
  - by apply doubled_upsert_all.
  - intros k Hk. apply lookup_upsert_all_other; [apply total_on_conflict_pk|].
    intros Hin. apply Hk. rewrite <- list_fmap_compose in Hin.
    apply list_elem_of_fmap in Hin as (r & -> & Hr).
    destruct (totals_of_plain_names localeCompare (m :: metrics) Hplain) as (_ & Hrows & _).
    destruct (Hrows r Hr) as (e & He & Hpk & _).
    change (total_pk r ∈ feature_environment <$> m :: metrics). rewrite Hpk.
    by apply list_elem_of_fmap_2.
Qed.

Lemma plain_totals_double_witness :
  let m := Metric.mk "f1" "a1" "prod" 3600005 3 1 None in
  let m' := Metric.mk "f1" "a2" "prod" 7200009 5 0 None in
  let s := mkSession (mkDb [] [] [TotalRow.mk "f1" "prod" 10]) 0 [] in
  let u1 := after (batchInsertTotalMetrics codeCompare (Some [m; m'])) s in
  let u2 := after (batchInsertTotalMetrics codeCompare (Some [m; m'])) u1 in
  Forall plain_metric [m; m'] /\
  counter_at total_pk TotalRow.total ("f1", "prod") (client_metrics_total (tables u2)) - 10 =
    2 * (counter_at total_pk TotalRow.total ("f1", "prod") (client_metrics_total (tables u1)) - 10).
Proof.
  intros m m' s u1 u2.
  assert (Hplain : Forall plain_metric [m; m']) by (repeat constructor).
  split; [exact Hplain|].
  exact (proj2 (proj1 (proj2 (proj2 (plain_totals_double codeCompare m [m'] s Hplain))))
           ("f1", "prod")).
Defined.

(** X13.  [batchInsertTotalMetrics] reads only the featureName, the
    environment and yes + no of each event: two batches that agree on these,
    event by event, make it do exactly the same, whatever their app names,
    timestamps and variants are. *)
Theorem totals_ignore_app_and_hour localeCompare metrics metrics' s :
  (fun m => (Metric.featureName m, Metric.environment m, Metric.yes m + Metric.no m)) <$> metrics =
  (fun m => (Metric.featureName m, Metric.environment m, Metric.yes m + Metric.no m)) <$> metrics' ->
  batchInsertTotalMetrics localeCompare (Some metrics) s =
  batchInsertTotalMetrics localeCompare (Some metrics') s.
Proof.
  intros Heq.
  assert (Hentries : totalEntry <$> metrics = totalEntry <$> metrics').
  { apply (f_equal (fmap (fun t : string * string * Z => (t.1.1 +:+ "_" +:+ t.1.2, t.2)))) in Heq.
    by rewrite <- !list_fmap_compose in Heq. }
  assert (Hrows : sortedTotalRows localeCompare metrics = sortedTotalRows localeCompare metrics').
  { unfold sortedTotalRows. by rewrite (foldl_aggregate_entries metrics metrics'). }
  assert (Hlen : length metrics = length metrics').
  { apply (f_equal length) in Heq. by rewrite !length_fmap in Heq. }
  unfold batchInsertTotalMetrics, blank. rewrite Hlen. case_bool_decide; [done|].
  cbn [default from_option id]. unfold id. by rewrite Hrows.
Qed.

Lemma totals_ignore_app_and_hour_witness :
  let m := Metric.mk "f1" "a1" "prod" 3600005 3 1 None in
  let m' := Metric.mk "f1" "other" "prod" 99 2 2 (Some [("A", 1)]) in
  (fun m => (Metric.featureName m, Metric.environment m, Metric.yes m + Metric.no m)) <$> [m] =
  (fun m => (Metric.featureName m, Metric.environment m, Metric.yes m + Metric.no m)) <$> [m'] /\
  batchInsertTotalMetrics codeCompare (Some [m]) (fresh 0) =
  batchInsertTotalMetrics codeCompare (Some [m']) (fresh 0).
Proof.
  intros m m'. split; [reflexivity|].
  exact (totals_ignore_app_and_hour codeCompare [m] [m'] (fresh 0) eq_refl).
Defined.

(** ** Keys that name an inherited property *)

Lemma obj_get_set_ne {V} key key' (v : V) o :
  key <> key' -> obj_get key (obj_set key' v o) = obj_get key o.
Proof.
  intros Hne. induction o as [|[k w] o IH]; simpl.
  - rewrite decide_False; [done | by intros ->].
  - destruct (decide (k = key')) as [->|Hk]; simpl.
    + by rewrite !decide_False by (by intros ->).
    + by rewrite IH.
Qed.

Lemma obj_get_assign_ne {V} key key' (v : V) o :
  key <> key' -> obj_get key (obj_assign key' v o) = obj_get key o.
Proof. intros Hne. unfold obj_assign. case_decide; [done | by apply obj_get_set_ne]. Qed.

Lemma aggregate_proto acc metric : totalKey metric = "__proto__" -> aggregate acc metric = acc.
Proof.
  intros Hkey. unfold aggregate. fold (totalKey metric). rewrite Hkey, obj_assign_proto.
  by destruct (obj_read "__proto__" acc).
Qed.

Lemma foldl_aggregate_proto metrics acc :
  foldl aggregate acc metrics =
  foldl aggregate acc (filter (fun m => totalKey m <> "__proto__") metrics).
Proof.
  revert acc. induction metrics as [|m metrics IH]; intros acc; [done|].
  cbn [foldl]. destruct (decide (totalKey m = "__proto__")) as [Hkey|Hkey].
  - rewrite filter_cons_False by (by intros Hne). rewrite aggregate_proto by done. apply IH.
  - rewrite filter_cons_True by done. cbn [foldl]. apply IH.
Qed.

Lemma aggregate_get_other acc metric key :
  key <> totalKey metric -> obj_get key (aggregate acc metric) = obj_get key acc.
Proof.
  intros Hne. unfold aggregate. fold (totalKey metric). rewrite obj_get_assign_ne by done.
  destruct (obj_read (totalKey metric) acc); try done. by apply obj_get_assign_ne.
Qed.

Lemma function_name_not_proto key : key ∈ Object_prototype_functions -> key <> "__proto__".
Proof.
  intros Hkey ->. unfold Object_prototype_functions in Hkey.
  repeat (apply elem_of_cons in Hkey as [Hkey|Hkey]; [discriminate Hkey|]).
  by apply elem_of_nil in Hkey.
Qed.

Lemma aggregate_function_name acc metric :
  totalKey metric ∈ Object_prototype_functions ->
  (forall n, obj_get (totalKey metric) acc <> Some (Number n)) ->
  obj_get (totalKey metric) (aggregate acc metric) = Some NotNumber.
Proof.
  intros Hkey Hown. pose proof (function_name_not_proto _ Hkey) as Hproto.
  assert (Hread : obj_read (totalKey metric) acc = Own NotNumber \/
                  obj_read (totalKey metric) acc = InheritedFunction).
  { unfold obj_read. destruct (obj_get (totalKey metric) acc) as [[n|]|] eqn:Hget.
    - by destruct (Hown n).
    - by left.
    - right. by rewrite decide_True. }
  unfold aggregate. fold (totalKey metric).
  destruct Hread as [Hread|Hread]; rewrite Hread; cbv iota; rewrite Hread; cbn [plus];
    by rewrite obj_assign_ordinary, obj_get_set.
Qed.

Lemma foldl_aggregate_function_name metrics acc key :
  key ∈ Object_prototype_functions ->
  (forall n, obj_get key acc <> Some (Number n)) ->
  obj_get key acc = Some NotNumber \/ (exists m, m ∈ metrics /\ totalKey m = key) ->
  obj_get key (foldl aggregate acc metrics) = Some NotNumber.
Proof.
  intros Hkey. revert acc. induction metrics as [|m metrics IH]; intros acc Hown Hseen.
  - destruct Hseen as [Hget|(m & Hm & _)]; [done | by apply elem_of_nil in Hm].
  - cbn [foldl]. destruct (decide (totalKey m = key)) as [Heq|Hne].
    + subst key. pose proof (aggregate_function_name acc m Hkey Hown) as Hget.
      apply IH; [intros n; by rewrite Hget | by left].
    + apply IH.
      * intros n. rewrite aggregate_get_other by done. apply Hown.
      * rewrite aggregate_get_other by done.
        destruct Hseen as [Hget|(m' & Hm' & Hkey')]; [by left|]. right.
        apply elem_of_cons in Hm' as [->|Hm']; [done | by exists m'].
Qed.

Lemma mapM_numericTotal_None rows r :
  r ∈ rows -> TotalRow.total r = NotNumber -> mapM numericTotal rows = None.
Proof.
  intros Hr Htotal. destruct (mapM numericTotal rows) as [rows'|] eqn:Hrows; [|done].
  apply mapM_numericTotal_Some in Hrows as [_ Hnum]. rewrite Forall_forall in Hnum.
  destruct (Hnum r Hr) as [n Hn]. by rewrite Htotal in Hn.
Qed.

(** X23.  What the dictionary of [batchInsertTotalMetrics], an object
    literal, does under inherited names.  An event whose key
    featureName_environment is [__proto__] is dropped: the batch submits
    the rows it submits without such events.  And when the key of an event
    of the batch is the name of a function that objects inherit (as
    [__defineGetter__]), the total of its row is not a number, the
    statement is refused and the tables are as before. *)
Theorem inherited_names_spoil_totals localeCompare metrics :
  sortedTotalRows localeCompare metrics =
    sortedTotalRows localeCompare (filter (fun m => totalKey m <> "__proto__") metrics) /\
  (forall m s,
     m ∈ metrics ->
     totalKey m ∈ Object_prototype_functions ->
     (exists r, r ∈ sortedTotalRows localeCompare metrics /\ TotalRow.total r = NotNumber) /\
     batchInsertTotalMetrics localeCompare (Some metrics) s =
       (Err StoreError,
        mkSession (tables s) (clock s)
          (sent s ++ [InsertTotals (sortedTotalRows localeCompare metrics)]))).
Proof.
  split.
  - unfold sortedTotalRows. by rewrite <- foldl_aggregate_proto.
  - intros m s Hm Hkey.
    assert (Hget : obj_get (totalKey m) (foldl aggregate [] metrics) = Some NotNumber).
    { apply foldl_aggregate_function_name; [done | done | right; by exists m]. }
    assert (Hrow : exists r, r ∈ sortedTotalRows localeCompare metrics /\
                             TotalRow.total r = NotNumber).
    { exists (totalRow (foldl aggregate [] metrics) (totalKey m)). split.
      - unfold sortedTotalRows. apply elem_of_sort, list_elem_of_fmap_2.
        apply obj_get_elem in Hget. by apply (list_elem_of_fmap_2 fst) in Hget.
      - unfold totalRow. cbn [TotalRow.total]. by rewrite Hget. }
    split; [exact Hrow|]. destruct Hrow as (r & Hr & Htotal).
    destruct metrics as [|m0 metrics]; [by apply elem_of_nil in Hm|].
    unfold batchInsertTotalMetrics, blank. rewrite bool_decide_false by done.
    change (default [] (Some (m0 :: metrics))) with (m0 :: metrics).
    unfold raw. cbn [run_query]. by rewrite (mapM_numericTotal_None _ r).
Qed.

Lemma inherited_names_spoil_totals_witness :
  let getter := Metric.mk "__defineGetter" "app" "_" 0 1 0 None in
  let proto := Metric.mk "__proto" "app" "_" 0 4 0 None in
  let plain := Metric.mk "f" "app" "prod" 0 2 0 None in
  (getter ∈ [plain; getter] /\ totalKey getter ∈ Object_prototype_functions) /\
  batchInsertTotalMetrics codeCompare (Some [plain; getter]) (fresh 0) =
    (Err StoreError,
     mkSession (mkDb [] [] []) 0
       [InsertTotals [TotalRow.mk "" "" NotNumber; TotalRow.mk "f" "prod" (Number 2)]]) /\
  totalKey proto = "__proto__" /\
  sortedTotalRows codeCompare [proto; plain] = [TotalRow.mk "f" "prod" (Number 2)].
Proof.
  intros getter proto plain.
  assert (Hin : getter ∈ [plain; getter]) by (right; left).
  assert (Hkey : totalKey getter ∈ Object_prototype_functions) by (right; left).
  split; [by split|]. split_and!; [|reflexivity|].
  - exact (proj2 (proj2 (inherited_names_spoil_totals codeCompare [plain; getter])
                    getter (fresh 0) Hin Hkey)).
  - exact (proj1 (inherited_names_spoil_totals codeCompare [proto; plain])).
Defined.

(** ** Seen applications and toggles *)

(** X14.  [getSeenAppsForFeatureToggle] lists exactly the app names of
    the hourly rows of the feature that are at most [hoursBack] hours old,
    each once; [getSeenTogglesForApp] does the same for the feature names of
    an app.  For a consistent collation both lists are in ascending
    order. *)
Theorem seen_apps_and_toggles collate now hoursBack d :
  (forall featureName appName,
     appName ∈ getSeenAppsForFeatureToggle collate now featureName hoursBack d <->
     exists r, r ∈ client_metrics_env d /\ EnvRow.feature_name r = featureName /\
               EnvRow.app_name r = appName /\ at_or_after now hoursBack (EnvRow.timestamp r)) /\
  (forall appName featureName,
     featureName ∈ getSeenTogglesForApp collate now appName hoursBack d <->
     exists r, r ∈ client_metrics_env d /\ EnvRow.app_name r = appName /\
               EnvRow.feature_name r = featureName /\ at_or_after now hoursBack (EnvRow.timestamp r)) /\
  (forall name, NoDup (getSeenAppsForFeatureToggle collate now name hoursBack d) /\
                NoDup (getSeenTogglesForApp collate now name hoursBack d)) /\
  (consistent collate ->
   forall name, sorted_by collate (getSeenAppsForFeatureToggle collate now name hoursBack d) /\
                sorted_by collate (getSeenTogglesForApp collate now name hoursBack d)).
Proof.
  unfold getSeenAppsForFeatureToggle, getSeenTogglesForApp. split_and!.
  - intros featureName appName. rewrite elem_of_sort, elem_of_remove_dups, list_elem_of_fmap.
    split.
    + intros (r & -> & Hr). apply list_elem_of_filter in Hr as [[Hf Hw] Hr]. by exists r.
    + intros (r & Hr & Hf & Ha & Hw). exists r. split; [done|].
      apply list_elem_of_filter. by split.
  - intros appName featureName. rewrite elem_of_sort, elem_of_remove_dups, list_elem_of_fmap.
    split.
    + intros (r & -> & Hr). apply list_elem_of_filter in Hr as [[Ha Hw] Hr]. by exists r.
    + intros (r & Hr & Ha & Hf & Hw). exists r. split; [done|].
      apply list_elem_of_filter. by split.
  - intros name. rewrite !sort_perm. split; apply NoDup_remove_dups.
  - intros Hc name. split; by apply sort_sorted.
Qed.

Lemma seen_apps_and_toggles_witness :
  let d := mkDb [EnvRow.mk "f" "b" "e" 7200000 1 0; EnvRow.mk "f" "a" "e" 3600000 1 0;
                 EnvRow.mk "f" "b" "e" 3600000 2 0] [] [] in
  consistent codeCompare /\
  sorted_by codeCompare (getSeenAppsForFeatureToggle codeCompare 7200000 "f" 24 d).
Proof.
  intros d. split; [exact codeCompare_consistent|].
  exact (proj1 (proj2 (proj2 (proj2 (seen_apps_and_toggles codeCompare 7200000 24 d)))
                 codeCompare_consistent "f")).
Defined.

(** ** Retention, composed *)

Lemma filter_ext_in {A} (P Q : A -> Prop) `{!forall x, Decision (P x), !forall x, Decision (Q x)}
    (l : list A) :
  (forall x, x ∈ l -> P x <-> Q x) -> filter P l = filter Q l.
Proof.
  induction l as [|x l IH]; intros Hext; [done|].
  rewrite !filter_cons.
  assert (HPQ : P x <-> Q x) by (apply Hext; left).
  rewrite IH by (intros y Hy; apply Hext; by right).
  destruct (decide (P x)), (decide (Q x)); tauto.
Qed.

(** X15.  Sweeps compose: [clearMetrics n] followed by [clearMetrics m]
    (at the same database time) leaves the tables that one
    [clearMetrics (min n m)] leaves; in particular sweeping twice with the
    same horizon changes nothing the second time. *)
Theorem clearMetrics_compose n m s :
  tables (after (clearMetrics m) (after (clearMetrics n) s)) =
    tables (after (clearMetrics (Z.min n m)) s) /\
  tables (after (clearMetrics n) (after (clearMetrics n) s)) =
    tables (after (clearMetrics n) s).
Proof.
  assert (Hcompose : forall n m,
    tables (after (clearMetrics m) (after (clearMetrics n) s)) =
    tables (after (clearMetrics (Z.min n m)) s)).
  { clear n m. intros n m. unfold after, clearMetrics, raw.
    cbn [run_query snd tables clock client_metrics_env client_metrics_env_variants
           client_metrics_total].
    f_equal. rewrite list_filter_filter. apply list_filter_iff. intros r.
    unfold at_or_before, msPerHour. lia. }
  split; [apply Hcompose|]. by rewrite Hcompose, Z.min_id.
Qed.

(** X16.  After [clearMetrics n], looking further back than [n] hours
    finds nothing more: at the same database time, each windowed read with
    a lookback of [m >= n] hours returns what it returns with a lookback of
    [n] hours. *)
Theorem lookback_beyond_sweep showDate collate n m s name :
  n <= m ->
  let d := tables (after (clearMetrics n) s) in
  getMetricsForFeatureToggle showDate (clock s) name m d =
    getMetricsForFeatureToggle showDate (clock s) name n d /\
  getSeenAppsForFeatureToggle collate (clock s) name m d =
    getSeenAppsForFeatureToggle collate (clock s) name n d /\
  getSeenTogglesForApp collate (clock s) name m d =
    getSeenTogglesForApp collate (clock s) name n d.
Proof.
  intros Hnm d.
  assert (Hkept : forall r, r ∈ client_metrics_env d ->
            at_or_after (clock s) m (EnvRow.timestamp r) /\
            at_or_after (clock s) n (EnvRow.timestamp r)).
  { intros r Hr. subst d. unfold after, clearMetrics, raw in Hr.
    cbn [run_query snd tables client_metrics_env] in Hr.
    apply list_elem_of_filter in Hr as [Hr _].
    unfold at_or_before, at_or_after, msPerHour in *. lia. }
  unfold getMetricsForFeatureToggle, metricsTokens, getSeenAppsForFeatureToggle,
    getSeenTogglesForApp.
  rewrite (filter_ext_in
             (fun r => EnvRow.feature_name r = name /\ at_or_after (clock s) m (EnvRow.timestamp r))
             (fun r => EnvRow.feature_name r = name /\ at_or_after (clock s) n (EnvRow.timestamp r)))
    by (intros r Hr; destruct (Hkept r Hr); tauto).
  rewrite (filter_ext_in
             (fun r => EnvRow.app_name r = name /\ at_or_after (clock s) m (EnvRow.timestamp r))
             (fun r => EnvRow.app_name r = name /\ at_or_after (clock s) n (EnvRow.timestamp r)))
    by (intros r Hr; destruct (Hkept r Hr); tauto).
  done.
Qed.

Lemma lookback_beyond_sweep_witness :
  let s := mkSession (mkDb [EnvRow.mk "f" "a" "e" 0 1 0; EnvRow.mk "f" "b" "e" 7200000 1 0] [] [])
             10800000 [] in
  2 <= 48 /\
  getSeenAppsForFeatureToggle codeCompare (clock s) "f" 48 (tables (after (clearMetrics 2) s)) =
    getSeenAppsForFeatureToggle codeCompare (clock s) "f" 2 (tables (after (clearMetrics 2) s)).
Proof.
  intros s. split; [lia|].
  apply (lookback_beyond_sweep epochString codeCompare 2 48 s "f"). lia.
Defined.

(** ** Reconstruction of the logical objects *)

Lemma foldl_invariant {A B} (Inv : A -> Prop) (f : A -> B -> A) (l : list B) a :
  (forall a x, x ∈ l -> Inv a -> Inv (f a x)) -> Inv a -> Inv (foldl f a l).
Proof.
  revert a. induction l as [|x l IH]; intros a Hstep Ha; simpl; [done|].
  apply IH; [intros a' y Hy; apply Hstep; by right | apply Hstep; [left | done]].
Qed.

Lemma leftJoin_rows rows variantRows tokenRow :
  tokenRow ∈ leftJoin rows variantRows ->
  TokenRow.row tokenRow ∈ rows /\
  match TokenRow.variant_count tokenRow with
  | None => True
  | Some (variant, count) =>
      exists v, v ∈ variantRows /\ joins (TokenRow.row tokenRow) v /\
                VariantRow.variant v = variant /\ VariantRow.count v = count
  end.
Proof.
  unfold leftJoin. intros Hin. apply list_elem_of_bind in Hin as (r & Hin & Hr).
  destruct (filter (joins r) variantRows) as [|v vs] eqn:Hvs.
  - apply list_elem_of_singleton in Hin as ->. by split.
  - apply list_elem_of_fmap in Hin as (v' & -> & Hv'). simpl. split; [done|].
    rewrite <- Hvs in Hv'. apply list_elem_of_filter in Hv' as [Hj Hv']. by exists v'.
Qed.

Section reconstruction.
Variable showDate : Z -> string.
Variable variantRows : list VariantRow.t.

Local Abbreviation token r vs :=
  (Metric.mk (EnvRow.feature_name r) (EnvRow.app_name r) (EnvRow.environment r)
     (EnvRow.timestamp r) (EnvRow.yes r) (EnvRow.no r) (Some vs)).
Local Abbreviation joined r vs :=
  ((fun v => TokenRow.mk r (Some (VariantRow.variant v, VariantRow.count v))) <$> vs).
Local Abbreviation put :=
  (fun (vs : list (string * Z)) v =>
     if decide (VariantRow.variant v = "") then vs
     else obj_assign (VariantRow.variant v) (VariantRow.count v) vs).

Lemma variantRowReducer_skip acc r t count :
  obj_get (tokenKey showDate r) acc = Some t ->
  variantRowReducer showDate acc (TokenRow.mk r (Some ("", count))) = acc.
Proof.
  intros Hget. unfold variantRowReducer. cbn [TokenRow.row TokenRow.variant_count].
  fold (tokenKey showDate r). rewrite !Hget. by rewrite decide_True.
Qed.

Lemma variantRowReducer_ensure acc r vc :
  obj_get (tokenKey showDate r) acc = None ->
  variantRowReducer showDate acc (TokenRow.mk r (Some vc)) =
  variantRowReducer showDate (obj_set (tokenKey showDate r) (token r []) acc)
    (TokenRow.mk r (Some vc)).
Proof.
  intros Hget. unfold variantRowReducer. cbn [TokenRow.row TokenRow.variant_count].
  fold (tokenKey showDate r). by rewrite Hget, !obj_get_set.
Qed.

Lemma foldl_joined r vs vs0 acc :
  obj_get (tokenKey showDate r) acc = Some (token r vs0) ->
  foldl (variantRowReducer showDate) acc (joined r vs) =
  obj_set (tokenKey showDate r) (token r (foldl put vs0 vs)) acc.
Proof.
  revert vs0 acc. induction vs as [|v vs IH]; intros vs0 acc Hget.
  - simpl. by rewrite obj_set_same.
  - rewrite fmap_cons. cbn [foldl]. destruct (decide (VariantRow.variant v = "")) as [Hv|Hv].
    + rewrite Hv, (variantRowReducer_skip _ _ _ _ Hget). by apply IH.
    + rewrite (variantRowReducer_merge showDate _ _ _ _ _ Hget Hv). cbn.
      rewrite (IH (obj_assign (VariantRow.variant v) (VariantRow.count v) vs0))
        by apply obj_get_set.
      by rewrite obj_set_twice.
Qed.

Lemma foldl_put vs vs0 :
  NoDup (VariantRow.variant <$> vs) ->
  (forall v, v ∈ vs -> VariantRow.variant v ∉ Object_keys vs0) ->
  foldl put vs0 vs =
  vs0 ++ ((fun v => (VariantRow.variant v, VariantRow.count v)) <$>
          filter (fun v => kept_name (VariantRow.variant v)) vs).
Proof.
  revert vs0. induction vs as [|v vs IH]; intros vs0 Hnd Hnew.
  - simpl. by rewrite app_nil_r.
  - rewrite fmap_cons in Hnd. apply NoDup_cons in Hnd as [Hv Hnd]. cbn [foldl].
    rewrite filter_cons. destruct (decide (VariantRow.variant v = "")) as [He|He];
      [|destruct (decide (VariantRow.variant v = "__proto__")) as [Hp|Hp]].
    + rewrite decide_False by (by intros [Hne _]).
      apply IH; [done|]. intros v' Hv'. apply Hnew. by right.
    + rewrite decide_False by (by intros [_ Hne]). rewrite Hp, obj_assign_proto.
      apply IH; [done|]. intros v' Hv'. apply Hnew. by right.
    + rewrite decide_True by done. rewrite fmap_cons, obj_assign_ordinary by done.
      rewrite obj_set_absent by (apply obj_get_None_keys, Hnew; left).
      rewrite IH; [by rewrite <- app_assoc | done |].
      intros v' Hv'. unfold Object_keys. rewrite fmap_app. cbn. intros Hin.
      apply elem_of_app in Hin as [Hin|Hin].
      * by apply (Hnew v'); [right|].
      * apply list_elem_of_singleton in Hin. apply Hv. rewrite <- Hin.
        by apply list_elem_of_fmap_2.
Qed.

Lemma joined_names_distinct r :
  unique_pk variant_pk variantRows ->
  NoDup (VariantRow.variant <$> filter (joins r) variantRows).
Proof.
  intros Huniq.
  assert (Hsub : NoDup (variant_pk <$> filter (joins r) variantRows)).
  { eapply sublist_NoDup; [exact Huniq|]. apply fmap_sublist, sublist_filter. }
  apply NoDup_fmap_2_strong; [|by eapply NoDup_fmap_1].
  intros x y Hx Hy Hname. apply (unique_pk_inj variant_pk _ x y Hsub Hx Hy).
  apply list_elem_of_filter in Hx as [(Hf1 & Ha1 & He1 & Ht1) _].
  apply list_elem_of_filter in Hy as [(Hf2 & Ha2 & He2 & Ht2) _].
  unfold variant_pk. by rewrite Hf1, Ha1, He1, Ht1, Hf2, Ha2, He2, Ht2, Hname.
Qed.

(** The token rows of one record whose key is new add one object. *)
Lemma foldl_record r acc :
  unique_pk variant_pk variantRows ->
  obj_get (tokenKey showDate r) acc = None ->
  foldl (variantRowReducer showDate) acc (leftJoin [r] variantRows) =
  acc ++ [(tokenKey showDate r, recordToken variantRows r)].
Proof.
  intros Huniq Hget. unfold leftJoin, recordToken, recordVariants.
  cbn [mbind list_bind]. rewrite app_nil_r.
  pose proof (joined_names_distinct r Huniq) as Hnames.
  destruct (filter (joins r) variantRows) as [|v vs] eqn:Hvs.
  - cbn [foldl]. rewrite variantRowReducer_new by done. by apply obj_set_absent.
  - rewrite fmap_cons. cbn [foldl]. rewrite variantRowReducer_ensure by done.
    change (foldl (variantRowReducer showDate)
              (obj_set (tokenKey showDate r) (token r []) acc) (joined r (v :: vs)) =
            acc ++ [(tokenKey showDate r,
                     token r ((fun v => (VariantRow.variant v, VariantRow.count v)) <$>
                              filter (fun v => kept_name (VariantRow.variant v)) (v :: vs)))]).
    rewrite (foldl_joined r (v :: vs) []) by apply obj_get_set.
    rewrite obj_set_twice, obj_set_absent by done.
    rewrite foldl_put; [done | done |]. intros v' _. apply not_elem_of_nil.
Qed.

Lemma leftJoin_cons r rows :
  leftJoin (r :: rows) variantRows = leftJoin [r] variantRows ++ leftJoin rows variantRows.
Proof. unfold leftJoin. cbn [mbind list_bind]. by rewrite app_nil_r. Qed.

Lemma foldl_records rows acc :
  unique_pk variant_pk variantRows ->
  NoDup (tokenKey showDate <$> rows) ->
  (forall r, r ∈ rows -> tokenKey showDate r ∉ Object_keys acc) ->
  foldl (variantRowReducer showDate) acc (leftJoin rows variantRows) =
  acc ++ ((fun r => (tokenKey showDate r, recordToken variantRows r)) <$> rows).
Proof.
  intros Huniq. revert acc. induction rows as [|r rows IH]; intros acc Hnd Hnew.
  - simpl. by rewrite app_nil_r.
  - rewrite fmap_cons in Hnd. apply NoDup_cons in Hnd as [Hr Hnd].
    rewrite leftJoin_cons, foldl_app.
    rewrite foldl_record by (try done; apply obj_get_None_keys, Hnew; left).
    rewrite IH; [by rewrite fmap_cons, <- app_assoc | done |].
    intros r' Hr'. unfold Object_keys. rewrite fmap_app. cbn. intros Hin.
    apply elem_of_app in Hin as [Hin|Hin].
    + by apply (Hnew r'); [right|].
    + apply list_elem_of_singleton in Hin. apply Hr. rewrite <- Hin.
      by apply list_elem_of_fmap_2.
Qed.
Lemma recordVariants_elem r name count :
  (name, count) ∈ recordVariants variantRows r <->
  kept_name name /\
  VariantRow.mk (EnvRow.feature_name r) (EnvRow.app_name r) (EnvRow.environment r)
    (EnvRow.timestamp r) name count ∈ variantRows.
Proof.
  unfold recordVariants. rewrite list_elem_of_fmap. split.
  - intros (v & [= -> ->] & Hv). apply list_elem_of_filter in Hv as [Hname Hv].
    apply list_elem_of_filter in Hv as [(Hf & Ha & He & Ht) Hv]. split; [done|].
    destruct v as [f a e t n c]. simpl in *. by subst.
  - intros [Hname Hv]. eexists. split; [|apply list_elem_of_filter; split;
      [|apply list_elem_of_filter; split; [|exact Hv]]]; done.
Qed.

End reconstruction.

(** Without two selected rows under one property name, the read returns
    the objects of the selected rows, in table order. *)
Lemma getMetricsForFeatureToggle_records showDate now featureName hoursBack d :
  unique_pk variant_pk (client_metrics_env_variants d) ->
  NoDup (tokenKey showDate <$> windowRows now featureName hoursBack d) ->
  getMetricsForFeatureToggle showDate now featureName hoursBack d =
    recordToken (client_metrics_env_variants d) <$> windowRows now featureName hoursBack d.
Proof.
  intros Huniq Hnd.
  unfold getMetricsForFeatureToggle, metricsTokens. fold (windowRows now featureName hoursBack d).
  rewrite foldl_records; [|done|done|intros r _; apply not_elem_of_nil].
  unfold Object_values. by rewrite app_nil_l, <- list_fmap_compose.
Qed.

(** X17.  When the variant table has at most one row per key and no two
    selected hourly rows get the same property name from the reducer,
    [getMetricsForFeatureToggle] returns exactly one object per hourly row
    of the feature that is at most [hoursBack] hours old, in table order:
    the row's feature, app, environment, hour, yes and no, and as variants
    the names and counts of the variant rows of the same feature, app,
    environment and hour, except those named by the empty string (skipped
    by [if (variant)]) or [__proto__] (an assignment that creates no
    property); a row without such variant rows gets an empty mapping. *)
Theorem one_object_per_record showDate now featureName hoursBack d :
  unique_pk variant_pk (client_metrics_env_variants d) ->
  NoDup (tokenKey showDate <$> windowRows now featureName hoursBack d) ->
  getMetricsForFeatureToggle showDate now featureName hoursBack d =
    (fun r => Metric.mk (EnvRow.feature_name r) (EnvRow.app_name r) (EnvRow.environment r)
                (EnvRow.timestamp r) (EnvRow.yes r) (EnvRow.no r)
                (Some (recordVariants (client_metrics_env_variants d) r))) <$>
    windowRows now featureName hoursBack d /\
  (forall r name count,
     (name, count) ∈ recordVariants (client_metrics_env_variants d) r <->
     (name <> "" /\ name <> "__proto__") /\
     VariantRow.mk (EnvRow.feature_name r) (EnvRow.app_name r) (EnvRow.environment r)
       (EnvRow.timestamp r) name count ∈ client_metrics_env_variants d) /\
  (forall r, filter (joins r) (client_metrics_env_variants d) = [] ->
     recordVariants (client_metrics_env_variants d) r = []).
Proof.
  intros Huniq Hnd. split_and!.
  - by apply getMetricsForFeatureToggle_records.
  - intros r name count. apply recordVariants_elem.
  - intros r Hnone. unfold recordVariants. by rewrite Hnone.
Qed.

Lemma one_object_per_record_witness :
  let r1 := EnvRow.mk "f" "a" "prod" 3600000 3 1 in
  let r2 := EnvRow.mk "f" "b" "prod" 3600000 5 0 in
  let d := mkDb [r1; EnvRow.mk "g" "a" "prod" 3600000 1 1; r2]
             [VariantRow.mk "f" "a" "prod" 3600000 "A" 2; VariantRow.mk "f" "a" "prod" 3600000 "" 7;
              VariantRow.mk "f" "a" "prod" 3600000 "__proto__" 9;
              VariantRow.mk "f" "a" "prod" 3600000 "B" 4] [] in
  (unique_pk variant_pk (client_metrics_env_variants d) /\
   NoDup (tokenKey epochString <$> windowRows 7200000 "f" 24 d)) /\
  getMetricsForFeatureToggle epochString 7200000 "f" 24 d =
    [Metric.mk "f" "a" "prod" 3600000 3 1 (Some [("A", 2); ("B", 4)]);
     Metric.mk "f" "b" "prod" 3600000 5 0 (Some [])].
Proof.
  intros r1 r2 d.
  assert (Huniq : unique_pk variant_pk (client_metrics_env_variants d))
    by exact (bool_decide_unpack (NoDup (variant_pk <$> client_metrics_env_variants d)) I).
  assert (Hnd : NoDup (tokenKey epochString <$> windowRows 7200000 "f" 24 d))
    by exact (bool_decide_unpack (NoDup (tokenKey epochString <$> windowRows 7200000 "f" 24 d)) I).
  split; [by split|].
  exact (proj1 (one_object_per_record epochString 7200000 "f" 24 d Huniq Hnd)).
Defined.

Lemma leftJoin_drop_orphan rows vars1 v vars2 :
  (forall r, r ∈ rows -> ~ joins r v) ->
  leftJoin rows (vars1 ++ v :: vars2) = leftJoin rows (vars1 ++ vars2).
Proof.
  induction rows as [|r rows IH]; intros Horphan; [done|].
  rewrite (leftJoin_cons (vars1 ++ v :: vars2)), (leftJoin_cons (vars1 ++ vars2)).
  rewrite IH by (intros r' Hr'; apply Horphan; by right). f_equal.
  unfold leftJoin. cbn [mbind list_bind].
  rewrite filter_drop_rejected; [done | apply Horphan; left].
Qed.

(** X18.  A variant row that joins no hourly row (as the variant rows of a
    swept or deleted hour, which the store leaves in place) never shows in
    [getMetricsForFeatureToggle]: the read returns what it returns without
    that row. *)
Theorem orphan_variants_invisible showDate now featureName hoursBack rows vars1 v vars2 totals :
  (forall r, r ∈ rows -> ~ joins r v) ->
  getMetricsForFeatureToggle showDate now featureName hoursBack
    (mkDb rows (vars1 ++ v :: vars2) totals) =
  getMetricsForFeatureToggle showDate now featureName hoursBack
    (mkDb rows (vars1 ++ vars2) totals).
Proof.
  intros Horphan. unfold getMetricsForFeatureToggle, metricsTokens.
  cbn [client_metrics_env client_metrics_env_variants].
  rewrite leftJoin_drop_orphan; [done|].
  intros r Hr. apply list_elem_of_filter in Hr as [_ Hr]. by apply Horphan.
Qed.

Lemma orphan_variants_invisible_witness :
  let r := EnvRow.mk "f" "a" "prod" 7200000 3 1 in
  let s := mkSession
             (mkDb [EnvRow.mk "f" "a" "prod" 0 1 0; r] [VariantRow.mk "f" "a" "prod" 0 "A" 2] [])
             10800000 [] in
  let d := tables (after (clearMetrics 2) s) in
  (client_metrics_env d = [r] /\
   client_metrics_env_variants d = [VariantRow.mk "f" "a" "prod" 0 "A" 2] /\
   forall r', r' ∈ [r] -> ~ joins r' (VariantRow.mk "f" "a" "prod" 0 "A" 2)) /\
  getMetricsForFeatureToggle epochString 10800000 "f" 24 d =
    getMetricsForFeatureToggle epochString 10800000 "f" 24 (mkDb [r] [] []).
Proof.
  intros r s d.
  assert (Horphan : forall r', r' ∈ [r] -> ~ joins r' (VariantRow.mk "f" "a" "prod" 0 "A" 2)).
  { intros r' Hr' (_ & _ & _ & Ht). apply list_elem_of_singleton in Hr' as ->.
    discriminate Ht. }
  split; [by split_and!|].
  exact (orphan_variants_invisible epochString 10800000 "f" 24 [r] []
           (VariantRow.mk "f" "a" "prod" 0 "A" 2) [] [] Horphan).
Defined.

(** X19.  Whatever the tables hold, every object returned by
    [getMetricsForFeatureToggle] carries the feature, app, environment,
    hour, yes and no of one hourly row of the requested feature that is at
    most [hoursBack] hours old, and a variants mapping (never an absent
    one) in which every entry has a non-empty name and is the name and
    count of a row of the variant table. *)
Theorem objects_come_from_records showDate now featureName hoursBack d metric :
  metric ∈ getMetricsForFeatureToggle showDate now featureName hoursBack d ->
  exists r vs,
    r ∈ client_metrics_env d /\
    EnvRow.feature_name r = featureName /\
    at_or_after now hoursBack (EnvRow.timestamp r) /\
    metric = Metric.mk (EnvRow.feature_name r) (EnvRow.app_name r) (EnvRow.environment r)
               (EnvRow.timestamp r) (EnvRow.yes r) (EnvRow.no r) (Some vs) /\
    Forall (fun nc => nc.1 <> "" /\
                      exists v, v ∈ client_metrics_env_variants d /\
                                VariantRow.variant v = nc.1 /\ VariantRow.count v = nc.2) vs.
Proof.
  unfold getMetricsForFeatureToggle, metricsTokens. fold (windowRows now featureName hoursBack d).
  set (rows := windowRows now featureName hoursBack d).
  set (V := fun nc : string * Z =>
              nc.1 <> "" /\
              exists v, v ∈ client_metrics_env_variants d /\
                        VariantRow.variant v = nc.1 /\ VariantRow.count v = nc.2).
  set (Q := fun kt : string * Metric.t =>
              exists r vs, r ∈ rows /\
                kt.2 = Metric.mk (EnvRow.feature_name r) (EnvRow.app_name r) (EnvRow.environment r)
                         (EnvRow.timestamp r) (EnvRow.yes r) (EnvRow.no r) (Some vs) /\
                Forall V vs).
  assert (Hinv : Forall Q (foldl (variantRowReducer showDate) []
                             (leftJoin rows (client_metrics_env_variants d)))).
  { apply (foldl_invariant (Forall Q)); [|apply Forall_nil_2].
    intros acc x Hx Hacc. apply leftJoin_rows in Hx as [Hrow Hvar].
    unfold variantRowReducer. fold (tokenKey showDate (TokenRow.row x)).
    set (key := tokenKey showDate (TokenRow.row x)).
    set (acc1 := match obj_get key acc with Some _ => acc | None => obj_set key _ acc end).
    assert (Hacc1 : Forall Q acc1).
    { unfold acc1. destruct (obj_get key acc); [done|]. apply obj_set_Forall; [|done].
      exists (TokenRow.row x), []. split_and!; [done | done | apply Forall_nil_2]. }
    clearbody acc1. destruct (TokenRow.variant_count x) as [[variant count]|]; [|done].
    destruct (obj_get key acc1) as [t|] eqn:Hget; [|done]. case_decide as Hname; [done|].
    apply obj_set_Forall; [|done].
    apply obj_get_elem in Hget. rewrite Forall_forall in Hacc1.
    destruct (Hacc1 _ Hget) as (r & vs & Hr & Ht & Hvs). simpl in Ht. subst t.
    exists r, (obj_assign variant count vs). split_and!; [done | done |].
    apply obj_assign_Forall; [|done]. split; [done|].
    destruct Hvar as (v & Hv & _ & Hvn & Hvc). by exists v. }
  intros Hm. unfold Object_values in Hm. apply list_elem_of_fmap in Hm as (kt & -> & Hkt).
  rewrite Forall_forall in Hinv. destruct (Hinv kt Hkt) as (r & vs & Hr & Ht & Hvs).
  subst rows. unfold windowRows in Hr. apply list_elem_of_filter in Hr as [[Hf Hw] Hr].
  by exists r, vs.
Qed.

Lemma objects_come_from_records_witness :
  let d := mkDb [EnvRow.mk "f" "a_b" "c" 0 1 0; EnvRow.mk "f" "a" "b_c" 0 1 0]
             [VariantRow.mk "f" "a" "b_c" 0 "A" 3] [] in
  let metric := Metric.mk "f" "a_b" "c" 0 1 0 (Some [("A", 3)]) in
  metric ∈ getMetricsForFeatureToggle epochString 0 "f" 24 d /\
  exists r vs, r ∈ client_metrics_env d /\
    metric = Metric.mk (EnvRow.feature_name r) (EnvRow.app_name r) (EnvRow.environment r)
               (EnvRow.timestamp r) (EnvRow.yes r) (EnvRow.no r) (Some vs).
Proof.
  intros d metric.
  assert (Hin : metric ∈ getMetricsForFeatureToggle epochString 0 "f" 24 d) by left.
  split; [exact Hin|].
  destruct (objects_come_from_records epochString 0 "f" 24 d metric Hin)
    as (r & vs & Hr & _ & _ & Hm & _).
  by exists r, vs.
Defined.

(** ** The window of the reads *)

(** X20.  Take a table holding the hourly record [r], and the same table
    without it.  If the timestamp of [r] is exactly [hoursBack] hours before
    now, [getSeenAppsForFeatureToggle] lists its app and
    [getSeenTogglesForApp] its feature; and when no two selected rows get
    the same property name from the reducer (and the variant table has at
    most one row per key), [getMetricsForFeatureToggle] returns the object
    of [r]: its feature, app, environment, hour, yes and no, with its
    variants.  If the timestamp of [r] is one second older than that, every
    windowed read returns what it returns without [r]. *)
Theorem windowed_reads_at_the_boundary showDate collate now hoursBack t1 r t2 variantRows totals :
  let boundary := now - hoursBack * msPerHour in
  let d := mkDb (t1 ++ r :: t2) variantRows totals in
  let d' := mkDb (t1 ++ t2) variantRows totals in
  (EnvRow.timestamp r = boundary ->
   (unique_pk variant_pk variantRows ->
    NoDup (tokenKey showDate <$> windowRows now (EnvRow.feature_name r) hoursBack d) ->
    Metric.mk (EnvRow.feature_name r) (EnvRow.app_name r) (EnvRow.environment r)
      (EnvRow.timestamp r) (EnvRow.yes r) (EnvRow.no r) (Some (recordVariants variantRows r)) ∈
    getMetricsForFeatureToggle showDate now (EnvRow.feature_name r) hoursBack d) /\
   EnvRow.app_name r ∈
     getSeenAppsForFeatureToggle collate now (EnvRow.feature_name r) hoursBack d /\
   EnvRow.feature_name r ∈
     getSeenTogglesForApp collate now (EnvRow.app_name r) hoursBack d) /\
  (EnvRow.timestamp r = boundary - msPerSecond ->
   forall featureName appName,
     getMetricsForFeatureToggle showDate now featureName hoursBack d =
       getMetricsForFeatureToggle showDate now featureName hoursBack d' /\
     getSeenAppsForFeatureToggle collate now featureName hoursBack d =
       getSeenAppsForFeatureToggle collate now featureName hoursBack d' /\
     getSeenTogglesForApp collate now appName hoursBack d =
       getSeenTogglesForApp collate now appName hoursBack d').
Proof.
  intros boundary d d'. subst boundary. split.
  - intros Hts.
    assert (Hin : at_or_after now hoursBack (EnvRow.timestamp r))
      by (rewrite Hts; apply at_or_after_boundary).
    assert (Hr : r ∈ t1 ++ r :: t2) by (apply elem_of_app; right; left).
    split_and!.
    + intros Huniq Hnd.
      rewrite getMetricsForFeatureToggle_records by done.
      apply (list_elem_of_fmap_2 (recordToken variantRows)).
      unfold windowRows. apply list_elem_of_filter. by split.
    + unfold getSeenAppsForFeatureToggle. cbn [client_metrics_env].
      apply elem_of_sort, elem_of_remove_dups, list_elem_of_fmap_2, list_elem_of_filter.
      by split.
    + unfold getSeenTogglesForApp. cbn [client_metrics_env].
      apply elem_of_sort, elem_of_remove_dups, list_elem_of_fmap_2, list_elem_of_filter.
      by split.
  - intros Hts featureName appName. subst d d'.
    assert (Hout : ~ at_or_after now hoursBack (EnvRow.timestamp r))
      by (rewrite Hts; apply at_or_after_one_second_older).
    unfold getMetricsForFeatureToggle, metricsTokens, getSeenAppsForFeatureToggle,
      getSeenTogglesForApp.
    cbn [client_metrics_env client_metrics_env_variants].
    rewrite !filter_drop_rejected; [done | tauto..].
Qed.

Lemma windowed_reads_at_the_boundary_witness :
  let r := EnvRow.mk "f" "a" "e" 3600000 1 0 in
  let r' := EnvRow.mk "g" "b" "e" 3599000 1 0 in
  let variantRows := [VariantRow.mk "f" "a" "e" 3600000 "A" 2] in
  (EnvRow.timestamp r = 90000000 - 24 * msPerHour /\
   unique_pk variant_pk variantRows /\
   NoDup (tokenKey epochString <$> windowRows 90000000 "f" 24 (mkDb [r'; r] variantRows []))) /\
  EnvRow.timestamp r' = 90000000 - 24 * msPerHour - msPerSecond /\
  Metric.mk "f" "a" "e" 3600000 1 0 (Some [("A", 2)]) ∈
    getMetricsForFeatureToggle epochString 90000000 "f" 24 (mkDb [r'; r] variantRows []) /\
  getSeenAppsForFeatureToggle codeCompare 90000000 "g" 24 (mkDb [r'; r] variantRows []) =
    getSeenAppsForFeatureToggle codeCompare 90000000 "g" 24 (mkDb [r] variantRows []).
Proof.
  intros r r' variantRows.
  assert (Huniq : unique_pk variant_pk variantRows) by apply NoDup_singleton.
  assert (Hnd : NoDup (tokenKey epochString <$>
                       windowRows 90000000 "f" 24 (mkDb [r'; r] variantRows [])))
    by apply NoDup_singleton.
  split_and!; [reflexivity | exact Huniq | exact Hnd | reflexivity | |].
  - exact (proj1 (proj1 (windowed_reads_at_the_boundary epochString codeCompare 90000000 24 [r'] r []
                           variantRows []) eq_refl) Huniq Hnd).
  - exact (proj1 (proj2 (proj2 (windowed_reads_at_the_boundary epochString codeCompare 90000000 24 [] r'
                                  [r] variantRows []) eq_refl "g" "b"))).
Defined.
